(** * Shunya / Zerodha option-chain streamer: a shallow embedding

    The development follows the Python sources under [engines/zerodha]:
    - [snapshot_builder.py]  (module [SnapshotBuilder])
    - [option_universe.py]   (module [OptionUniverse])
    - [ticker_stream.py]     (module [TickerStream])
    - [run_option_chain.py]  (module [RunOptionChain])
    - [csv_writer.py]        (modules [CsvWriter], [WriterSession],
                              [MultiCsvWriter])
    - [ticker_stream.py]     (also module [TickCache])
    - [run_option_chain.py]  (also modules [Streamer], [OptionChainStreamer])
    - [option_universe.py]   (also modules [UniverseContents],
                              [ExpirySelection])
    - [instruments.py]       (module [Instruments])
    - [auth.py]              (module [KiteAuth])

    Conventions of the embedding.
    - Python [int] is [Z]; a finite Python [float] is the rational [Q] it
      denotes, and the arithmetic on prices ([+], [-], [/]) rounds its
      result to binary64 ([Py.binary64]); NaN and the infinities are not
      values of the model, so a statement on that arithmetic carries a
      bound that excludes overflow.  Clock readings, intervals and the
      strike filter are exact rationals.  [None] is [VNone] or, where the
      source annotates [Optional[...]], the [None] of [option].
    - A [dict] that is only read by key is a [gmap]; a [dict] whose iteration
      order is observed is an association list in insertion order.
    - Clocks, the calendar and the file system are explicit state.
    - Calls to [logger] have no effect on the modelled state and are left
      out. *)

From Stdlib Require Import ZArith QArith Qabs Qround Qpower Lqa String Ascii List Lia.
From stdpp Require Import base option list gmap strings pretty sorting.

Set Warnings "-abstract-large-number".

Open Scope Z_scope.

(** ** Python values *)

Module Py.

(** Numbers: [int] and [float] are kept apart because [/] always yields a
    float while [+] and [-] of two ints stay ints. *)
Inductive pynum : Type :=
| NInt (n : Z)
| NFloat (q : Q).

Definition num_val (x : pynum) : Q :=
  match x with
  | NInt n => inject_Z n
  | NFloat q => q
  end.

(** [x == 0] on numbers. *)
Definition num_is_zero (x : pynum) : bool := Qeq_bool (num_val x) 0.

(** *** binary64

    A float operation returns the float nearest to the exact result, ties
    going to the even mantissa.  The floats are the numbers [m * 2 ^ e] with
    [|m| < 2 ^ 53] and [-1074 <= e <= 971]. *)

Definition pow2 (e : Z) : Q := (2 ^ e)%Q.

(** The floor of the binary logarithm of a positive rational. *)
Definition ilog2 (q : Q) : Z :=
  let k := Z.log2 (Qnum q) - Z.log2 (Zpos (Qden q)) in
  if Qle_bool (pow2 k) q then k else k - 1.

(** The nearest integer, the even one of two. *)
Definition round_half_even (q : Q) : Z :=
  let f := Qfloor q in
  match (q - inject_Z f ?= 1 # 2)%Q with
  | Lt => f
  | Gt => f + 1
  | Eq => if Z.even f then f else f + 1
  end.

(** Rounding to binary64: [|q|] is rounded on the grid of step [2 ^ e],
    where [e] is the exponent of its binade, and not below that of the
    subnormal numbers.  A result beyond the largest float, which Python
    gives as [inf], is outside the model. *)
Definition binary64 (q : Q) : Q :=
  if Qeq_bool q 0 then 0%Q
  else
    let a := Qabs q in
    let e := Z.max (ilog2 a - 52) (-1074) in
    let m := round_half_even (a / pow2 e) in
    let r := (inject_Z m * pow2 e)%Q in
    Qred (if Qle_bool 0 q then r else (- r)%Q).

(** The binary64 grid: 53 bits of mantissa, exponents from -1074 up. *)
Definition on_grid64 (q : Q) : Prop :=
  exists m e : Z, Z.abs m < 2 ^ 53 /\ -1074 <= e /\ (q == inject_Z m * pow2 e)%Q.

(** The largest float, and the floats. *)
Definition float_max : Q := (inject_Z (2 ^ 53 - 1) * pow2 971)%Q.

Definition representable64 (q : Q) : Prop :=
  on_grid64 q /\ (Qabs q <= float_max)%Q.

(** [float(x)]. *)
Definition as_float (x : pynum) : Q :=
  match x with
  | NInt n => binary64 (inject_Z n)
  | NFloat q => q
  end.

(** [a + b] and [a - b]: exact on two ints; otherwise both operands are
    taken as floats and the result is rounded. *)
Definition num_add (a b : pynum) : pynum :=
  match a, b with
  | NInt x, NInt y => NInt (x + y)
  | _, _ => NFloat (binary64 (as_float a + as_float b))
  end.

Definition num_sub (a b : pynum) : pynum :=
  match a, b with
  | NInt x, NInt y => NInt (x - y)
  | _, _ => NFloat (binary64 (as_float a - as_float b))
  end.

(** True division [a / b]: the rounded quotient, of the two ints
    themselves when both are ints.  The sources only divide by the literal
    [2]. *)
Definition num_truediv (a b : pynum) : pynum :=
  match a, b with
  | NInt x, NInt y => NFloat (binary64 (inject_Z x / inject_Z y))
  | _, _ => NFloat (binary64 (as_float a / as_float b))
  end.

(** [int(q)]: truncation toward zero. *)
Definition int_of_float (q : Q) : Z := Z.quot (Qnum q) (Zpos (Qden q)).

(** [datetime.date]. *)
Record date : Type := mkDate { year : Z; month : Z; day : Z }.

Definition valid_date (d : date) : Prop :=
  1 <= year d <= 9999 /\ 1 <= month d <= 12 /\ 1 <= day d <= 31.

Definition date_eqb (a b : date) : bool :=
  (year a =? year b) && (month a =? month b) && (day a =? day b).

(** A [datetime]: microseconds on its own wall clock counted from
    1970-01-01T00:00:00, and the UTC offset (microseconds) when aware. *)
Record datetime : Type := mkDatetime { dt_wall : Z; dt_tzinfo : option Z }.

(** A [pytz] timezone: the offset [localize] attaches to a naive wall time,
    and the offset in force at a UTC instant. *)
Record timezone : Type := mkTz { tz_localize : Z -> Z; tz_utcoffset_at : Z -> Z }.

(** Scalar values stored under [Any]. *)
Inductive pyval : Type :=
| VNone
| VNum (x : pynum)
| VStr (s : string)
| VDatetime (d : datetime).

Definition of_opt_num (o : option pynum) : pyval :=
  match o with
  | Some x => VNum x
  | None => VNone
  end.

Definition is_none (v : pyval) : bool :=
  match v with
  | VNone => true
  | _ => false
  end.

(** Truth value of an object. *)
Definition truthy (v : pyval) : bool :=
  match v with
  | VNone => false
  | VNum x => negb (num_is_zero x)
  | VStr s => negb (String.eqb s "")
  | VDatetime _ => true
  end.

(** [a or b]. *)
Definition py_or (a b : pyval) : pyval := if truthy a then a else b.

(** [d.get(k)] and [d.get(k, dflt)] on a dict of scalars. *)
Definition dict_get (d : gmap string pyval) (k : string) : pyval :=
  default VNone (d !! k).

Definition dict_get_default (d : gmap string pyval) (k : string) (dflt : pyval) : pyval :=
  default dflt (d !! k).

(** Decimal digits and zero-padded fields of [strftime]. *)
Definition digit (n : Z) : ascii := ascii_of_N (Z.to_N (48 + n)).

Definition pad2 (n : Z) (rest : string) : string :=
  String (digit (n / 10 mod 10)) (String (digit (n mod 10)) rest).

Definition pad4 (n : Z) (rest : string) : string :=
  String (digit (n / 1000 mod 10)) (String (digit (n / 100 mod 10)) (pad2 n rest)).

(** [d.strftime("%Y%m%d")], four-digit zero-padded year. *)
Definition strftime_Ymd (d : date) : string :=
  pad4 (year d) (pad2 (month d) (pad2 (day d) "")).

(** [d.strftime("%Y-%m-%d")], which is also [str(d)]. *)
Definition strftime_Y_m_d (d : date) : string :=
  pad4 (year d) (String "-" (pad2 (month d) (String "-" (pad2 (day d) "")))).

End Py.

Import Py.

(** ** snapshot_builder.py *)

Module SnapshotBuilder.

(** Column order matching sample.csv *)
Definition COLUMNS : list string :=
  [ "ts"; "venue"; "underlying_symbol"; "underlying_spot"; "instrument_id";
    "option_symbol"; "expiry_date"; "strike"; "option_type";
    "best_bid_px"; "best_bid_sz"; "best_ask_px"; "best_ask_sz";
    "mid_px"; "spread"; "last_trade_px"; "last_trade_sz";
    "bid_px_1"; "bid_sz_1"; "bid_px_2"; "bid_sz_2"; "bid_px_3"; "bid_sz_3";
    "ask_px_1"; "ask_sz_1"; "ask_px_2"; "ask_sz_2"; "ask_px_3"; "ask_sz_3" ].

(** One depth level [{"price": .., "quantity": .., "orders": ..}]; the source
    annotates prices as [Optional[float]] and sizes as [Optional[int]]. *)
Abbreviation level := (gmap string pynum).

(** A raw tick: its scalar entries, and the entry ["depth"] (absent, or a
    dict from side to a list of levels). *)
Record Tick : Type := mkTick {
  tick_fields : gmap string pyval;
  tick_depth : option (gmap string (list level))
}.

(** The empty dict [{}] used for a token without tick. *)
Definition empty_tick : Tick := mkTick ∅ None.

(** The wall clock: the [n]-th call of [datetime.now] returns
    [readings n] (microseconds since the Unix epoch, UTC). *)
Record Clock : Type := mkClock { readings : nat -> Z; reads : nat }.

Definition clock_now (c : Clock) : Z * Clock :=
  (readings c (reads c), mkClock (readings c) (S (reads c))).

Record SnapshotBuilder : Type := mkBuilder {
  venue_label : string;
  tz : timezone;
  _spot_prices : gmap string pynum
}.

Definition set_spot_price (self : SnapshotBuilder) (underlying : string) (spot : pynum)
  : SnapshotBuilder :=
  mkBuilder (venue_label self) (tz self) (<[underlying := spot]> (_spot_prices self)).

Definition get_spot_price (self : SnapshotBuilder) (underlying : string) : option pynum :=
  _spot_prices self !! underlying.

(** [_ts_to_micros]: [dt - epoch] in UTC, in whole microseconds. *)
Definition _ts_to_micros (self : SnapshotBuilder) (dt : option datetime) (clk : Clock)
  : Z * Clock :=
  let '(dt, clk) :=
    match dt with
    | None =>
        let '(u, clk') := clock_now clk in
        let off := tz_utcoffset_at (tz self) u in
        (mkDatetime (u + off) (Some off), clk')
    | Some d =>
        match dt_tzinfo d with
        | None => (mkDatetime (dt_wall d) (Some (tz_localize (tz self) (dt_wall d))), clk)
        | Some _ => (d, clk)
        end
    end in
  (dt_wall dt - default 0 (dt_tzinfo dt), clk).

(** [_extract_depth]: the loop [for i in range(levels)] appending to
    [result]. *)
Definition extract_level (depth : list level) (i : nat)
  : option pynum * option pynum :=
  match depth !! i with
  | Some lvl =>
      let price := lvl !! "price" in
      let qty := lvl !! "quantity" in
      match price with
      | Some p => if num_is_zero p then (None, None) else (price, qty)
      | None => (price, qty)
      end
  | None => (None, None)
  end.

Definition _extract_depth (tick : Tick) (side : string) (levels : nat)
  : list (option pynum * option pynum) :=
  let depth := default [] (default ∅ (tick_depth tick) !! side) in
  foldl (fun result i => result ++ [extract_level depth i]) [] (seq 0 levels).

Definition _compute_mid_spread (best_bid best_ask : option pynum)
  : option pynum * option pynum :=
  match best_bid, best_ask with
  | Some bid, Some ask =>
      let mid := num_truediv (num_add bid ask) (NInt 2) in
      let spread := num_sub ask bid in
      (Some mid, Some spread)
  | _, _ => (None, None)
  end.

(** Prices whose sum and difference stay within the floats: both at most
    [2 ^ 1022] in magnitude. *)
Definition prices_in_range (best_bid best_ask : option pynum) : Prop :=
  forall bid ask, best_bid = Some bid -> best_ask = Some ask ->
    (Qabs (num_val bid) <= pow2 1022 /\ Qabs (num_val ask) <= pow2 1022)%Q.

(** [xs[i][0] if len(xs) > i else None] and its [[1]] sibling. *)
Definition px_at (xs : list (option pynum * option pynum)) (i : nat) : option pynum :=
  match xs !! i with
  | Some (p, _) => p
  | None => None
  end.

Definition sz_at (xs : list (option pynum * option pynum)) (i : nat) : option pynum :=
  match xs !! i with
  | Some (_, q) => q
  | None => None
  end.

(** The dict literal of [build_row]. *)
Definition make_row
  (ts venue underlying spot instrument_id option_symbol expiry_date strike option_type
   best_bid_px best_bid_sz best_ask_px best_ask_sz mid_px spread last_trade_px last_trade_sz
   bid_px_1 bid_sz_1 bid_px_2 bid_sz_2 bid_px_3 bid_sz_3
   ask_px_1 ask_sz_1 ask_px_2 ask_sz_2 ask_px_3 ask_sz_3 : pyval) : gmap string pyval :=
  list_to_map
    [ ("ts", ts); ("venue", venue); ("underlying_symbol", underlying);
      ("underlying_spot", spot); ("instrument_id", instrument_id);
      ("option_symbol", option_symbol); ("expiry_date", expiry_date);
      ("strike", strike); ("option_type", option_type);
      ("best_bid_px", best_bid_px); ("best_bid_sz", best_bid_sz);
      ("best_ask_px", best_ask_px); ("best_ask_sz", best_ask_sz);
      ("mid_px", mid_px); ("spread", spread);
      ("last_trade_px", last_trade_px); ("last_trade_sz", last_trade_sz);
      ("bid_px_1", bid_px_1); ("bid_sz_1", bid_sz_1);
      ("bid_px_2", bid_px_2); ("bid_sz_2", bid_sz_2);
      ("bid_px_3", bid_px_3); ("bid_sz_3", bid_sz_3);
      ("ask_px_1", ask_px_1); ("ask_sz_1", ask_sz_1);
      ("ask_px_2", ask_px_2); ("ask_sz_2", ask_sz_2);
      ("ask_px_3", ask_px_3); ("ask_sz_3", ask_sz_3) ].

Definition build_row (self : SnapshotBuilder) (tick : Tick)
    (contract_meta : gmap string pyval) (ts_micros : option Z) (clk : Clock)
  : gmap string pyval * Clock :=
  let underlying := dict_get_default contract_meta "underlying" (VStr "") in
  let spot :=
    match underlying with
    | VStr u => _spot_prices self !! u
    | _ => None
    end in
  (* Timestamp *)
  let '(ts_micros, clk) :=
    match ts_micros with
    | Some t => (t, clk)
    | None =>
        let tick_ts := py_or (dict_get (tick_fields tick) "exchange_timestamp")
                             (dict_get (tick_fields tick) "timestamp") in
        match tick_ts with
        | VDatetime d => _ts_to_micros self (Some d) clk
        | _ => _ts_to_micros self None clk
        end
    end in
  (* Extract depth *)
  let bids := _extract_depth tick "buy" 3 in
  let asks := _extract_depth tick "sell" 3 in
  (* Best bid/ask *)
  let best_bid_px := match bids with [] => None | b :: _ => b.1 end in
  let best_bid_sz := match bids with [] => None | b :: _ => b.2 end in
  let best_ask_px := match asks with [] => None | a :: _ => a.1 end in
  let best_ask_sz := match asks with [] => None | a :: _ => a.2 end in
  (* Mid and spread *)
  let '(mid_px, spread) := _compute_mid_spread best_bid_px best_ask_px in
  (* Last trade *)
  let last_trade_px := dict_get (tick_fields tick) "last_price" in
  let last_trade_sz := dict_get_default (tick_fields tick) "last_quantity" (VNum (NInt 0)) in
  (make_row
     (VNum (NInt ts_micros)) (VStr (venue_label self)) underlying (of_opt_num spot)
     (dict_get_default contract_meta "instrument_id" (VStr ""))
     (dict_get_default contract_meta "tradingsymbol" (VStr ""))
     (dict_get_default contract_meta "expiry" (VStr ""))
     (dict_get contract_meta "strike")
     (dict_get_default contract_meta "option_type_short" (VStr ""))
     (of_opt_num best_bid_px) (of_opt_num best_bid_sz)
     (of_opt_num best_ask_px) (of_opt_num best_ask_sz)
     (of_opt_num mid_px) (of_opt_num spread)
     last_trade_px last_trade_sz
     (of_opt_num (px_at bids 0)) (of_opt_num (sz_at bids 0))
     (of_opt_num (px_at bids 1)) (of_opt_num (sz_at bids 1))
     (of_opt_num (px_at bids 2)) (of_opt_num (sz_at bids 2))
     (of_opt_num (px_at asks 0)) (of_opt_num (sz_at asks 0))
     (of_opt_num (px_at asks 1)) (of_opt_num (sz_at asks 1))
     (of_opt_num (px_at asks 2)) (of_opt_num (sz_at asks 2)),
   clk).

(** The loop of [build_snapshot] over [universe.items()]. *)
Fixpoint snapshot_rows (self : SnapshotBuilder) (ticks : gmap Z Tick) (ts_micros : Z)
    (items : list (Z * gmap string pyval)) (rows : list (gmap string pyval)) (clk : Clock)
  : list (gmap string pyval) * Clock :=
  match items with
  | [] => (rows, clk)
  | (token, meta) :: rest =>
      let tick := default empty_tick (ticks !! token) in
      let '(row, clk) := build_row self tick meta (Some ts_micros) clk in
      snapshot_rows self ticks ts_micros rest (rows ++ [row]) clk
  end.

Definition build_snapshot (self : SnapshotBuilder) (ticks : gmap Z Tick)
    (universe : list (Z * gmap string pyval)) (ts_micros : option Z) (clk : Clock)
  : list (gmap string pyval) * Clock :=
  let '(ts_micros, clk) :=
    match ts_micros with
    | Some t => (t, clk)
    | None => _ts_to_micros self None clk
    end in
  snapshot_rows self ticks ts_micros universe [] clk.

(** The row [build_snapshot] makes for one entry of the universe. *)
Definition row_for (self : SnapshotBuilder) (ticks : gmap Z Tick) (ts : Z) (clk : Clock)
    (item : Z * gmap string pyval) : gmap string pyval :=
  (build_row self (default empty_tick (ticks !! item.1)) item.2 (Some ts) clk).1.

(** The timestamp and the clock with which the loop of [build_snapshot]
    runs. *)
Definition snapshot_ts (ts_micros : option Z) (clk : Clock) : Z :=
  match ts_micros with
  | Some t => t
  | None => readings clk (reads clk)
  end.

Definition snapshot_clock (ts_micros : option Z) (clk : Clock) : Clock :=
  match ts_micros with
  | Some _ => clk
  | None => mkClock (readings clk) (S (reads clk))
  end.

(** [format_csv_value].  The builtin [str] is not part of the repository and
    is a parameter. *)
Section Format.
Context (py_str : pyval -> string).

Definition format_csv_value (val : pyval) : string :=
  match val with
  | VNone => ""
  | VStr s => if String.eqb s "" then "" else py_str val
  | VNum (NFloat q) =>
      (* Avoid scientific notation for large numbers *)
      if negb (Qle_bool (Qabs q) 10000000000)
      then py_str (VNum (NInt (int_of_float q)))
      else py_str val
  | _ => py_str val
  end.

End Format.

End SnapshotBuilder.

(** ** option_universe.py *)

Module OptionUniverse.

(** A row of the instrument master as [build_universe] reads it. *)
Record InstrumentRow : Type := mkInstrumentRow {
  instrument_token : Z;
  tradingsymbol : string;
  expiry : date;
  strike : Q;
  instrument_type : string;
  lot_size : option pyval
}.

(** [d[k] = v] on a dict whose iteration order is observed: an existing key
    keeps its position, a new key goes last. *)
Fixpoint dict_set {V : Type} (d : list (Z * V)) (k : Z) (v : V) : list (Z * V) :=
  match d with
  | [] => [(k, v)]
  | (k', v') :: rest =>
      if k' =? k then (k', v) :: rest else (k', v') :: dict_set rest k v
  end.

(** The loader's [filter_options] and the expiry selection of
    [_select_expiries] depend on the instrument master and on the calendar;
    they are carried as functions. *)
Record OptionUniverse : Type := mkUniverse {
  filter_options : string -> date -> list InstrumentRow;
  _select_expiries : string -> list date;
  underlyings : list string;
  max_strike_distance : Q;
  _universe : list (Z * gmap string pyval);
  _spot_prices : gmap string pynum;
  _selected_expiries : gmap string (list date)
}.

(** The metadata dict stored for one instrument row. *)
Definition contract_meta (underlying : string) (row : InstrumentRow)
  : Z * gmap string pyval :=
  let token := instrument_token row in
  let expiry_str := strftime_Y_m_d (expiry row) in
  let expiry_yyyymmdd := strftime_Ymd (expiry row) in
  let strike := strike row in
  let opt_type := instrument_type row in
  (* Build deterministic instrument_id *)
  let instrument_id :=
    underlying +:+ "_" +:+ expiry_yyyymmdd +:+ "_"
      +:+ pretty (int_of_float strike) +:+ opt_type in
  (token,
   list_to_map
     [ ("instrument_token", VNum (NInt token));
       ("tradingsymbol", VStr (tradingsymbol row));
       ("underlying", VStr underlying);
       ("expiry", VStr expiry_str);
       ("expiry_yyyymmdd", VStr expiry_yyyymmdd);
       ("strike", VNum (NFloat strike));
       ("option_type", VStr opt_type);
       ("option_type_short", VStr (if String.eqb opt_type "CE" then "C" else "P"));
       ("instrument_id", VStr instrument_id);
       ("lot_size", default (VNum (NInt 1)) (lot_size row)) ]).

(** Filter by strike distance. *)
Definition in_strike_band (effective_spot max_distance : Q) (row : InstrumentRow) : bool :=
  Qle_bool (effective_spot - max_distance) (strike row)
  && Qle_bool (strike row) (effective_spot + max_distance).

(** Body of [for expiry in expiries]. *)
Definition add_expiry (self : OptionUniverse) (underlying : string) (effective_spot : Q)
    (universe : list (Z * gmap string pyval)) (expiry : date)
  : list (Z * gmap string pyval) :=
  let options_df := filter_options self underlying expiry in
  let options_df := filter (fun row => in_strike_band effective_spot (max_strike_distance self) row = true) options_df in
  foldl (fun u row => let '(token, meta) := contract_meta underlying row in dict_set u token meta)
        universe options_df.

(** Body of [for underlying in self.underlyings]. *)
Definition add_underlying (self : OptionUniverse)
    (acc : list (Z * gmap string pyval) * gmap string (list date)) (underlying : string)
  : list (Z * gmap string pyval) * gmap string (list date) :=
  let '(universe, selected) := acc in
  let effective_spot :=
    match _spot_prices self !! underlying with
    | None => if String.eqb underlying "NIFTY" then 25000%Q else 50000%Q
    | Some spot => num_val spot
    end in
  let expiries := _select_expiries self underlying in
  (foldl (add_expiry self underlying effective_spot) universe expiries,
   <[underlying := expiries]> selected).

Definition build_universe (self : OptionUniverse) (spot_prices : option (gmap string pynum))
  : OptionUniverse :=
  let spots :=
    match spot_prices with
    | Some sp => sp ∪ _spot_prices self
    | None => _spot_prices self
    end in
  let self := mkUniverse (filter_options self) (_select_expiries self) (underlyings self)
                (max_strike_distance self) [] spots ∅ in
  let '(universe, selected) := foldl (add_underlying self) ([], ∅) (underlyings self) in
  mkUniverse (filter_options self) (_select_expiries self) (underlyings self)
    (max_strike_distance self) universe spots selected.

Definition get_universe (self : OptionUniverse) : list (Z * gmap string pyval) :=
  _universe self.

Definition get_tokens (self : OptionUniverse) : list Z := (_universe self).*1.

End OptionUniverse.

(** ** ticker_stream.py *)

Module TickerStream.

Definition MAX_TOKENS_PER_CONNECTION : nat := 3000.
Definition MAX_CONNECTIONS : nat := 3.

(** [range(start, stop, step)] for a positive step: [start], [start + step],
    ... while below [stop]. *)
Fixpoint range_from (fuel start stop step : nat) : list nat :=
  match fuel with
  | O => []
  | S fuel' =>
      if (start <? stop)%nat then start :: range_from fuel' (start + step) stop step
      else []
  end.

Definition py_range (stop step : nat) : list nat := range_from stop 0 stop step.

(** One connection; only the state [set_tokens] and the subscription touch. *)
Record TickerStream : Type := mkStream {
  _subscribed_tokens : list Z;
  _running : bool
}.

Definition new_stream : TickerStream := mkStream [] false.

(** [TickerStream.set_tokens]. *)
Definition stream_set_tokens (self : TickerStream) (tokens : list Z) : TickerStream :=
  mkStream tokens (_running self).

(** The token list [_do_subscribe] sends on connect. *)
Definition subscription (self : TickerStream) : list Z :=
  if (MAX_TOKENS_PER_CONNECTION <? length (_subscribed_tokens self))%nat
  then take MAX_TOKENS_PER_CONNECTION (_subscribed_tokens self)
  else _subscribed_tokens self.

(** [_token_to_stream] maps a token to its stream, here the stream's index
    in [_streams]. *)
Record MultiTickerStream : Type := mkMulti {
  _streams : list TickerStream;
  _token_to_stream : gmap Z nat
}.

(** Body of [for chunk in chunks]. *)
Definition add_chunk (self : MultiTickerStream) (chunk : list Z) : MultiTickerStream :=
  let stream := stream_set_tokens new_stream chunk in
  let idx := length (_streams self) in
  mkMulti (_streams self ++ [stream])
          (foldl (fun m token => <[token := idx]> m) (_token_to_stream self) chunk).

(** [MultiTickerStream.set_tokens]; the streams and the token map are
    cleared and rebuilt. *)
Definition set_tokens (self : MultiTickerStream) (tokens : list Z) : MultiTickerStream :=
  (* Calculate how to split tokens *)
  let max_per_stream := MAX_TOKENS_PER_CONNECTION in
  let max_total := (max_per_stream * MAX_CONNECTIONS)%nat in
  let tokens :=
    if (max_total <? length tokens)%nat then take max_total tokens else tokens in
  (* Split tokens into chunks *)
  let chunks :=
    foldl (fun chunks i => chunks ++ [take max_per_stream (drop i tokens)])
          [] (py_range (length tokens) max_per_stream) in
  (* Create streams for each chunk *)
  foldl add_chunk (mkMulti [] ∅) chunks.

(** The tokens of each shard, in stream order. *)
Definition shards (self : MultiTickerStream) : list (list Z) :=
  _subscribed_tokens <$> _streams self.

(** [ceil(a / b)] on naturals. *)
Definition ceil_div (a b : nat) : nat := ((a + b - 1) / b)%nat.

End TickerStream.

(** ** run_option_chain.py *)

Module RunOptionChain.


(** [a < b] on rationals, as a boolean, and the builtin [min(a, b)]. *)
Definition Qlt_bool (a b : Q) : bool := negb (Qle_bool b a).







End RunOptionChain.

(** ** csv_writer.py *)

Module CsvWriter.

Import SnapshotBuilder.

(** *** The environment of a writer *)

(** The I/O calls a writer makes.  Each kind of call can be made to raise. *)
Inductive io_op : Type :=
| OpOpen | OpWriteHeader | OpWriteRows | OpFlush | OpClose | OpRename.

Inductive io_call : Type :=
| CallOpen (path : string)
| CallWriterow (path : string) (row : list string)
| CallWriterows (path : string) (rows : list (list string))
| CallFlush (path : string)
| CallClose (path : string)
| CallRename (src dst : string).

(** The world a call runs in: the files (path to rows of cells), the
    readings of [date.today()] and [datetime.now()] (microseconds), which
    calls raise, and the calls made so far, oldest first.  The calendar and
    the clock do not advance during one call of the writer's interface. *)
Record World : Type := mkWorld {
  fs : gmap string (list (list string));
  today : date;
  now : Z;
  faults : io_op -> bool;
  trace : list io_call
}.

Definition set_fs (f : gmap string (list (list string))) (w : World) : World :=
  mkWorld f (today w) (now w) (faults w) (trace w).

Definition record_call (c : io_call) (w : World) : World :=
  mkWorld (fs w) (today w) (now w) (faults w) (trace w ++ [c]).

(** The environment moves on between calls. *)
Definition set_clock (d : date) (t : Z) (w : World) : World :=
  mkWorld (fs w) d t (faults w) (trace w).

Definition set_faults (f : io_op -> bool) (w : World) : World :=
  mkWorld (fs w) (today w) (now w) f (trace w).

Definition is_writerows (c : io_call) : bool :=
  match c with
  | CallWriterows _ _ => true
  | _ => false
  end.

(** Number of buffer writes (flushes) made so far. *)
Definition flush_count (w : World) : nat := length (List.filter is_writerows (trace w)).

(** *** The writer *)

(** The attributes of a [CSVWriter].  An open file handle, and the csv
    writer wrapped around it, are represented by the path they write to; a
    buffered row is its list of formatted cells; times are microseconds. *)
Record CSVWriter : Type := mkWriter {
  output_dir : string;
  underlying : string;
  venue : string;
  flush_rows : Z;
  flush_interval_seconds : Q;
  _buffer : list (list string);
  _current_file : option string;
  _file_handle : option string;
  _csv_writer : option string;
  _start_date : option date;
  _last_flush_time : option Z;
  _rows_written : Z
}.

Definition upper_char (c : ascii) : ascii :=
  let n := nat_of_ascii c in
  if ((97 <=? n) && (n <=? 122))%nat then ascii_of_nat (n - 32) else c.

Fixpoint upper (s : string) : string :=
  match s with
  | EmptyString => EmptyString
  | String c rest => String (upper_char c) (upper rest)
  end.

(** [__init__]; [output_dir.mkdir] is taken to succeed. *)
Definition init (output_dir underlying venue : string) (flush_rows : Z)
    (flush_interval_seconds : Q) : CSVWriter :=
  mkWriter output_dir (upper underlying) venue flush_rows flush_interval_seconds
           [] None None None None None 0.

Definition set_buffer (b : list (list string)) (s : CSVWriter) : CSVWriter :=
  mkWriter (output_dir s) (underlying s) (venue s) (flush_rows s) (flush_interval_seconds s)
           b (_current_file s) (_file_handle s) (_csv_writer s) (_start_date s)
           (_last_flush_time s) (_rows_written s).

Definition set_current_file (f : option string) (s : CSVWriter) : CSVWriter :=
  mkWriter (output_dir s) (underlying s) (venue s) (flush_rows s) (flush_interval_seconds s)
           (_buffer s) f (_file_handle s) (_csv_writer s) (_start_date s)
           (_last_flush_time s) (_rows_written s).

Definition set_file_handle (h : option string) (s : CSVWriter) : CSVWriter :=
  mkWriter (output_dir s) (underlying s) (venue s) (flush_rows s) (flush_interval_seconds s)
           (_buffer s) (_current_file s) h (_csv_writer s) (_start_date s)
           (_last_flush_time s) (_rows_written s).

Definition set_csv_writer (h : option string) (s : CSVWriter) : CSVWriter :=
  mkWriter (output_dir s) (underlying s) (venue s) (flush_rows s) (flush_interval_seconds s)
           (_buffer s) (_current_file s) (_file_handle s) h (_start_date s)
           (_last_flush_time s) (_rows_written s).

Definition set_start_date (d : option date) (s : CSVWriter) : CSVWriter :=
  mkWriter (output_dir s) (underlying s) (venue s) (flush_rows s) (flush_interval_seconds s)
           (_buffer s) (_current_file s) (_file_handle s) (_csv_writer s) d
           (_last_flush_time s) (_rows_written s).

Definition set_last_flush_time (t : option Z) (s : CSVWriter) : CSVWriter :=
  mkWriter (output_dir s) (underlying s) (venue s) (flush_rows s) (flush_interval_seconds s)
           (_buffer s) (_current_file s) (_file_handle s) (_csv_writer s) (_start_date s)
           t (_rows_written s).

Definition set_rows_written (n : Z) (s : CSVWriter) : CSVWriter :=
  mkWriter (output_dir s) (underlying s) (venue s) (flush_rows s) (flush_interval_seconds s)
           (_buffer s) (_current_file s) (_file_handle s) (_csv_writer s) (_start_date s)
           (_last_flush_time s) n.

(** *** Methods as state transformers that may raise *)

Inductive exn : Type :=
| OSError (op : io_op)
| AttributeError.

Inductive outcome (A : Type) : Type :=
| Ok (a : A)
| Raised (e : exn).
Arguments Ok {A} a.
Arguments Raised {A} e.

Definition M (A : Type) : Type := World * CSVWriter -> (World * CSVWriter) * outcome A.

Definition ret {A : Type} (a : A) : M A := fun st => (st, Ok a).

Definition bind {A B : Type} (m : M A) (k : A -> M B) : M B :=
  fun st =>
    match m st with
    | (st', Ok a) => k a st'
    | (st', Raised e) => (st', Raised e)
    end.

Definition raise {A : Type} (e : exn) : M A := fun st => (st, Raised e).

(** [try: m  except Exception as e: h e]. *)
Definition try_except {A : Type} (m : M A) (h : exn -> M A) : M A :=
  fun st =>
    match m st with
    | (st', Ok a) => (st', Ok a)
    | (st', Raised e) => h e st'
    end.

(** [try: m  finally: f]. *)
Definition try_finally {A : Type} (m : M A) (f : M unit) : M A :=
  fun st =>
    match m st with
    | (st', r) =>
        match f st' with
        | (st'', Ok _) => (st'', r)
        | (st'', Raised e) => (st'', Raised e)
        end
    end.

Definition get_self : M CSVWriter := fun st => (st, Ok st.2).
Definition get_world : M World := fun st => (st, Ok st.1).
Definition modify_self (f : CSVWriter -> CSVWriter) : M unit :=
  fun st => ((st.1, f st.2), Ok tt).

Declare Scope writer_scope.
Delimit Scope writer_scope with writer.
Notation "x <- c1 ;; c2" := (bind c1 (fun x => c2))
  (at level 100, c1 at next level, right associativity) : writer_scope.
Notation "c1 ;; c2" := (bind c1 (fun _ => c2))
  (at level 100, right associativity) : writer_scope.
Open Scope writer_scope.

(** An I/O call: recorded, then it raises or takes effect on the files. *)
Definition io (op : io_op) (call : io_call)
    (effect : gmap string (list (list string)) -> gmap string (list (list string)))
  : M unit :=
  fun st =>
    let w := record_call call st.1 in
    if faults w op then ((w, st.2), Raised (OSError op))
    else ((set_fs (effect (fs w)) w, st.2), Ok tt).

(** [path.exists()]. *)
Definition path_exists (path : string) : M bool :=
  fun st => (st, Ok (bool_decide (is_Some (fs st.1 !! path)))).

(** [open(path, "a")] creates the file when it is missing. *)
Definition create_if_missing (path : string) (f : gmap string (list (list string)))
  : gmap string (list (list string)) :=
  match f !! path with
  | Some _ => f
  | None => <[path := []]> f
  end.

Definition append_rows (path : string) (rows : list (list string))
    (f : gmap string (list (list string))) : gmap string (list (list string)) :=
  alter (fun old => old ++ rows) path f.

(** [src.rename(dst)]. *)
Definition rename_file (src dst : string) (f : gmap string (list (list string)))
  : gmap string (list (list string)) :=
  match f !! src with
  | Some content => <[dst := content]> (delete src f)
  | None => f
  end.

(** [output_dir / filename]. *)
Definition path_join (dir filename : string) : string := dir +:+ "/" +:+ filename.

Definition _get_filename (self : CSVWriter) (start_date : date) (end_date : option date)
  : string :=
  let start_str := strftime_Ymd start_date in
  let end_str := strftime_Ymd (default start_date end_date) in
  underlying self +:+ "_" +:+ venue self +:+ "_OPTION_CHAIN_1S_"
    +:+ start_str +:+ "_" +:+ end_str +:+ ".csv".

Definition _close_file : M unit :=
  self <- get_self ;;
  match _file_handle self with
  | Some h =>
      try_finally
        (try_except
           (io OpFlush (CallFlush h) id ;; io OpClose (CallClose h) id)
           (fun _ => ret tt))
        (modify_self (set_file_handle None) ;; modify_self (set_csv_writer None))
  | None => ret tt
  end.

Definition _open_file (for_date : date) : M unit :=
  _close_file ;;
  modify_self (set_start_date (Some for_date)) ;;
  self <- get_self ;;
  let filename := _get_filename self for_date None in
  let path := path_join (output_dir self) filename in
  modify_self (set_current_file (Some path)) ;;
  (* Check if file exists to determine if we need header *)
  file_exists <- path_exists path ;;
  io OpOpen (CallOpen path) (create_if_missing path) ;;
  modify_self (set_file_handle (Some path)) ;;
  modify_self (set_csv_writer (Some path)) ;;
  (if negb file_exists
   then io OpWriteHeader (CallWriterow path COLUMNS) (append_rows path [COLUMNS])
   else ret tt) ;;
  w <- get_world ;;
  modify_self (set_last_flush_time (Some (now w))).

Definition _rename_with_end_date : M unit :=
  self <- get_self ;;
  match _current_file self, _start_date self with
  | Some current_file, Some start_date =>
      w <- get_world ;;
      let today := today w in
      if negb (date_eqb today start_date)
      then
        let new_filename := _get_filename self start_date (Some today) in
        let new_path := path_join (output_dir self) new_filename in
        try_except
          (_close_file ;;
           cur_exists <- path_exists current_file ;;
           new_exists <- path_exists new_path ;;
           if cur_exists && negb new_exists
           then
             io OpRename (CallRename current_file new_path)
                (rename_file current_file new_path) ;;
             modify_self (set_current_file (Some new_path))
           else ret tt)
          (fun _ => ret tt)
      else ret tt
  | _, _ => ret tt
  end.

Definition _check_rollover : M unit :=
  w <- get_world ;;
  let today := today w in
  self <- get_self ;;
  match _start_date self with
  | Some start_date =>
      if negb (date_eqb start_date today)
      then _rename_with_end_date ;; _open_file today
      else ret tt
  | None => ret tt
  end.

(** Flush buffer to disk. *)
Definition _do_flush : M unit :=
  self <- get_self ;;
  match _buffer self with
  | [] => ret tt
  | _ :: _ =>
      (* Check rollover *)
      _check_rollover ;;
      (* Ensure file is open *)
      self <- get_self ;;
      (match _csv_writer self with
       | None => w <- get_world ;; _open_file (today w)
       | Some _ => ret tt
       end) ;;
      (* Write buffer *)
      try_finally
        (try_except
           (self <- get_self ;;
            match _csv_writer self with
            | Some cw =>
                io OpWriteRows (CallWriterows cw (_buffer self)) (append_rows cw (_buffer self)) ;;
                match _file_handle self with
                | Some fh =>
                    io OpFlush (CallFlush fh) id ;;
                    modify_self
                      (set_rows_written (_rows_written self + Z.of_nat (length (_buffer self))))
                | None => raise AttributeError
                end
            | None => raise AttributeError
            end)
           (fun _ => ret tt))
        (modify_self (set_buffer []) ;;
         w <- get_world ;;
         modify_self (set_last_flush_time (Some (now w))))
  end.

Section Writing.
Context (py_str : pyval -> string).

Definition format_row (row : gmap string pyval) : list string :=
  map (fun col => format_csv_value py_str (dict_get row col)) COLUMNS.

Definition write_row (row : gmap string pyval) : M unit :=
  (* Format row values *)
  let formatted := format_row row in
  self <- get_self ;;
  modify_self (set_buffer (_buffer self ++ [formatted])) ;;
  (* Check if we should flush *)
  self <- get_self ;;
  if Z.of_nat (length (_buffer self)) >=? flush_rows self
  then _do_flush
  else ret tt.

Definition write_rows (rows : list (gmap string pyval)) : M unit :=
  let formatted_rows := map format_row rows in
  self <- get_self ;;
  modify_self (set_buffer (_buffer self ++ formatted_rows)) ;;
  self <- get_self ;;
  if Z.of_nat (length (_buffer self)) >=? flush_rows self
  then _do_flush
  else ret tt.

(** A caller writing the rows one after the other with [write_row]. *)
Fixpoint write_each (rows : list (gmap string pyval)) : M unit :=
  match rows with
  | [] => ret tt
  | row :: rest => write_row row ;; write_each rest
  end.

End Writing.

(** Force flush the buffer. *)
Definition flush : M unit := _do_flush.

(** Flush if enough time has passed since last flush. *)
Definition check_time_flush : M unit :=
  self <- get_self ;;
  match _last_flush_time self with
  | None => ret tt
  | Some last =>
      w <- get_world ;;
      let elapsed := (now w - last) # 1000000 in
      if Qle_bool (flush_interval_seconds self) elapsed
      then
        self <- get_self ;;
        match _buffer self with
        | [] => ret tt
        | _ :: _ => _do_flush
        end
      else ret tt
  end.

(** Close the writer and flush remaining data. *)
Definition close : M unit :=
  self <- get_self ;;
  (match _buffer self with
   | [] => ret tt
   | _ :: _ => _do_flush
   end) ;;
  _close_file.

(** *** Vocabulary for the properties *)

(** The path of the writer's file with the given START and END dates. *)
Definition file_for (self : CSVWriter) (start_date end_date : date) : string :=
  path_join (output_dir self) (_get_filename self start_date (Some end_date)).

(** The state [_open_file d] leaves: the file of [d] is the current file and
    the handle and the csv writer are open on it. *)
Definition opened_on (self : CSVWriter) (d : date) : Prop :=
  _start_date self = Some d /\
  _current_file self = Some (file_for self d d) /\
  _file_handle self = Some (file_for self d d) /\
  _csv_writer self = Some (file_for self d d).

(** No I/O call raises. *)
Definition healthy (w : World) : Prop := forall op, faults w op = false.

(** The world after further calls: new files, a longer trace, the same
    calendar, clock and fault plan. *)
Definition world_with (f : gmap string (list (list string))) (calls : list io_call)
    (w : World) : World :=
  mkWorld f (today w) (now w) (faults w) (trace w ++ calls).

(** Whether the rollover renames: the current file exists and the target
    name is free. *)
Definition renames (src dst : string) (f : gmap string (list (list string))) : bool :=
  bool_decide (is_Some (f !! src)) && negb (bool_decide (is_Some (f !! dst))).

(** The files after the rename step of a rollover. *)
Definition rollover_rename (src dst : string) (f : gmap string (list (list string)))
  : gmap string (list (list string)) :=
  if renames src dst f then rename_file src dst f else f.

(** The files after [_open_file]: the file exists, with the header row when
    it had to be created. *)
Definition open_append (path : string) (f : gmap string (list (list string)))
  : gmap string (list (list string)) :=
  if bool_decide (is_Some (f !! path)) then create_if_missing path f
  else append_rows path [COLUMNS] (create_if_missing path f).

(** The writer after [_open_file d] at time [t]. *)
Definition opened (path : string) (d : date) (t : Z) (s : CSVWriter) : CSVWriter :=
  set_last_flush_time (Some t)
    (set_csv_writer (Some path)
       (set_file_handle (Some path)
          (set_current_file (Some path) (set_start_date (Some d) s)))).

(** The handle and the csv writer are set and cleared together, and they
    are only set once a start date is recorded.  [init] establishes this and
    every method keeps it. *)
Definition wf (self : CSVWriter) : Prop :=
  _csv_writer self = _file_handle self /\
  (_start_date self = None -> _csv_writer self = None).

(** What the file-management helpers leave alone: the calendar, the clock,
    the fault plan, the number of flushes, the configuration, the buffer
    and the row counter. *)
Record frame (st st' : World * CSVWriter) : Prop := mkFrame {
  fr_today : today st'.1 = today st.1;
  fr_now : now st'.1 = now st.1;
  fr_faults : faults st'.1 = faults st.1;
  fr_flushes : flush_count st'.1 = flush_count st.1;
  fr_output_dir : output_dir st'.2 = output_dir st.2;
  fr_underlying : underlying st'.2 = underlying st.2;
  fr_venue : venue st'.2 = venue st.2;
  fr_flush_rows : flush_rows st'.2 = flush_rows st.2;
  fr_interval : flush_interval_seconds st'.2 = flush_interval_seconds st.2;
  fr_buffer : _buffer st'.2 = _buffer st.2;
  fr_rows_written : _rows_written st'.2 = _rows_written st.2
}.

End CsvWriter.

(** ** The end-to-end scenario of the specification *)

Module Scenario.

Import SnapshotBuilder OptionUniverse.

Definition expiry_date : date := mkDate 2024 1 25.

Definition nifty_24000_ce : InstrumentRow :=
  mkInstrumentRow 111 "NIFTY24JAN24000CE" expiry_date 24000 "CE" (Some (VNum (NInt 50))).

Definition nifty_24000_pe : InstrumentRow :=
  mkInstrumentRow 222 "NIFTY24JAN24000PE" expiry_date 24000 "PE" (Some (VNum (NInt 50))).

Definition spot_prices : gmap string pynum := {[ "NIFTY" := NInt 24010 ]}.

Definition selector : OptionUniverse :=
  mkUniverse
    (fun u e => if String.eqb u "NIFTY" && date_eqb e expiry_date
                then [nifty_24000_ce; nifty_24000_pe] else [])
    (fun _ => [expiry_date])
    ["NIFTY"] 2500 [] ∅ ∅.

Definition universe : list (Z * gmap string pyval) :=
  get_universe (build_universe selector (Some spot_prices)).

Definition tick_111 : Tick :=
  mkTick {[ "last_price" := VNum (NFloat (241 # 2)) ]}
         (Some {[ "buy" := [ ({[ "price" := NInt 150; "quantity" := NInt 100 ]} : level) ];
                  "sell" := [ ({[ "price" := NInt 0; "quantity" := NInt 0 ]} : level) ] ]}).

Definition tick_cache : gmap Z Tick := {[ 111 := tick_111 ]}.

(** The floats [0.1] and [0.2], and a tick that bids the one and asks the
    other. *)
Definition tenth : Q := 3602879701896397 # 36028797018963968.
Definition fifth : Q := 3602879701896397 # 18014398509481984.

Definition tick_tenth_fifth : Tick :=
  mkTick ∅
         (Some {[ "buy" := [ ({[ "price" := NFloat tenth; "quantity" := NInt 50 ]} : level) ];
                  "sell" := [ ({[ "price" := NFloat fifth; "quantity" := NInt 50 ]} : level) ] ]}).

(** Asia/Kolkata: a fixed offset of five and a half hours. *)
Definition kolkata : timezone := mkTz (fun _ => 19800000000) (fun _ => 19800000000).

Definition builder : SnapshotBuilder :=
  set_spot_price (mkBuilder "NSE-FO" kolkata ∅) "NIFTY" (NInt 24010).

Definition clock0 : Clock := mkClock (fun n => 1706153400000000 + Z.of_nat n) 0.

Definition rows : list (gmap string pyval) :=
  (build_snapshot builder tick_cache universe None clock0).1.

(** The row of [tick_tenth_fifth]. *)
Definition row_tenth_fifth : gmap string pyval :=
  (build_row builder tick_tenth_fifth ∅ None clock0).1.

Definition row_111 : gmap string pyval := default ∅ (rows !! 0%nat).
Definition row_222 : gmap string pyval := default ∅ (rows !! 1%nat).

(** The price and size columns of the schema. *)
Definition price_size_columns : list string :=
  [ "best_bid_px"; "best_bid_sz"; "best_ask_px"; "best_ask_sz";
    "mid_px"; "spread"; "last_trade_px"; "last_trade_sz";
    "bid_px_1"; "bid_sz_1"; "bid_px_2"; "bid_sz_2"; "bid_px_3"; "bid_sz_3";
    "ask_px_1"; "ask_sz_1"; "ask_px_2"; "ask_sz_2"; "ask_px_3"; "ask_sz_3" ].

Definition price_size_columns_but_last_size : list string :=
  List.filter (fun col => negb (String.eqb col "last_trade_sz")) price_size_columns.

Definition metadata_columns : list string :=
  [ "ts"; "venue"; "underlying_symbol"; "underlying_spot"; "instrument_id";
    "option_symbol"; "expiry_date"; "strike"; "option_type" ].

Definition all_null (cols : list string) (row : gmap string pyval) : bool :=
  forallb (fun col => is_none (dict_get row col)) cols.

Definition none_null (cols : list string) (row : gmap string pyval) : bool :=
  forallb (fun col => negb (is_none (dict_get row col))) cols.

End Scenario.

(** ** Runs of a writer used as examples *)

Module WriterScenario.

Import SnapshotBuilder CsvWriter.

(** A stand-in for the builtin [str]: decimal for ints, the text itself for
    strings, numerator/denominator for floats. *)
Definition demo_str (v : pyval) : string :=
  match v with
  | VNone => "None"
  | VNum (NInt n) => pretty n
  | VNum (NFloat q) => pretty (Qnum q) +:+ "/" +:+ pretty (Zpos (Qden q))
  | VStr s => s
  | VDatetime d => pretty (dt_wall d)
  end.

Definition day1 : date := mkDate 2024 1 15.
Definition day2 : date := mkDate 2024 1 16.

(** An empty output directory on [day1]; no call raises. *)
Definition world0 : World := mkWorld ∅ day1 0 (fun _ => false) [].

Definition writer0 : CSVWriter := init "out" "nifty" "NSEFO" 500 1.

(** A writer that flushes every second row. *)
Definition small_writer : CSVWriter := init "out" "nifty" "NSEFO" 2 1.

Definition row_a : gmap string pyval := Scenario.row_111.
Definition row_b : gmap string pyval := Scenario.row_222.

(** [writer0] writes [row_a] and is flushed on [day1]: its file is open. *)
Definition opened_state : World * CSVWriter :=
  (bind (write_row demo_str row_a) (fun _ => flush) (world0, writer0)).1.

(** Half a second later [row_b] is written and stays in the buffer. *)
Definition buffered_state : World * CSVWriter :=
  (write_row demo_str row_b (set_clock day1 500000 opened_state.1, opened_state.2)).1.

(** The next flush happens on [day2]. *)
Definition rolled_state : World * CSVWriter :=
  (flush (set_clock day2 86400500000 buffered_state.1, buffered_state.2)).1.

Definition file_day1_day1 : string := "out/NIFTY_NSEFO_OPTION_CHAIN_1S_20240115_20240115.csv".
Definition file_day1_day2 : string := "out/NIFTY_NSEFO_OPTION_CHAIN_1S_20240115_20240116.csv".
Definition file_day2_day2 : string := "out/NIFTY_NSEFO_OPTION_CHAIN_1S_20240116_20240116.csv".

(** A new writer gets one row, and an hour later the time check runs. *)
Definition fresh_buffered : World * CSVWriter :=
  (write_row demo_str row_a (world0, writer0)).1.

Definition fresh_checked : World * CSVWriter :=
  (check_time_flush (set_clock day1 3600000000 fresh_buffered.1, fresh_buffered.2)).1.

(** The header write raises. *)
Definition header_fails (op : io_op) : bool :=
  match op with
  | OpWriteHeader => true
  | _ => false
  end.

(** [open] raises. *)
Definition open_fails (op : io_op) : bool :=
  match op with
  | OpOpen => true
  | _ => false
  end.

(** The disk is full: the buffer write raises. *)
Definition disk_full (op : io_op) : bool :=
  match op with
  | OpWriteRows => true
  | _ => false
  end.

End WriterScenario.

(** ** A session of one writer *)

Module WriterSession.

Import SnapshotBuilder CsvWriter.

(** What a caller does with a writer between its creation and [close]; in
    between the clock may move on within the day. *)
Inductive call : Type :=
| WriteRow (row : gmap string pyval)
| WriteRows (rows : list (gmap string pyval))
| Flush
| CheckTimeFlush
| Wait (t : Z).

Section Session.
Context (py_str : pyval -> string).

Definition run_call (c : call) : M unit :=
  match c with
  | WriteRow row => write_row py_str row
  | WriteRows rows => write_rows py_str rows
  | Flush => flush
  | CheckTimeFlush => check_time_flush
  | Wait t => fun st => ((set_clock (today st.1) t st.1, st.2), Ok tt)
  end.

Fixpoint run_calls (cs : list call) : M unit :=
  match cs with
  | [] => ret tt
  | c :: cs => run_call c ;; run_calls cs
  end.

(** A whole session: the calls, then [close]. *)
Definition session (cs : list call) : M unit := run_calls cs ;; close.

End Session.

(** The rows handed to the writer, in the order of the calls. *)
Definition rows_given (cs : list call) : list (gmap string pyval) :=
  cs ≫= fun c =>
    match c with
    | WriteRow row => [row]
    | WriteRows rows => rows
    | _ => []
    end.

(** The errors of opening a file: [open] and the header write. *)
Definition open_error (e : exn) : Prop := e = OSError OpOpen \/ e = OSError OpWriteHeader.

(** The state of a writer created as [s0] in the world [w0], after it was
    given the formatted rows [given] on the day of [w0] with no call
    raising.  Some of the rows have been flushed, the rest are buffered;
    until the first flush the writer has no file, afterwards the file of
    the day holds what it held (or the header) followed by the flushed
    rows. *)
Definition in_session (w0 : World) (s0 : CSVWriter) (given : list (list string))
    (st : World * CSVWriter) : Prop :=
  let path := file_for s0 (today w0) (today w0) in
  healthy st.1 /\ today st.1 = today w0 /\
  output_dir st.2 = output_dir s0 /\ underlying st.2 = underlying s0 /\
  venue st.2 = venue s0 /\
  (forall q, q <> path -> fs st.1 !! q = fs w0 !! q) /\
  exists flushed,
    flushed ++ _buffer st.2 = given /\
    _rows_written st.2 = Z.of_nat (length flushed) /\
    ((flushed = [] /\ _start_date st.2 = None /\ _csv_writer st.2 = None /\
      _file_handle st.2 = None /\ fs st.1 !! path = fs w0 !! path)
     \/ (flushed <> [] /\ _start_date st.2 = Some (today w0) /\
         _csv_writer st.2 = Some path /\ _file_handle st.2 = Some path /\
         fs st.1 !! path = Some (default [COLUMNS] (fs w0 !! path) ++ flushed))).

(** A writer that flushes every second row, holding one row. *)
Definition fresh_small : World * CSVWriter :=
  (write_row WriterScenario.demo_str WriterScenario.row_a
     (WriterScenario.world0, WriterScenario.small_writer)).1.

End WriterSession.

(** ** csv_writer.py: MultiCSVWriter *)

Module MultiCsvWriter.

Import SnapshotBuilder CsvWriter.

(** A dict with [str] keys whose iteration order is observed. *)
Fixpoint sdict_get {V : Type} (d : list (string * V)) (k : string) : option V :=
  match d with
  | [] => None
  | (k', v) :: rest => if String.eqb k' k then Some v else sdict_get rest k
  end.

(** [d[k] = v]: an existing key keeps its position, a new key goes last. *)
Fixpoint sdict_set {V : Type} (d : list (string * V)) (k : string) (v : V)
  : list (string * V) :=
  match d with
  | [] => [(k, v)]
  | (k', v') :: rest =>
      if String.eqb k' k then (k', v) :: rest else (k', v') :: sdict_set rest k v
  end.

(** [self._writers]: underlying to writer. *)
Abbreviation writers := (list (string * CSVWriter)).

(** [__init__]: one writer per underlying, keyed by the upper-cased name. *)
Definition init_multi (output_dir : string) (underlyings : list string) (venue : string)
    (flush_rows : Z) (flush_interval_seconds : Q) : writers :=
  foldl (fun ws underlying =>
           sdict_set ws (upper underlying)
             (init output_dir underlying venue flush_rows flush_interval_seconds))
        [] underlyings.

(** Methods of the multi-writer: the world and all the writers. *)
Definition MM (A : Type) : Type := World * writers -> (World * writers) * outcome A.

(** A method of the writer stored under [k] is run; the writer is an object
    held by the dict and is updated in place. *)
Definition on_writer (k : string) (m : M unit) : MM unit :=
  fun st =>
    match sdict_get st.2 k with
    | Some writer =>
        let '((w', writer'), r) := m (st.1, writer) in
        ((w', sdict_set st.2 k writer'), r)
    | None => (st, Ok tt)
    end.

(** [for x in xs: body x]; an exception leaves the loop. *)
Fixpoint for_each {X : Type} (xs : list X) (body : X -> MM unit) : MM unit :=
  match xs with
  | [] => fun st => (st, Ok tt)
  | x :: rest =>
      fun st =>
        match body x st with
        | (st', Ok _) => for_each rest body st'
        | (st', Raised e) => (st', Raised e)
        end
  end.

(** [row.get("underlying_symbol", "").upper()]; [None] when the value has
    no [upper], which raises [AttributeError]. *)
Definition row_underlying (row : gmap string pyval) : option string :=
  match dict_get_default row "underlying_symbol" (VStr "") with
  | VStr s => Some (upper s)
  | _ => None
  end.

(** The grouping loop of [write_rows]. *)
Fixpoint group_rows (rows : list (gmap string pyval))
    (by_underlying : list (string * list (gmap string pyval)))
  : option (list (string * list (gmap string pyval))) :=
  match rows with
  | [] => Some by_underlying
  | row :: rest =>
      match row_underlying row with
      | Some underlying =>
          let by_underlying :=
            match sdict_get by_underlying underlying with
            | None => sdict_set by_underlying underlying []
            | Some _ => by_underlying
            end in
          group_rows rest
            (sdict_set by_underlying underlying
               (default [] (sdict_get by_underlying underlying) ++ [row]))
      | None => None
      end
  end.

Section Writing.
Context (py_str : pyval -> string).

(** Write a row to the appropriate underlying's file. *)
Definition write_row (row : gmap string pyval) : MM unit :=
  fun st =>
    match row_underlying row with
    | Some underlying => on_writer underlying (CsvWriter.write_row py_str row) st
    | None => (st, Raised AttributeError)
    end.

(** Write multiple rows, routing to appropriate files. *)
Definition write_rows (rows : list (gmap string pyval)) : MM unit :=
  fun st =>
    (* Group by underlying *)
    match group_rows rows [] with
    | Some by_underlying =>
        (* Write to each *)
        for_each by_underlying
          (fun '(underlying, underlying_rows) =>
             on_writer underlying (CsvWriter.write_rows py_str underlying_rows))
          st
    | None => (st, Raised AttributeError)
    end.

End Writing.

(** [for writer in self._writers.values(): writer.method()]. *)
Definition each_writer (m : M unit) : MM unit :=
  fun st => for_each (st.2).*1 (fun k => on_writer k m) st.

Definition flush : MM unit := each_writer CsvWriter.flush.
Definition check_time_flush : MM unit := each_writer CsvWriter.check_time_flush.
Definition close : MM unit := each_writer CsvWriter.close.

(** The rows of a batch that belong to [underlying], in their order. *)
Definition rows_for (underlying : string) (rows : list (gmap string pyval))
  : list (gmap string pyval) :=
  filter (fun row => row_underlying row = Some underlying) rows.

(** The writers of the output directory used in the examples. *)
Definition two_writers : writers := init_multi "out" ["nifty"; "BankNifty"; "NIFTY"] "NSEFO" 500 1.

Definition row_of (underlying : pyval) : gmap string pyval :=
  {[ "underlying_symbol" := underlying; "strike" := VNum (NInt 24000) ]}.

End MultiCsvWriter.

(** ** ticker_stream.py: the tick caches *)

Module TickCache.

Import SnapshotBuilder.

(** [tick.get("instrument_token")] as KiteTicker delivers it: an [int], or
    missing.  A token of another type is not modelled; [kite_tick] is the
    domain of the model. *)
Definition tick_token (tick : Tick) : option Z :=
  match dict_get (tick_fields tick) "instrument_token" with
  | VNum (NInt token) => Some token
  | _ => None
  end.

Definition kite_tick (tick : Tick) : Prop :=
  match dict_get (tick_fields tick) "instrument_token" with
  | VNone | VNum (NInt _) => True
  | _ => False
  end.

(** [self._stats]. *)
Record Stats : Type := mkStats {
  ticks_received : Z;
  reconnect_count : Z;
  errors : Z;
  last_tick_time : option Z
}.

(** The part of a [TickerStream] its handlers touch. *)
Record TickerCache : Type := mkCache {
  _latest_ticks : gmap Z Tick;
  _stats : Stats
}.

(** [__init__]. *)
Definition new_cache : TickerCache := mkCache ∅ (mkStats 0 0 0 None).

(** Body of [for tick in ticks] in [_handle_ticks]. *)
Definition handle_tick (self : TickerCache) (tick : Tick) : TickerCache :=
  match tick_token tick with
  | Some token =>
      mkCache (<[token := tick]> (_latest_ticks self))
              (mkStats (ticks_received (_stats self) + 1) (reconnect_count (_stats self))
                       (errors (_stats self)) (last_tick_time (_stats self)))
  | None => self
  end.

(** [_handle_ticks] up to the user callback; [now] is the reading of
    [datetime.now()]. *)
Definition _handle_ticks (self : TickerCache) (ticks : list Tick) (now : Z) : TickerCache :=
  match ticks with
  | [] => self
  | _ :: _ =>
      let self := foldl handle_tick self ticks in
      mkCache (_latest_ticks self)
              (mkStats (ticks_received (_stats self)) (reconnect_count (_stats self))
                       (errors (_stats self)) (Some now))
  end.

Definition _handle_error (self : TickerCache) : TickerCache :=
  mkCache (_latest_ticks self)
          (mkStats (ticks_received (_stats self)) (reconnect_count (_stats self))
                   (errors (_stats self) + 1) (last_tick_time (_stats self))).

Definition _handle_reconnect (self : TickerCache) : TickerCache :=
  mkCache (_latest_ticks self)
          (mkStats (ticks_received (_stats self)) (reconnect_count (_stats self) + 1)
                   (errors (_stats self)) (last_tick_time (_stats self))).

Definition get_latest_tick (self : TickerCache) (token : Z) : option Tick :=
  _latest_ticks self !! token.

Definition get_all_latest_ticks (self : TickerCache) : gmap Z Tick := _latest_ticks self.

Definition clear_ticks (self : TickerCache) : TickerCache := mkCache ∅ (_stats self).

(** A [MultiTickerStream]: the caches of its streams and [_combined_ticks]. *)
Record MultiCache : Type := mkMultiCache {
  _stream_caches : list TickerCache;
  _combined_ticks : gmap Z Tick
}.

Definition new_multi_cache (streams : nat) : MultiCache :=
  mkMultiCache (replicate streams new_cache) ∅.

Definition store_tick (cache : gmap Z Tick) (tick : Tick) : gmap Z Tick :=
  match tick_token tick with
  | Some token => <[token := tick]> cache
  | None => cache
  end.

(** [_handle_combined_ticks] up to the user callback. *)
Definition _handle_combined_ticks (self : MultiCache) (ticks : list Tick) : MultiCache :=
  mkMultiCache (_stream_caches self) (foldl store_tick (_combined_ticks self) ticks).

(** A batch of ticks arrives on stream [i]: the stream's [_handle_ticks]
    runs, and its tick callback, which [MultiTickerStream.set_tokens] set to
    [_handle_combined_ticks], runs when the batch is not empty. *)
Definition deliver (self : MultiCache) (i : nat) (ticks : list Tick) (now : Z) : MultiCache :=
  let self :=
    mkMultiCache (alter (fun stream => _handle_ticks stream ticks now) i (_stream_caches self))
                 (_combined_ticks self) in
  match ticks with
  | [] => self
  | _ :: _ => _handle_combined_ticks self ticks
  end.

(** The batches that arrived, oldest first: stream index, ticks, time. *)
Definition deliveries (self : MultiCache) (batches : list (nat * list Tick * Z)) : MultiCache :=
  foldl (fun m '(i, ticks, now) => deliver m i ticks now) self batches.

Definition multi_get_latest_tick (self : MultiCache) (token : Z) : option Tick :=
  _combined_ticks self !! token.

(** [MultiTickerStream.get_stats]: the ticks received by all streams. *)
Definition total_ticks_received (self : MultiCache) : Z :=
  foldl (fun total stream => total + ticks_received (_stats stream)) 0 (_stream_caches self).

(** The ticks of a batch that carry [token], and those that carry any. *)
Definition ticks_of (token : Z) (ticks : list Tick) : list Tick :=
  filter (fun tick => tick_token tick = Some token) ticks.

Definition with_token (ticks : list Tick) : list Tick :=
  filter (fun tick => is_Some (tick_token tick)) ticks.

(** Example ticks. *)
Definition tick_at (token : Z) (price : Z) : Tick :=
  mkTick {[ "instrument_token" := VNum (NInt token); "last_price" := VNum (NInt price) ]} None.

Definition tick_without_token : Tick := mkTick {[ "last_price" := VNum (NInt 7) ]} None.

End TickCache.

(** ** run_option_chain.py: the choice of the ticker in [setup] *)

Module Streamer.

Import TickerStream.

(** [self.ticker]. *)
Inductive Ticker : Type :=
| Single (stream : TickerStream)
| Multi (streams : MultiTickerStream).

(** The ticker [setup] configures for the tokens of the universe. *)
Definition setup_ticker (tokens : list Z) : Ticker :=
  if (3000 <? length tokens)%nat
  then
    (* Use multi-stream for large token sets *)
    Multi (set_tokens (mkMulti [] ∅) tokens)
  else Single (stream_set_tokens new_stream tokens).

(** What one connection subscribes to in [_handle_connect]: nothing when
    it has no tokens, else the list of [_do_subscribe]. *)
Definition connect_subscription (stream : TickerStream) : list (list Z) :=
  match _subscribed_tokens stream with
  | [] => []
  | _ :: _ => [subscription stream]
  end.

(** [TickerStream.start(threaded)]: a running stream returns at once;
    otherwise the ticker is created, the stream is marked running and
    [connect] is called.  The flag tells whether [connect] was called. *)
Definition stream_start (self : TickerStream) : TickerStream * bool :=
  if _running self then (self, false)
  else (mkStream (_subscribed_tokens self) true, true).

(** The call [self.ticker.start(threaded=True)] of [run].
    [MultiTickerStream.start(self)] has no parameter [threaded]: the call
    raises [TypeError] when its arguments are bound, before the body runs,
    and [run] has no handler around it. *)
Inductive start_outcome : Type :=
| Started (ticker : Ticker) (connecting : list TickerStream)
| RaisedTypeError (ticker : Ticker).

Definition start_threaded (ticker : Ticker) : start_outcome :=
  match ticker with
  | Single stream =>
      let '(stream, connect_called) := stream_start stream in
      Started (Single stream) (if connect_called then [stream] else [])
  | Multi streams => RaisedTypeError (Multi streams)
  end.

(** The [subscribe] calls that follow the start of the ticker in [run],
    once the connections it asked for are up. *)
Definition run_subscriptions (ticker : Ticker) : list (list Z) :=
  match start_threaded ticker with
  | Started _ connecting => connecting ≫= connect_subscription
  | RaisedTypeError _ => []
  end.

(** The tokens [0], [1], ..., [n - 1]. *)
Definition first_tokens (n : nat) : list Z := Z.of_nat <$> seq 0 n.

End Streamer.

(** ** run_option_chain.py: spot prices and snapshots *)

Module OptionChainStreamer.

Import SnapshotBuilder CsvWriter MultiCsvWriter.

(** Map underlying to index instrument *)
Definition index_map (underlying : string) : option string :=
  if String.eqb underlying "NIFTY" then Some "NSE:NIFTY 50"
  else if String.eqb underlying "BANKNIFTY" then Some "NSE:NIFTY BANK"
  else if String.eqb underlying "FINNIFTY" then Some "NSE:NIFTY FIN SERVICE"
  else None.

(** Body of [for underlying in underlyings] in [_fetch_spot_prices]. *)
Definition add_spot (quotes : gmap string (gmap string pynum))
    (spot_prices : gmap string pynum) (underlying : string) : gmap string pynum :=
  match index_map underlying with
  | Some key =>
      match quotes !! key with
      | Some q => <[underlying := default (NInt 0) (q !! "last_price")]> spot_prices
      | None => spot_prices
      end
  | None => spot_prices
  end.

(** [_fetch_spot_prices]; [quote] is [kite.quote], which answers with a
    dict from instrument to quote or raises ([None]). *)
Definition _fetch_spot_prices
    (quote : list string -> option (gmap string (gmap string pynum)))
    (underlyings : list string) : gmap string pynum :=
  let instruments := omap index_map underlyings in
  let instruments := List.filter (fun i => negb (String.eqb i "")) instruments in
  match instruments with
  | [] => ∅
  | _ :: _ =>
      match quote instruments with
      | Some quotes => foldl (add_spot quotes) ∅ underlyings
      | None => ∅
      end
  end.

(** [self._stats]. *)
Record StreamerStats : Type := mkStreamerStats {
  snapshots_taken : Z;
  rows_written : Z;
  last_snapshot_time : option Z
}.

(** What [_take_snapshot] works on once [setup] has run: the builder, the
    clock its timestamps are read from, the statistics, and the world and
    the writers of the [MultiCSVWriter]. *)
Record Streamer : Type := mkStreamer {
  builder : SnapshotBuilder;
  builder_clock : Clock;
  stats : StreamerStats;
  world : World;
  writer : writers
}.

Section Snapshot.
Context (py_str : pyval -> string).

(** [_take_snapshot] for the tick cache [ticks] (what
    [get_all_latest_ticks] returns) and the universe [universe]. *)
Definition _take_snapshot (ticks : gmap Z Tick) (universe : list (Z * gmap string pyval))
    (self : Streamer) : Streamer * outcome unit :=
  if decide (ticks = ∅)
  then (self, Ok tt)
  else
    (* Build snapshot rows *)
    let '(rows, clk) := build_snapshot (builder self) ticks universe None (builder_clock self) in
    (* Write to CSV *)
    match MultiCsvWriter.write_rows py_str rows (world self, writer self) with
    | ((w, ws), Ok _) =>
        (mkStreamer (builder self) clk
           (mkStreamerStats (snapshots_taken (stats self) + 1)
                            (rows_written (stats self) + Z.of_nat (length rows))
                            (Some (now w)))
           w ws, Ok tt)
    | ((w, ws), Raised e) =>
        (mkStreamer (builder self) clk (stats self) w ws, Raised e)
    end.

End Snapshot.

(** A quote service that knows the index NIFTY 50 only. *)
Definition nifty_quote (instruments : list string)
  : option (gmap string (gmap string pynum)) :=
  Some {[ "NSE:NIFTY 50" := {[ "last_price" := NFloat (48021 # 2) ]} ]}.

End OptionChainStreamer.

(** ** option_universe.py: what a universe holds *)

Module UniverseContents.

Import OptionUniverse.

(** The centre of the strike band of an underlying: its spot price, and
    the wide-band default when it has none. *)
Definition effective_spot (spots : gmap string pynum) (underlying : string) : Q :=
  match spots !! underlying with
  | None => if String.eqb underlying "NIFTY" then 25000%Q else 50000%Q
  | Some spot => num_val spot
  end.

(** The instrument rows a universe is built from: for a configured
    underlying and one of its selected expiries, a row of the filtered
    instrument master whose strike is in the band. *)
Definition selected (self : OptionUniverse) (spots : gmap string pynum)
    (underlying : string) (row : InstrumentRow) : Prop :=
  underlying ∈ underlyings self /\
  exists expiry,
    expiry ∈ _select_expiries self underlying /\
    row ∈ filter_options self underlying expiry /\
    in_strike_band (effective_spot spots underlying) (max_strike_distance self) row = true.

(** What the loops of [build_universe] keep true of the universe under
    construction: distinct tokens, and only metadata of selected rows. *)
Definition built (self : OptionUniverse) (universe : list (Z * gmap string pyval)) : Prop :=
  NoDup universe.*1 /\
  forall item, item ∈ universe ->
    exists underlying row, selected self (_spot_prices self) underlying row /\
                           item = contract_meta underlying row.

(** The spot prices after [self._spot_prices.update(spot_prices)]. *)
Definition with_spots (self : OptionUniverse) (spot_prices : option (gmap string pynum))
  : gmap string pynum :=
  match spot_prices with
  | Some sp => sp ∪ _spot_prices self
  | None => _spot_prices self
  end.


End UniverseContents.

(** ** instruments.py: expiries of the instrument master *)

Module Instruments.

(** [a <= b] on dates. *)
Definition date_leb (a b : date) : bool :=
  (year a <? year b)
  || ((year a =? year b)
      && ((month a <? month b) || ((month a =? month b) && (day a <=? day b)))).

Definition date_le (a b : date) : Prop := date_leb a b = true.

#[export] Instance date_le_dec (a b : date) : Decision (date_le a b).
Proof. unfold date_le. apply _. Defined.

#[export] Instance date_eq_dec : EqDecision date.
Proof. solve_decision. Defined.

(** A row of the instruments frame, with the columns the filters read. *)
Record Instrument : Type := mkInstrument {
  instrument_token : Z;
  tradingsymbol : string;
  name : string;
  expiry : date;
  strike : Q;
  instrument_type : string
}.

(** [x in xs] on strings. *)
Definition isin (x : string) (xs : list string) : bool :=
  existsb (String.eqb x) xs.

(** [filter_options]: the mask, and the rows it keeps in frame order. *)
Definition option_mask (underlying : string) (expiry_filter : option date)
    (option_types : list string) (row : Instrument) : bool :=
  (* Filter for options (CE or PE) *)
  isin (instrument_type row) ["CE"; "PE"]
  (* Filter by underlying name *)
  && String.eqb (name row) underlying
  && match expiry_filter with
     | Some e => date_eqb (expiry row) e
     | None => true
     end
  && match option_types with
     | [] => true
     | _ :: _ => isin (instrument_type row) option_types
     end.

Definition filter_options (df : list Instrument) (underlying : string)
    (expiry_filter : option date) (option_types : list string) : list Instrument :=
  List.filter (option_mask underlying expiry_filter option_types) df.

(** [Series.unique()]: the values in order of first appearance. *)
Definition unique {A : Type} `{EqDecision A} (l : list A) : list A :=
  foldl (fun seen x => if decide (x ∈ seen) then seen else seen ++ [x]) [] l.

(** [get_unique_expiries]; the builtin [sorted] is a merge sort. *)
Definition get_unique_expiries (df : list Instrument) (underlying : string) : list date :=
  let df := filter_options df underlying None [] in
  match df with
  | [] => []
  | _ :: _ =>
      let expiries := unique (expiry <$> df) in
      merge_sort date_le expiries
  end.

(** [get_nearest_expiry] with the reference date resolved ([after_date or
    date.today()]). *)
Fixpoint first_from (reference : date) (expiries : list date) : option date :=
  match expiries with
  | [] => None
  | exp :: rest => if date_leb reference exp then Some exp else first_from reference rest
  end.

Definition get_nearest_expiry (df : list Instrument) (underlying : string)
    (reference : date) : option date :=
  let expiries := get_unique_expiries df underlying in
  first_from reference expiries.

End Instruments.

(** ** option_universe.py: the selection of expiries *)

Module ExpirySelection.

Import Instruments.

(** Body of the loop of the mode ["monthly"]: the list [monthly] and the
    set [seen_months]. *)
Definition monthly_step (acc : list date * list (Z * Z)) (exp : date)
  : list date * list (Z * Z) :=
  let '(monthly, seen_months) := acc in
  let key := (year exp, month exp) in
  if decide (key ∈ seen_months) then acc
  else
    (* Monthly expiries are typically the last Thursday *)
    if 22 <=? day exp then (monthly ++ [exp], seen_months ++ [key])
    else acc.

(** Body of the loop of the mode ["explicit_list"]; [strptime] parses
    ["%Y-%m-%d"] and is [None] where it raises [ValueError]. *)
Definition explicit_step (strptime : string -> option date) (valid_expiries : list date)
    (explicit_dates : list date) (exp_str : string) : list date :=
  match strptime exp_str with
  | Some exp_date =>
      if decide (exp_date ∈ valid_expiries) then explicit_dates ++ [exp_date]
      else explicit_dates
  | None => explicit_dates
  end.

(** [_select_expiries] for the expiries [all_expiries] of the underlying (the
    loader's [get_unique_expiries]) on the day [today]. *)
Definition _select_expiries (expiries_mode : string) (expiry_list : list string)
    (strptime : string -> option date) (all_expiries : list date) (today : date)
  : list date :=
  (* Filter to valid (future) expiries *)
  let valid_expiries := List.filter (date_leb today) all_expiries in
  match valid_expiries with
  | [] => []
  | _ :: _ =>
      if String.eqb expiries_mode "nearest" then take 1 valid_expiries
      else if String.eqb expiries_mode "weekly" then take 4 valid_expiries
      else if String.eqb expiries_mode "monthly" then
        take 3 (foldl monthly_step ([], []) valid_expiries).1
      else if String.eqb expiries_mode "explicit_list" then
        foldl (explicit_step strptime valid_expiries) [] expiry_list
      else take 1 valid_expiries
  end.

(** An instrument master with three NIFTY expiries, not in date order, and
    a future. *)
Definition option_at (token : Z) (e : date) (type : string) : Instrument :=
  mkInstrument token "NIFTY" "NIFTY" e 24000 type.

Definition demo_frame : list Instrument :=
  [ option_at 1 (mkDate 2024 2 29) "CE"; option_at 2 (mkDate 2024 1 25) "CE";
    option_at 3 (mkDate 2024 1 25) "PE"; option_at 4 (mkDate 2024 1 18) "PE";
    option_at 5 (mkDate 2024 1 11) "FUT" ].

End ExpirySelection.

(** ** auth.py: the access token *)

Module KiteAuth.

(** What [json.load] finds in the token file: no file, text that is not
    JSON, a JSON object, or another JSON value. *)
Inductive token_file : Type :=
| NoFile
| NotJson
| JsonObject (data : gmap string pyval)
| JsonOther.

(** The environment of a [KiteAuth]: the token file, the calendar and the
    clock ([datetime.now().isoformat()]), the variable [KITE_ACCESS_TOKEN],
    the token set on the Kite client, and whether [kite.profile()]
    answers. *)
Record Env : Type := mkEnv {
  file : token_file;
  today : date;
  timestamp : string;
  env_token : option string;
  kite_token : pyval;
  profile_answers : bool
}.

Definition set_file (f : token_file) (e : Env) : Env :=
  mkEnv f (today e) (timestamp e) (env_token e) (kite_token e) (profile_answers e).

Definition set_kite_token (t : pyval) (e : Env) : Env :=
  mkEnv (file e) (today e) (timestamp e) (env_token e) t (profile_answers e).

(** A later moment: another day, another process environment. *)
Definition later (d : date) (ts : string) (env : option string) (e : Env) : Env :=
  mkEnv (file e) d ts env (kite_token e) (profile_answers e).

(** [date.isoformat()]. *)
Definition isoformat (d : date) : string := strftime_Y_m_d d.

(** The state is the environment and [self._access_token]. *)
Definition State : Type := Env * pyval.

(** A call returns, or raises the [AttributeError] that no handler of the
    module catches. *)
Inductive result (A : Type) : Type :=
| Returns (a : A) (st : State)
| Raises (st : State).
Arguments Returns {A} a st.
Arguments Raises {A} st.

(** Save access token with date to file; [open] is taken to succeed. *)
Definition _persist_token (access_token : pyval) (st : State) : State :=
  let token_data : gmap string pyval :=
    {[ "access_token" := access_token;
       "date" := VStr (isoformat (today st.1));
       "timestamp" := VStr (timestamp st.1) ]} in
  (set_file (JsonObject token_data) st.1, st.2).

(** [v == s] for a string [s]. *)
Definition eq_str (v : pyval) (s : string) : bool :=
  match v with
  | VStr s' => String.eqb s' s
  | _ => false
  end.

(** Load today's access token from file if available. *)
Definition _load_persisted_token (st : State) : result pyval :=
  match file st.1 with
  | NoFile => Returns VNone st
  | NotJson => Returns VNone st
  | JsonObject data =>
      if eq_str (dict_get data "date") (isoformat (today st.1))
      then Returns (dict_get data "access_token") st
      else Returns VNone st
  | JsonOther => Raises st
  end.

Definition get_access_token (st : State) : result pyval :=
  (* Check in-memory first *)
  if truthy st.2 then Returns st.2 st
  else
    (* Try loading from persisted file *)
    match _load_persisted_token st with
    | Raises st => Raises st
    | Returns token st =>
        if truthy token
        then Returns token (set_kite_token token st.1, token)
        else
          (* Fall back to environment variable *)
          match env_token st.1 with
          | Some env_token =>
              if negb (String.eqb env_token "")
              then
                let st := (set_kite_token (VStr env_token) st.1, VStr env_token) in
                Returns (VStr env_token) (_persist_token (VStr env_token) st)
              else Returns VNone st
          | None => Returns VNone st
          end
    end.

Definition set_access_token (access_token : pyval) (persist : bool) (st : State) : State :=
  let st := (set_kite_token access_token st.1, access_token) in
  if persist then _persist_token access_token st else st.

Definition validate_session (st : State) : result bool :=
  match get_access_token st with
  | Raises st => Raises st
  | Returns token st =>
      if negb (truthy token) then Returns false st
      else if profile_answers st.1 then Returns true st
      else Returns false (st.1, VNone)
  end.

(** A new [KiteAuth] in the environment [e]. *)
Definition init (e : Env) : State := (e, VNone).

(** A machine without token file whose environment holds a token. *)
Definition first_run : Env :=
  mkEnv NoFile (mkDate 2024 1 15) "2024-01-15T09:00:00" (Some "abc123") VNone true.

End KiteAuth.

(** * Properties *)

(** ** binary64 rounding *)

Module FloatFacts.

Import Py.

Local Open Scope Q_scope.

Lemma pow2_pos (e : Z) : 0 < pow2 e.
Proof. apply Qpower_0_lt. reflexivity. Qed.

Lemma pow2_add (a b : Z) : pow2 (a + b) == pow2 a * pow2 b.
Proof. apply Qpower_plus. discriminate. Qed.

Lemma pow2_lt (a b : Z) : (a < b)%Z <-> pow2 a < pow2 b.
Proof.
  split; intros H.
  - apply Qpower_lt_compat_l; [exact H|reflexivity].
  - apply (Qpower_lt_compat_l_inv 2); [exact H|reflexivity].
Qed.

Lemma pow2_le (a b : Z) : (a <= b)%Z <-> pow2 a <= pow2 b.
Proof.
  split; intros H.
  - apply Qpower_le_compat_l; [exact H|discriminate].
  - apply (Qpower_le_compat_l_inv 2); [exact H|reflexivity].
Qed.

Lemma pow2_Z (e : Z) : (0 <= e)%Z -> pow2 e == inject_Z (2 ^ e).
Proof. intros H. unfold pow2. rewrite Zpower_Qpower by exact H. reflexivity. Qed.

(** [ilog2] is the floor of the binary logarithm. *)
Lemma ilog2_spec (q : Q) : 0 < q -> pow2 (ilog2 q) <= q /\ q < pow2 (ilog2 q + 1).
Proof.
  intros Hq. destruct q as [n d]. unfold Qlt in Hq. simpl in Hq.
  assert (Hn : (0 < n)%Z) by lia.
  unfold ilog2. cbn [Qnum Qden].
  set (ln := Z.log2 n). set (ld := Z.log2 (Z.pos d)).
  destruct (Z.log2_spec n Hn) as [Hn1 Hn2]. fold ln in Hn1, Hn2.
  destruct (Z.log2_spec (Z.pos d) eq_refl) as [Hd1 Hd2]. fold ld in Hd1, Hd2.
  assert (Hln : (0 <= ln)%Z) by apply Z.log2_nonneg.
  assert (Hld : (0 <= ld)%Z) by apply Z.log2_nonneg.
  assert (Hq' : n # d == inject_Z n / inject_Z (Z.pos d)) by apply Qmake_Qdiv.
  assert (Hdpos : 0 < inject_Z (Z.pos d)) by (unfold Qlt; simpl; lia).
  (* the two outer bounds *)
  assert (Hlow : pow2 (ln - ld - 1) <= n # d).
  { rewrite Hq'. apply Qle_shift_div_l; [exact Hdpos|].
    replace (ln - ld - 1)%Z with (ln + - (ld + 1))%Z by ring.
    rewrite pow2_add. unfold pow2 at 2. rewrite Qpower_opp. fold (pow2 (ld + 1)).
    rewrite (pow2_Z ln), (pow2_Z (ld + 1)) by lia.
    assert (H1 : inject_Z (Z.pos d) <= inject_Z (2 ^ (ld + 1))).
    { rewrite <- Zle_Qle. replace (ld + 1)%Z with (Z.succ ld) by ring. lia. }
    assert (H2 : inject_Z (2 ^ ln) <= inject_Z n) by (rewrite <- Zle_Qle; lia).
    assert (H3 : 0 < inject_Z (2 ^ (ld + 1))).
    { eapply Qlt_le_trans; [exact Hdpos|exact H1]. }
    assert (H4 : 0 < inject_Z (2 ^ ln)).
    { rewrite <- (pow2_Z ln) by lia. apply pow2_pos. }
    rewrite <- Qmult_assoc.
    apply Qle_trans with (inject_Z (2 ^ ln) * 1); [|lra].
    apply Qmult_le_l; [exact H4|].
    rewrite Qmult_comm. apply Qle_shift_div_r; [exact H3|]. lra. }
  assert (Hhigh : n # d < pow2 (ln - ld + 1)).
  { rewrite Hq'. apply Qlt_shift_div_r; [exact Hdpos|].
    replace (ln - ld + 1)%Z with ((ln + 1) + - ld)%Z by ring.
    rewrite pow2_add. unfold pow2 at 2. rewrite Qpower_opp. fold (pow2 ld).
    rewrite (pow2_Z (ln + 1)), (pow2_Z ld) by lia.
    assert (H1 : inject_Z (2 ^ ld) <= inject_Z (Z.pos d)) by (rewrite <- Zle_Qle; lia).
    assert (H2 : inject_Z n < inject_Z (2 ^ (ln + 1))).
    { rewrite <- Zlt_Qlt. replace (ln + 1)%Z with (Z.succ ln) by ring. lia. }
    assert (H3 : 0 < inject_Z (2 ^ ld)).
    { rewrite <- (pow2_Z ld) by lia. apply pow2_pos. }
    eapply Qlt_le_trans; [exact H2|].
    rewrite <- Qmult_assoc.
    rewrite <- (Qmult_1_r (inject_Z (2 ^ (ln + 1)))) at 1.
    apply Qmult_le_l.
    { rewrite <- (pow2_Z (ln + 1)) by lia. apply pow2_pos. }
    rewrite Qmult_comm. apply Qle_shift_div_l; [exact H3|]. lra. }
  destruct (Qle_bool (pow2 (ln - ld)) (n # d)) eqn:Hk.
  - apply Qle_bool_iff in Hk. split; [exact Hk|exact Hhigh].
  - split; [exact Hlow|].
    replace (ln - ld - 1 + 1)%Z with (ln - ld)%Z by ring.
    apply Qnot_le_lt. intros H. apply Qle_bool_iff in H. congruence.
Qed.

Lemma round_half_even_Z (q : Q) (n : Z) : q == inject_Z n -> round_half_even q = n.
Proof.
  intros H. unfold round_half_even.
  assert (Hf : Qfloor q = n) by (rewrite H; apply Qfloor_Z).
  rewrite Hf.
  assert (Hc : (q - inject_Z n ?= 1 # 2) = Lt).
  { rewrite <- Qlt_alt. rewrite H. lra. }
  rewrite Hc. reflexivity.
Qed.

(** Rounding to the nearest integer: no integer is nearer. *)
Lemma round_half_even_nearest (q : Q) (k : Z) :
  Qabs (inject_Z (round_half_even q) - q) <= Qabs (inject_Z k - q).
Proof.
  unfold round_half_even.
  pose proof (Qfloor_le q) as Hlo. pose proof (Qlt_floor q) as Hhi.
  set (f := Qfloor q) in *.
  rewrite inject_Z_plus in Hhi. change (inject_Z 1) with 1 in Hhi.
  assert (Hk : (k <= f)%Z \/ (f + 1 <= k)%Z) by lia.
  assert (Hk' : inject_Z k <= inject_Z f \/ inject_Z f + 1 <= inject_Z k).
  { destruct Hk as [Hk|Hk]; [left|right].
    - rewrite Zle_Qle in Hk. exact Hk.
    - rewrite Zle_Qle, inject_Z_plus in Hk. exact Hk. }
  destruct (q - inject_Z f ?= 1 # 2) eqn:Hc.
  - apply Qeq_alt in Hc.
    destruct (Z.even f); [|rewrite inject_Z_plus; change (inject_Z 1) with 1];
      apply Qabs_case; intros; apply Qabs_case; intros; lra.
  - apply Qlt_alt in Hc. apply Qabs_case; intros; apply Qabs_case; intros; lra.
  - apply Qgt_alt in Hc. rewrite inject_Z_plus; change (inject_Z 1) with 1.
    apply Qabs_case; intros; apply Qabs_case; intros; lra.
Qed.

(** The rounding of a positive number to the grid of its binade. *)
Lemma round_to_grid (a : Q) (z : Q) :
  0 < a -> on_grid64 z ->
  let e := Z.max (ilog2 a - 52) (-1074) in
  let r := inject_Z (round_half_even (a / pow2 e)) * pow2 e in
  Qabs (r - a) <= Qabs (z - a).
Proof.
  intros Ha (m & e' & Hm & He' & Hz) e r.
  pose proof (pow2_pos e) as Hpe.
  assert (Hgrid : forall k : Z, Qabs (r - a) <= Qabs (inject_Z k * pow2 e - a)).
  { intros k. pose proof (round_half_even_nearest (a / pow2 e) k) as Hk.
    assert (Hs : forall x, Qabs (x * pow2 e - a) == Qabs (x - a / pow2 e) * pow2 e).
    { intros x. rewrite <- (Qabs_pos (pow2 e)) at 3 by lra. rewrite <- Qabs_Qmult.
      apply Qabs_wd. field. lra. }
    unfold r. rewrite !Hs. apply Qmult_le_compat_r; [exact Hk|lra]. }
  destruct (Z_le_gt_dec e e') as [Hee|Hee].
  - (* [z] is on the grid of [a] *)
    assert (Hz' : z == inject_Z (m * 2 ^ (e' - e)) * pow2 e).
    { rewrite Hz, inject_Z_mult, <- (pow2_Z (e' - e)) by lia.
      rewrite <- Qmult_assoc, <- pow2_add. replace (e' - e + e)%Z with e' by ring.
      reflexivity. }
    rewrite Hz'. apply Hgrid.
  - (* [z] lies below the binade of [a] *)
    assert (He : e = (ilog2 a - 52)%Z) by lia.
    pose proof (proj1 (ilog2_spec a Ha)) as Hlow.
    assert (Hpow : pow2 (ilog2 a) == inject_Z (2 ^ 52) * pow2 e).
    { rewrite <- (pow2_Z 52) by lia. rewrite <- pow2_add. rewrite He.
      replace (52 + (ilog2 a - 52))%Z with (ilog2 a) by ring. reflexivity. }
    assert (Hzlt : z <= pow2 (ilog2 a)).
    { rewrite Hz. apply Qle_trans with (inject_Z (2 ^ 53) * pow2 e').
      - apply Qmult_le_compat_r; [|pose proof (pow2_pos e'); lra].
        rewrite <- Zle_Qle. lia.
      - rewrite <- (pow2_Z 53) by lia. rewrite <- pow2_add.
        apply (proj1 (pow2_le (53 + e') (ilog2 a))). lia. }
    eapply Qle_trans; [apply (Hgrid (2 ^ 52)%Z)|].
    rewrite <- Hpow. apply Qabs_case; intros; apply Qabs_case; intros; lra.
Qed.

Lemma on_grid64_opp (z : Q) : on_grid64 z -> on_grid64 (- z).
Proof.
  intros (m & e & Hm & He & Hz). exists (- m)%Z, e.
  split; [lia|]. split; [exact He|]. rewrite Hz, inject_Z_opp. ring.
Qed.

(** [binary64 q] is a nearest point of the grid: no float is nearer to
    [q]. *)
Lemma binary64_nearest (q z : Q) :
  on_grid64 z -> Qabs (binary64 q - q) <= Qabs (z - q).
Proof.
  intros Hz. unfold binary64. destruct (Qeq_bool q 0) eqn:Hq0.
  { apply Qeq_bool_iff in Hq0. rewrite Hq0.
    apply Qabs_case; intros; apply Qabs_case; intros; lra. }
  apply Qeq_bool_neq in Hq0. rewrite Qred_correct.
  destruct (Qle_bool 0 q) eqn:Hs.
  - apply Qle_bool_iff in Hs. assert (Hpos : 0 < q) by (apply Qnot_le_lt; intros H; apply Hq0; lra).
    pose proof (round_to_grid (Qabs q) z) as H. cbv zeta in H.
    assert (Habs : Qabs q == q) by (apply Qabs_pos; lra).
    assert (Hpos' : 0 < Qabs q) by lra.
    specialize (H Hpos' Hz).
    set (r := inject_Z _ * pow2 _) in *.
    assert (H1 : Qabs (r - q) == Qabs (r - Qabs q)) by (apply Qabs_wd; lra).
    assert (H2 : Qabs (z - q) == Qabs (z - Qabs q)) by (apply Qabs_wd; lra).
    rewrite H1, H2. exact H.
  - assert (Hneg : q < 0).
    { apply Qnot_le_lt. intros H. apply Qle_bool_iff in H. congruence. }
    pose proof (round_to_grid (Qabs q) (- z)) as H. cbv zeta in H.
    assert (Habs : Qabs q == - q) by (apply Qabs_neg; lra).
    assert (Hpos' : 0 < Qabs q) by lra.
    specialize (H Hpos' (on_grid64_opp z Hz)).
    set (r := inject_Z _ * pow2 _) in *.
    assert (H1 : Qabs (- r - q) == Qabs (r - Qabs q)).
    { rewrite <- Qabs_opp. apply Qabs_wd. lra. }
    assert (H2 : Qabs (z - q) == Qabs (- z - Qabs q)).
    { rewrite <- Qabs_opp. apply Qabs_wd. lra. }
    rewrite H1, H2. exact H.
Qed.

(** A number of the grid is its own rounding. *)
Lemma binary64_exact (q : Q) : on_grid64 q -> binary64 q == q.
Proof.
  intros Hq. pose proof (binary64_nearest q q Hq) as H.
  assert (H0 : Qabs (q - q) == 0) by (rewrite <- (Qabs_wd 0); [reflexivity|lra]).
  rewrite H0 in H.
  pose proof (Qabs_nonneg (binary64 q - q)) as Hn.
  assert (He : Qabs (binary64 q - q) == 0) by lra.
  revert He. apply Qabs_case; intros; lra.
Qed.

(** [binary64 q] is a point of the grid. *)
Lemma binary64_on_grid (q : Q) : on_grid64 (binary64 q).
Proof.
  unfold binary64. destruct (Qeq_bool q 0) eqn:Hq0.
  { exists 0%Z, 0%Z. split; [reflexivity|]. split; [lia|]. ring. }
  apply Qeq_bool_neq in Hq0.
  assert (Hpos : 0 < Qabs q).
  { pose proof (Qabs_nonneg q) as Hn. apply Qnot_le_lt. intros H.
    apply Hq0. revert H Hn. apply Qabs_case; intros; lra. }
  set (a := Qabs q) in *. set (e := Z.max (ilog2 a - 52) (-1074)).
  set (n := round_half_even (a / pow2 e)).
  pose proof (pow2_pos e) as Hpe.
  destruct (ilog2_spec a Hpos) as [_ Hup].
  assert (Hr : 0 <= a / pow2 e < inject_Z (2 ^ 53)).
  { split.
    - apply Qle_shift_div_l; [exact Hpe|]. lra.
    - apply Qlt_shift_div_r; [exact Hpe|].
      rewrite <- (pow2_Z 53) by lia. rewrite <- pow2_add.
      eapply Qlt_le_trans; [exact Hup|].
      apply (proj1 (pow2_le (ilog2 a + 1) (53 + e))). lia. }
  assert (Hn : (0 <= n <= 2 ^ 53)%Z).
  { pose proof (round_half_even_nearest (a / pow2 e) 0) as H0.
    pose proof (round_half_even_nearest (a / pow2 e) (2 ^ 53)) as H1.
    fold n in H0, H1. clearbody n. revert Hr H0 H1.
    generalize (a / pow2 e). intros r Hr H0 H1. split; rewrite Zle_Qle.
    - revert H0. change (inject_Z 0) with 0.
      apply Qabs_case; intros ?; apply Qabs_case; intros; lra.
    - revert H1. apply Qabs_case; intros ?; apply Qabs_case; intros; lra. }
  assert (Hgrid : on_grid64 (inject_Z n * pow2 e)).
  { destruct (Z.eq_dec n (2 ^ 53)%Z) as [Heq|Hne].
    - exists (2 ^ 52)%Z, (e + 1)%Z. split; [reflexivity|]. split; [lia|].
      rewrite Heq, pow2_add. change (pow2 1) with 2.
      change (inject_Z (2 ^ 53)) with (inject_Z (2 ^ 52) * 2). ring.
    - exists n, e. split; [lia|]. split; [lia|]. reflexivity. }
  destruct Hgrid as (m & e' & Hm & He' & Heq).
  destruct (Qle_bool 0 q).
  - exists m, e'. split; [exact Hm|]. split; [exact He'|].
    rewrite Qred_correct. exact Heq.
  - exists (- m)%Z, e'. split; [lia|]. split; [exact He'|].
    rewrite Qred_correct, Heq, inject_Z_opp. ring.
Qed.

End FloatFacts.

(** ** Loops that append *)

Module LoopFacts.

(** A [for] loop that appends one element per iteration builds the image of
    the iterated list. *)
Lemma foldl_snoc_fmap {A B : Type} (f : A -> B) (l : list A) (init : list B) :
  foldl (fun acc i => acc ++ [f i]) init l = init ++ (f <$> l).
Proof.
  revert init; induction l as [|x l IH]; intros init; simpl.
  - by rewrite app_nil_r.
  - rewrite IH. by rewrite <- app_assoc.
Qed.

End LoopFacts.

(** ** snapshot_builder.py *)

Module SnapshotBuilderFacts.

Import SnapshotBuilder LoopFacts.

Lemma extract_depth_fmap (tick : Tick) (side : string) (levels : nat) :
  _extract_depth tick side levels
  = extract_level (default [] (default ∅ (tick_depth tick) !! side)) <$> seq 0 levels.
Proof. unfold _extract_depth. by rewrite foldl_snoc_fmap. Qed.

Lemma extract_depth_length (tick : Tick) (side : string) (levels : nat) :
  length (_extract_depth tick side levels) = levels.
Proof. by rewrite extract_depth_fmap, length_fmap, length_seq. Qed.

Lemma extract_depth_lookup (tick : Tick) (side : string) (levels i : nat) :
  (i < levels)%nat ->
  _extract_depth tick side levels !! i
  = Some (extract_level (default [] (default ∅ (tick_depth tick) !! side)) i).
Proof.
  intros Hi. rewrite extract_depth_fmap, list_lookup_fmap.
  by rewrite lookup_seq_lt.
Qed.

(** C5.  Depth extraction at the call sites of [build_row] ([levels = 3])
    returns exactly three pairs.  At each index [i < 3]: past the end of the
    side's list the pair is [(None, None)]; a level whose price equals zero
    gives [(None, None)] whatever its quantity; any other level gives its
    own price and quantity entries. *)
Theorem extract_depth_three_levels (tick : Tick) (side : string) (i : nat) :
  (i < 3)%nat ->
  let depth := default [] (default ∅ (tick_depth tick) !! side) in
  let result := _extract_depth tick side 3 in
  length result = 3%nat /\
  match depth !! i with
  | None => (length depth <= i)%nat /\ result !! i = Some (None, None)
  | Some lvl =>
      match lvl !! "price" with
      | Some p =>
          (num_val p == 0 -> result !! i = Some (None, None)) /\
          (~ num_val p == 0 -> result !! i = Some (Some p, lvl !! "quantity"))
      | None => result !! i = Some (None, lvl !! "quantity")
      end
  end.
Proof.
  intros Hi depth result. split.
  - apply extract_depth_length.
  - unfold result. rewrite extract_depth_lookup by done.
    fold depth. unfold extract_level.
    destruct (depth !! i) as [lvl|] eqn:Hd.
    + destruct (lvl !! "price") as [p|] eqn:Hp; [|done].
      unfold num_is_zero. destruct (Qeq_bool (num_val p) 0) eqn:Hz.
      * apply Qeq_bool_iff in Hz. split; [done|]. intros Hn. by destruct Hn.
      * split; [|done]. intros Hq. apply Qeq_bool_iff in Hq. congruence.
    + split; [|done]. by apply lookup_ge_None.
Qed.

(** A tick with two bid levels, the second one carrying the zero-price
    sentinel together with a non-zero quantity. *)
Lemma extract_depth_three_levels_witness :
  (1 < 3)%nat /\
  _extract_depth
    (mkTick ∅ (Some {[ "buy" := [ ({[ "price" := NInt 150; "quantity" := NInt 100 ]} : level);
                                  ({[ "price" := NFloat 0; "quantity" := NInt 75 ]} : level) ] ]}))
    "buy" 3 !! 1%nat = Some (None, None).
Proof.
  split; [lia|].
  pose proof (extract_depth_three_levels
    (mkTick ∅ (Some {[ "buy" := [ ({[ "price" := NInt 150; "quantity" := NInt 100 ]} : level);
                                  ({[ "price" := NFloat 0; "quantity" := NInt 75 ]} : level) ] ]}))
    "buy" 1 ltac:(lia)) as [_ H].
  vm_compute in H. apply H. reflexivity.
Defined.

Lemma as_float_exact (x : pynum) : representable64 (num_val x) -> as_float x == num_val x.
Proof.
  intros [Hg _]. destruct x as [n|q]; [|reflexivity].
  apply FloatFacts.binary64_exact. exact Hg.
Qed.

Lemma on_grid64_wd (x y : Q) : x == y -> on_grid64 x -> on_grid64 y.
Proof.
  intros Heq (m & e & Hm & He & Hx). exists m, e.
  split; [exact Hm|]. split; [exact He|]. by rewrite <- Heq.
Qed.

(** The values [_compute_mid_spread] computes from two prices. *)
Lemma mid_spread_values (b a : pynum) :
  let m := num_truediv (num_add b a) (NInt 2) in
  let s := num_sub a b in
  match b, a with
  | NInt x, NInt y =>
      m = NFloat (binary64 (inject_Z (x + y) / 2)) /\ s = NInt (y - x)
  | _, _ =>
      m = NFloat (binary64 (binary64 (as_float b + as_float a) / 2)) /\
      s = NFloat (binary64 (as_float a - as_float b))
  end /\
  (representable64 (num_val b) -> representable64 (num_val a) ->
   representable64 (num_val b + num_val a) ->
   representable64 ((num_val b + num_val a) / 2) ->
   num_val m == (num_val b + num_val a) / 2) /\
  (representable64 (num_val b) -> representable64 (num_val a) ->
   representable64 (num_val a - num_val b) ->
   num_val s == num_val a - num_val b).
Proof.
  intros m s.
  assert (Htwo : binary64 (inject_Z 2) = 2%Q) by (vm_compute; reflexivity).
  split; [|split].
  - unfold m, s, num_truediv, num_add, num_sub.
    destruct b as [x|p], a as [y|q]; cbn [as_float]; rewrite ?Htwo; done.
  - intros Hb Ha [Hsum _] [Hhalf _].
    pose proof (as_float_exact b Hb) as Eb. pose proof (as_float_exact a Ha) as Ea.
    unfold m, num_truediv, num_add.
    destruct b as [x|p], a as [y|q]; cbn [as_float num_val] in *; rewrite ?Htwo.
    + rewrite FloatFacts.binary64_exact.
      * rewrite inject_Z_plus. reflexivity.
      * eapply on_grid64_wd; [|exact Hhalf]. rewrite inject_Z_plus. reflexivity.
    + assert (E1 : binary64 (binary64 (inject_Z x) + q) == inject_Z x + q).
      { rewrite FloatFacts.binary64_exact; [by rewrite Eb|].
        eapply on_grid64_wd; [|exact Hsum]. by rewrite Eb. }
      rewrite FloatFacts.binary64_exact; [by rewrite E1|].
      eapply on_grid64_wd; [|exact Hhalf]. by rewrite E1.
    + assert (E1 : binary64 (p + binary64 (inject_Z y)) == p + inject_Z y).
      { rewrite FloatFacts.binary64_exact; [by rewrite Ea|].
        eapply on_grid64_wd; [|exact Hsum]. by rewrite Ea. }
      rewrite FloatFacts.binary64_exact; [by rewrite E1|].
      eapply on_grid64_wd; [|exact Hhalf]. by rewrite E1.
    + assert (E1 : binary64 (p + q) == p + q)
        by (apply FloatFacts.binary64_exact; exact Hsum).
      rewrite FloatFacts.binary64_exact; [by rewrite E1|].
      eapply on_grid64_wd; [|exact Hhalf]. by rewrite E1.
  - intros Hb Ha [Hdiff _].
    pose proof (as_float_exact b Hb) as Eb. pose proof (as_float_exact a Ha) as Ea.
    unfold s, num_sub.
    destruct b as [x|p], a as [y|q]; cbn [as_float num_val] in *.
    + unfold Z.sub. rewrite inject_Z_plus, inject_Z_opp. reflexivity.
    + rewrite FloatFacts.binary64_exact; [by rewrite Eb|].
      eapply on_grid64_wd; [|exact Hdiff]. by rewrite Eb.
    + rewrite FloatFacts.binary64_exact; [by rewrite Ea|].
      eapply on_grid64_wd; [|exact Hdiff]. by rewrite Ea.
    + apply FloatFacts.binary64_exact. exact Hdiff.
Qed.

Lemma build_row_lookup (self : SnapshotBuilder) (tick : Tick)
    (meta : gmap string pyval) (ts_micros : option Z) (clk : Clock) :
  let row := (build_row self tick meta ts_micros clk).1 in
  let bid := px_at (_extract_depth tick "buy" 3) 0 in
  let ask := px_at (_extract_depth tick "sell" 3) 0 in
  row !! "best_bid_px" = Some (of_opt_num bid) /\
  row !! "best_ask_px" = Some (of_opt_num ask) /\
  row !! "mid_px" = Some (of_opt_num (_compute_mid_spread bid ask).1) /\
  row !! "spread" = Some (of_opt_num (_compute_mid_spread bid ask).2).
Proof.
  unfold build_row.
  destruct (match ts_micros with Some t => (t, clk) | None => _ end) as [ts clk'].
  assert (Hb : forall xs : list (option pynum * option pynum),
             match xs with [] => None | b :: _ => b.1 end = px_at xs 0).
  { intros [|[p q] xs]; reflexivity. }
  rewrite !Hb.
  destruct (_compute_mid_spread _ _) as [mid spread] eqn:Hms.
  cbn zeta. repeat split; reflexivity.
Qed.

(** C6.  In every row [build_row] returns, [mid_px] and [spread] are both
    non-null exactly when [best_bid_px] and [best_ask_px] are both non-null;
    otherwise both are null.  When both prices are there, [mid_px] is
    [(bid + ask) / 2] and [spread] is [ask - bid] as float arithmetic gives
    them, every operation rounded to binary64; of two ints the difference
    is their exact int difference and the mean is the rounded half of their
    exact sum.  The two values are the exact ones whenever the prices, their
    sum, its half and their difference are floats.  The prices are bounded
    so that no operation overflows. *)
Theorem mid_spread_iff_both_sides (self : SnapshotBuilder) (tick : Tick)
    (meta : gmap string pyval) (ts_micros : option Z) (clk : Clock) :
  let row := (build_row self tick meta ts_micros clk).1 in
  prices_in_range (px_at (_extract_depth tick "buy" 3) 0)
                  (px_at (_extract_depth tick "sell" 3) 0) ->
  exists bid ask mid spread : pyval,
    row !! "best_bid_px" = Some bid /\ row !! "best_ask_px" = Some ask /\
    row !! "mid_px" = Some mid /\ row !! "spread" = Some spread /\
    ((mid <> VNone /\ spread <> VNone) <-> (bid <> VNone /\ ask <> VNone)) /\
    match bid, ask with
    | VNum b, VNum a =>
        exists m s, mid = VNum m /\ spread = VNum s /\
          match b, a with
          | NInt x, NInt y =>
              m = NFloat (binary64 (inject_Z (x + y) / 2)) /\ s = NInt (y - x)
          | _, _ =>
              m = NFloat (binary64 (binary64 (as_float b + as_float a) / 2)) /\
              s = NFloat (binary64 (as_float a - as_float b))
          end /\
          (representable64 (num_val b) -> representable64 (num_val a) ->
           representable64 (num_val b + num_val a) ->
           representable64 ((num_val b + num_val a) / 2) ->
           num_val m == (num_val b + num_val a) / 2) /\
          (representable64 (num_val b) -> representable64 (num_val a) ->
           representable64 (num_val a - num_val b) ->
           num_val s == num_val a - num_val b)
    | _, _ => mid = VNone /\ spread = VNone
    end.
Proof.
  intros row _.
  destruct (build_row_lookup self tick meta ts_micros clk) as (Hb & Ha & Hm & Hs).
  fold row in Hb, Ha, Hm, Hs.
  eexists _, _, _, _. repeat (split; [eassumption|]).
  destruct (px_at (_extract_depth tick "buy" 3) 0) as [b|],
           (px_at (_extract_depth tick "sell" 3) 0) as [a|]; simpl.
  - split; [split; intros _; split; discriminate|].
    exists (num_truediv (num_add b a) (NInt 2)), (num_sub a b).
    split; [reflexivity|]. split; [reflexivity|].
    apply mid_spread_values.
  - split; [|done]. split; intros [H1 H2]; congruence.
  - split; [|done]. split; intros [H1 H2]; congruence.
  - split; [|done]. split; intros [H1 H2]; congruence.
Qed.

Lemma build_row_given_ts (self : SnapshotBuilder) (tick : Tick)
    (meta : gmap string pyval) (ts : Z) (clk : Clock) :
  (build_row self tick meta (Some ts) clk).1 !! "ts" = Some (VNum (NInt ts)) /\
  (build_row self tick meta (Some ts) clk).2 = clk.
Proof.
  unfold build_row. destruct (_compute_mid_spread _ _) as [mid spread].
  split; reflexivity.
Qed.

Lemma ts_to_micros_now (self : SnapshotBuilder) (clk : Clock) :
  _ts_to_micros self None clk
  = (readings clk (reads clk), mkClock (readings clk) (S (reads clk))).
Proof. unfold _ts_to_micros, clock_now. simpl. f_equal. lia. Qed.

Lemma snapshot_rows_fmap (self : SnapshotBuilder) (ticks : gmap Z Tick) (ts : Z)
    (items : list (Z * gmap string pyval)) (rows : list (gmap string pyval)) (clk : Clock) :
  snapshot_rows self ticks ts items rows clk
  = (rows ++ (row_for self ticks ts clk <$> items), clk).
Proof.
  revert rows; induction items as [|[token meta] items IH]; intros rows; simpl.
  - by rewrite app_nil_r.
  - pose proof (build_row_given_ts self (default empty_tick (ticks !! token)) meta ts clk)
      as [_ Hclk].
    destruct (build_row self (default empty_tick (ticks !! token)) meta (Some ts) clk)
      as [row clk'] eqn:Hrow.
    simpl in Hclk; subst clk'. rewrite IH, <- app_assoc. simpl.
    unfold row_for at 2. simpl. by rewrite Hrow.
Qed.

Lemma build_snapshot_fmap (self : SnapshotBuilder) (ticks : gmap Z Tick)
    (universe : list (Z * gmap string pyval)) (ts_micros : option Z) (clk : Clock) :
  build_snapshot self ticks universe ts_micros clk
  = (row_for self ticks (snapshot_ts ts_micros clk) (snapshot_clock ts_micros clk) <$> universe,
     snapshot_clock ts_micros clk).
Proof.
  unfold build_snapshot. destruct ts_micros as [t|].
  - by rewrite snapshot_rows_fmap.
  - rewrite ts_to_micros_now. by rewrite snapshot_rows_fmap.
Qed.

(** C4.  For every tick cache and every universe, [build_snapshot] returns
    as many rows as the universe has entries, and the [i]-th row is the row
    [build_row] makes for the [i]-th entry of the universe in iteration
    order, from that token's cached tick or from the empty tick. *)
Theorem build_snapshot_one_row_per_entry (self : SnapshotBuilder) (ticks : gmap Z Tick)
    (universe : list (Z * gmap string pyval)) (ts_micros : option Z) (clk : Clock) :
  let rows := (build_snapshot self ticks universe ts_micros clk).1 in
  length rows = length universe /\
  Forall2
    (fun row item =>
       row = (build_row self (default empty_tick (ticks !! item.1)) item.2
                (Some (snapshot_ts ts_micros clk)) (snapshot_clock ts_micros clk)).1 /\
       dict_get row "instrument_id" = dict_get_default item.2 "instrument_id" (VStr "") /\
       dict_get row "option_symbol" = dict_get_default item.2 "tradingsymbol" (VStr ""))
    rows universe.
Proof.
  intros rows. unfold rows. rewrite build_snapshot_fmap. simpl. split.
  - by rewrite length_fmap.
  - apply Forall2_fmap_l, Forall_Forall2_diag, Forall_forall.
    intros [token meta] _. split; [done|]. unfold row_for, build_row; simpl.
    destruct (_compute_mid_spread _ _) as [mid spread]. split; reflexivity.
Qed.

(** C10.  All rows of one [build_snapshot] call carry the same [ts]: the
    argument when it is given, else the single clock reading the call makes
    before its loop.  The clock is read at most that once, and the [ts]
    column is the same whatever the cached ticks (and their exchange
    timestamps) are. *)
Theorem build_snapshot_single_timestamp (self : SnapshotBuilder) (ticks ticks' : gmap Z Tick)
    (universe : list (Z * gmap string pyval)) (ts_micros : option Z) (clk : Clock) :
  let out := build_snapshot self ticks universe ts_micros clk in
  let out' := build_snapshot self ticks' universe ts_micros clk in
  Forall (fun row => row !! "ts" = Some (VNum (NInt (snapshot_ts ts_micros clk)))) out.1 /\
  reads out.2 = (reads clk + match ts_micros with Some _ => 0 | None => 1 end)%nat /\
  ((fun row => row !! "ts") <$> out.1) = ((fun row => row !! "ts") <$> out'.1).
Proof.
  intros out out'. unfold out, out'. rewrite !build_snapshot_fmap. simpl.
  assert (Hts : forall tk,
    Forall (fun row => row !! "ts" = Some (VNum (NInt (snapshot_ts ts_micros clk))))
           (row_for self tk (snapshot_ts ts_micros clk) (snapshot_clock ts_micros clk)
              <$> universe)).
  { intros tk. apply Forall_fmap, Forall_forall. intros [token meta] _.
    apply build_row_given_ts. }
  split; [apply Hts|]. split.
  - destruct ts_micros; simpl; lia.
  - rewrite <- !list_fmap_compose. apply list_fmap_ext.
    intros i [token meta] _. simpl. unfold row_for.
    rewrite !(proj1 (build_row_given_ts _ _ _ _ _)). done.
Qed.

End SnapshotBuilderFacts.

(** ** The end-to-end scenario *)

Module ScenarioFacts.

Import SnapshotBuilder Scenario.

(** C3, as the code behaves.  The snapshot has the two rows, token 111 then
    token 222.  Row 111 has the expected bid, null ask, null mid and spread,
    spot 24010 and option type C.  Row 222, which has no tick, has all its
    metadata columns populated and every price and size column null except
    [last_trade_sz], which is the integer 0. *)
Theorem scenario_rows :
  rows = [row_111; row_222] /\
  row_111 !! "best_bid_px" = Some (VNum (NInt 150)) /\
  row_111 !! "best_bid_sz" = Some (VNum (NInt 100)) /\
  row_111 !! "best_ask_px" = Some VNone /\
  row_111 !! "mid_px" = Some VNone /\
  row_111 !! "spread" = Some VNone /\
  row_111 !! "underlying_spot" = Some (VNum (NInt 24010)) /\
  row_111 !! "option_type" = Some (VStr "C") /\
  all_null price_size_columns_but_last_size row_222 = true /\
  row_222 !! "last_trade_sz" = Some (VNum (NInt 0)) /\
  none_null metadata_columns row_222 = true /\
  row_222 !! "instrument_id" = Some (VStr "NIFTY_20240125_24000PE") /\
  row_222 !! "option_type" = Some (VStr "P") /\
  row_222 !! "underlying_spot" = Some (VNum (NInt 24010)).
Proof. repeat split; vm_compute; reflexivity. Qed.

(** C3 as stated fails: the tickless row 222 has a size column that is not
    null, [last_trade_sz = 0]. *)
Lemma scenario_tickless_row_not_all_null :
  rows !! 1%nat = Some row_222 /\
  dict_get row_222 "last_trade_sz" = VNum (NInt 0) /\
  ~ (forall col, In col price_size_columns -> dict_get row_222 col = VNone).
Proof.
  split; [vm_compute; reflexivity|]. split; [vm_compute; reflexivity|].
  intros H. specialize (H "last_trade_sz").
  assert (Hin : In "last_trade_sz" price_size_columns) by (simpl; tauto).
  apply H in Hin. vm_compute in Hin. discriminate.
Qed.

(** C6 as stated fails.  A tick bids the float 0.1 and asks the float 0.2.
    Both are floats, and [mid_px] is the float 0.15000000000000002, which is
    not half their sum: the sum is rounded.  [spread] is their exact
    difference, the float 0.1. *)
Lemma mid_px_is_rounded :
  row_tenth_fifth !! "best_bid_px" = Some (VNum (NFloat tenth)) /\
  row_tenth_fifth !! "best_ask_px" = Some (VNum (NFloat fifth)) /\
  binary64 (1 # 10) = tenth /\ binary64 (2 # 10) = fifth /\
  row_tenth_fifth !! "mid_px"
  = Some (VNum (NFloat (1351079888211149 # 9007199254740992))) /\
  ~ (1351079888211149 # 9007199254740992 == (tenth + fifth) / 2)%Q /\
  row_tenth_fifth !! "spread" = Some (VNum (NFloat tenth)) /\
  (tenth == fifth - tenth)%Q.
Proof.
  repeat split; try (vm_compute; reflexivity).
  intros H. vm_compute in H. discriminate H.
Qed.

(** The prices of [tick_tenth_fifth] are in range, and its row has a mean
    and a spread. *)
Lemma mid_spread_iff_both_sides_witness :
  prices_in_range (px_at (_extract_depth tick_tenth_fifth "buy" 3) 0)
                  (px_at (_extract_depth tick_tenth_fifth "sell" 3) 0) /\
  exists mid spread,
    row_tenth_fifth !! "mid_px" = Some mid /\
    row_tenth_fifth !! "spread" = Some spread /\
    mid <> VNone /\ spread <> VNone.
Proof.
  assert (Hr : prices_in_range (px_at (_extract_depth tick_tenth_fifth "buy" 3) 0)
                               (px_at (_extract_depth tick_tenth_fifth "sell" 3) 0)).
  { intros bid ask Hb Ha. vm_compute in Hb, Ha.
    injection Hb as <-. injection Ha as <-.
    split; vm_compute; intros H; discriminate H. }
  split; [exact Hr|].
  destruct (SnapshotBuilderFacts.mid_spread_iff_both_sides builder tick_tenth_fifth ∅ None
              clock0 Hr)
    as (bid & ask & mid & spread & Hb & Ha & Hm & Hs & Hiff & _).
  exists mid, spread. split; [exact Hm|]. split; [exact Hs|].
  apply Hiff. split.
  - intros ->. vm_compute in Hb. discriminate Hb.
  - intros ->. vm_compute in Ha. discriminate Ha.
Defined.

End ScenarioFacts.

(** ** ticker_stream.py *)

Module TickerStreamFacts.

Import TickerStream.

(** [ceil_div a b] is the least [k] with [a <= k * b]. *)
Lemma ceil_div_least (a b : nat) :
  (0 < b)%nat ->
  (a <= ceil_div a b * b)%nat /\ forall k, (a <= k * b)%nat -> (ceil_div a b <= k)%nat.
Proof.
  intros Hb. unfold ceil_div. split.
  - pose proof (Nat.div_mod_eq (a + b - 1) b) as Hdm.
    pose proof (Nat.mod_upper_bound (a + b - 1) b ltac:(lia)) as Hm.
    nia.
  - intros k Hk. enough (((a + b - 1) / b < S k)%nat) by lia.
    apply Nat.Div0.div_lt_upper_bound. nia.
Qed.

Lemma ceil_div_step (n b : nat) :
  (0 < b)%nat -> (0 < n)%nat -> ceil_div n b = S (ceil_div (n - b) b).
Proof.
  intros Hb Hn. unfold ceil_div.
  destruct (Nat.le_gt_cases b n) as [Hle|Hlt].
  - replace (n + b - 1)%nat with ((n - b + b - 1) + 1 * b)%nat by lia.
    rewrite Nat.div_add by lia. lia.
  - replace (n - b)%nat with 0%nat by lia. simpl.
    rewrite (Nat.div_small (b - 1) b) by lia.
    replace (n + b - 1)%nat with ((n - 1) + 1 * b)%nat by lia.
    rewrite Nat.div_add by lia. rewrite Nat.div_small by lia. lia.
Qed.

Lemma ceil_div_capped (n step : nat) :
  (0 < step)%nat ->
  ceil_div (Nat.min n (3 * step)) step = Nat.min 3 (ceil_div n step).
Proof.
  intros Hstep.
  destruct (Nat.le_gt_cases n (3 * step)) as [Hle|Hgt].
  - rewrite (Nat.min_l n) by lia.
    symmetry. apply Nat.min_r.
    apply (proj2 (ceil_div_least n step Hstep)). lia.
  - rewrite (Nat.min_r n) by lia.
    assert (H3 : ceil_div (3 * step) step = 3%nat).
    { apply Nat.le_antisymm.
      - apply (proj2 (ceil_div_least (3 * step) step Hstep)). lia.
      - pose proof (proj1 (ceil_div_least (3 * step) step Hstep)). nia. }
    rewrite H3. symmetry. apply Nat.min_l.
    pose proof (proj1 (ceil_div_least n step Hstep)). nia.
Qed.

Lemma range_from_length (step fuel start stop : nat) :
  (0 < step)%nat -> (stop - start <= fuel)%nat ->
  length (range_from fuel start stop step) = ceil_div (stop - start) step.
Proof.
  intros Hstep. revert start. induction fuel as [|fuel IH]; intros start Hfuel; simpl.
  - replace (stop - start)%nat with 0%nat by lia. unfold ceil_div. simpl.
    rewrite Nat.div_small; lia.
  - destruct (start <? stop)%nat eqn:Hlt.
    + apply Nat.ltb_lt in Hlt. simpl. rewrite IH by lia.
      rewrite (ceil_div_step (stop - start) step) by lia.
      do 2 f_equal. lia.
    + apply Nat.ltb_ge in Hlt. replace (stop - start)%nat with 0%nat by lia.
      unfold ceil_div. simpl. rewrite Nat.div_small; lia.
Qed.

(** The chunks cut at the offsets of the range, glued back, are the list
    from the first offset on. *)
Lemma chunks_concat {A : Type} (l : list A) (step fuel start : nat) :
  (0 < step)%nat -> (length l - start <= fuel)%nat ->
  concat ((fun i => take step (drop i l)) <$> range_from fuel start (length l) step)
  = drop start l.
Proof.
  intros Hstep. revert start. induction fuel as [|fuel IH]; intros start Hfuel; simpl.
  - symmetry. apply drop_ge. lia.
  - destruct (start <? length l)%nat eqn:Hlt.
    + simpl. rewrite IH by lia.
      rewrite <- (take_drop step (drop start l)) at 2.
      by rewrite drop_drop.
    + apply Nat.ltb_ge in Hlt. symmetry. by apply drop_ge.
Qed.

Lemma foldl_add_chunk (chunks : list (list Z)) (acc : MultiTickerStream) :
  shards (foldl add_chunk acc chunks) = shards acc ++ chunks.
Proof.
  revert acc; induction chunks as [|c chunks IH]; intros acc; simpl.
  - by rewrite app_nil_r.
  - rewrite IH. unfold shards, add_chunk. simpl.
    rewrite fmap_app. simpl. by rewrite <- app_assoc.
Qed.

(** What [set_tokens] leaves in the streams. *)
Lemma set_tokens_shards (self : MultiTickerStream) (tokens : list Z) :
  let kept := take (MAX_TOKENS_PER_CONNECTION * MAX_CONNECTIONS) tokens in
  shards (set_tokens self tokens)
  = (fun i => take MAX_TOKENS_PER_CONNECTION (drop i kept))
      <$> py_range (length kept) MAX_TOKENS_PER_CONNECTION.
Proof.
  intros kept. unfold set_tokens.
  assert (Hkept : (if (MAX_TOKENS_PER_CONNECTION * MAX_CONNECTIONS <? length tokens)%nat
                   then take (MAX_TOKENS_PER_CONNECTION * MAX_CONNECTIONS) tokens
                   else tokens) = kept).
  { destruct (_ <? _)%nat eqn:Hlt; [done|].
    apply Nat.ltb_ge in Hlt. unfold kept. by rewrite take_ge. }
  rewrite Hkept, foldl_add_chunk.
  rewrite LoopFacts.foldl_snoc_fmap. reflexivity.
Qed.

Lemma concat_disjoint {A : Type} (ls : list (list A)) (i j : nat) (a b : list A) (x : A) :
  NoDup (concat ls) -> i <> j -> ls !! i = Some a -> ls !! j = Some b ->
  x ∈ a -> x ∉ b.
Proof.
  revert i j. induction ls as [|l ls IH]; intros i j Hnd Hij Hi Hj Ha Hb; [done|].
  simpl in Hnd. apply NoDup_app in Hnd as (Hl & Hsep & Hrest).
  assert (Hmem : forall k c, ls !! k = Some c -> x ∈ c -> x ∈ concat ls).
  { intros k c Hk Hc. apply list_elem_of_In, in_concat. exists c. split.
    - apply list_elem_of_In. eapply list_elem_of_lookup_2; eassumption.
    - by apply list_elem_of_In. }
  destruct i as [|i], j as [|j]; simpl in *; simplify_eq.
  - eapply Hsep; [exact Ha|]. eapply Hmem; eassumption.
  - eapply Hsep; [exact Hb|]. eapply Hmem; eassumption.
  - eapply (IH i j); eauto.
Qed.

(** C7.  For distinct tokens, [set_tokens] makes
    [min(MAX_CONNECTIONS, ceil(N / MAX_TOKENS_PER_CONNECTION))] streams with
    the limits 3 and 3000; no stream holds more than 3000 tokens; two
    different streams share no token; and the streams' token lists, one
    after the other, are the first 9000 tokens of the input in input order
    (the whole input when it has at most 9000). *)
Theorem set_tokens_sharding (self : MultiTickerStream) (tokens : list Z) :
  NoDup tokens ->
  let result := shards (set_tokens self tokens) in
  MAX_CONNECTIONS = 3%nat /\ MAX_TOKENS_PER_CONNECTION = 3000%nat /\
  length (_streams (set_tokens self tokens))
  = Nat.min MAX_CONNECTIONS (ceil_div (length tokens) MAX_TOKENS_PER_CONNECTION) /\
  Forall (fun shard => (length shard <= MAX_TOKENS_PER_CONNECTION)%nat) result /\
  (forall i j a b t, i <> j -> result !! i = Some a -> result !! j = Some b ->
                     t ∈ a -> t ∉ b) /\
  concat result = take 9000 tokens.
Proof.
  intros Hnd result.
  assert (Hstep : (0 < MAX_TOKENS_PER_CONNECTION)%nat) by (unfold MAX_TOKENS_PER_CONNECTION; lia).
  assert (Hcat : concat result = take 9000 tokens).
  { unfold result. rewrite set_tokens_shards. unfold py_range.
    rewrite chunks_concat by lia. by rewrite drop_0. }
  split; [done|]. split; [done|]. split; [|split; [|split]].
  - transitivity (length result); [unfold result, shards; by rewrite length_fmap|].
    unfold result. rewrite set_tokens_shards, length_fmap. unfold py_range.
    rewrite range_from_length by lia. rewrite Nat.sub_0_r, length_take.
    change (MAX_TOKENS_PER_CONNECTION * MAX_CONNECTIONS)%nat
      with (3 * MAX_TOKENS_PER_CONNECTION)%nat.
    change MAX_CONNECTIONS with 3%nat. rewrite Nat.min_comm. by apply ceil_div_capped.
  - unfold result. rewrite set_tokens_shards. apply Forall_fmap, Forall_forall.
    intros i _. simpl. rewrite length_take. lia.
  - intros i j a b t Hij Hi Hj. eapply concat_disjoint; eauto.
    rewrite Hcat. eapply sublist_NoDup; [exact Hnd|]. apply sublist_take.
  - exact Hcat.
Qed.

(** Three tokens go to a single stream. *)
Lemma set_tokens_sharding_witness :
  NoDup [101; 102; 103] /\
  length (_streams (set_tokens (mkMulti [] ∅) [101; 102; 103])) = 1%nat /\
  concat (shards (set_tokens (mkMulti [] ∅) [101; 102; 103])) = [101; 102; 103].
Proof.
  assert (Hnd : NoDup [101; 102; 103]) by (by apply (bool_decide_unpack _)).
  split; [exact Hnd|].
  destruct (set_tokens_sharding (mkMulti [] ∅) [101; 102; 103] Hnd)
    as (_ & _ & Hlen & _ & _ & Hcat).
  split; [rewrite Hlen; reflexivity|]. rewrite Hcat. reflexivity.
Defined.

End TickerStreamFacts.

(** ** run_option_chain.py *)

Module RunOptionChainFacts.

Import RunOptionChain.
Local Open Scope Q_scope.

Lemma Qlt_bool_iff (a b : Q) : Qlt_bool a b = true <-> a < b.
Proof.
  unfold Qlt_bool. rewrite negb_true_iff. split.
  - intros H. apply Qnot_le_lt. intros Hle. apply Qle_bool_iff in Hle. congruence.
  - intros H. destruct (Qle_bool b a) eqn:E; [|done].
    apply Qle_bool_iff in E. lra.
Qed.

Lemma Qlt_bool_false (a b : Q) : b <= a -> Qlt_bool a b = false.
Proof.
  intros H. destruct (Qlt_bool a b) eqn:E; [|done].
  apply Qlt_bool_iff in E. lra.
Qed.




End RunOptionChainFacts.

(** ** csv_writer.py *)

Module CsvWriterFacts.

Import SnapshotBuilder CsvWriter.

(** *** File names determine their dates *)

Lemma append_cancel_l (p a b : string) : p +:+ a = p +:+ b -> a = b.
Proof. induction p as [|c p IH]; simpl; intros H; [done|]. injection H. auto. Qed.

Lemma digit_inj (a b : Z) : 0 <= a < 10 -> 0 <= b < 10 -> digit a = digit b -> a = b.
Proof.
  intros Ha Hb H. unfold digit in H. apply (f_equal N_of_ascii) in H.
  rewrite !N_ascii_embedding in H by lia. lia.
Qed.

Lemma pad2_inj (a b : Z) (r1 r2 : string) :
  0 <= a < 100 -> 0 <= b < 100 -> pad2 a r1 = pad2 b r2 -> a = b /\ r1 = r2.
Proof.
  intros Ha Hb H. unfold pad2 in H. injection H as H1 H2 H3.
  apply digit_inj in H1; [|apply Z.mod_pos_bound; lia..].
  apply digit_inj in H2; [|apply Z.mod_pos_bound; lia..].
  split; [|done]. Z.div_mod_to_equations. lia.
Qed.

Lemma pad4_inj (a b : Z) (r1 r2 : string) :
  0 <= a < 10000 -> 0 <= b < 10000 -> pad4 a r1 = pad4 b r2 -> a = b /\ r1 = r2.
Proof.
  intros Ha Hb H. unfold pad4, pad2 in H. injection H as H1 H2 H3 H4 H5.
  apply digit_inj in H1; [|apply Z.mod_pos_bound; lia..].
  apply digit_inj in H2; [|apply Z.mod_pos_bound; lia..].
  apply digit_inj in H3; [|apply Z.mod_pos_bound; lia..].
  apply digit_inj in H4; [|apply Z.mod_pos_bound; lia..].
  split; [|done]. Z.div_mod_to_equations. lia.
Qed.

Lemma strftime_Ymd_append_inj (a b : date) (r1 r2 : string) :
  valid_date a -> valid_date b ->
  strftime_Ymd a +:+ r1 = strftime_Ymd b +:+ r2 -> a = b /\ r1 = r2.
Proof.
  intros (Hy1 & Hm1 & Hd1) (Hy2 & Hm2 & Hd2) H.
  assert (Happ : forall d r, strftime_Ymd d +:+ r
                             = pad4 (year d) (pad2 (month d) (pad2 (day d) r))) by done.
  rewrite !Happ in H.
  apply pad4_inj in H as [Hy H]; [|lia..].
  apply pad2_inj in H as [Hm H]; [|lia..].
  apply pad2_inj in H as [Hd H]; [|lia..].
  split; [|done]. destruct a, b; simpl in *; congruence.
Qed.

Lemma file_for_inj (self : CSVWriter) (a b a' b' : date) :
  valid_date a -> valid_date b -> valid_date a' -> valid_date b' ->
  file_for self a b = file_for self a' b' -> a = a' /\ b = b'.
Proof.
  intros Ha Hb Ha' Hb' H. unfold file_for, path_join, _get_filename in H. simpl in H.
  do 6 apply append_cancel_l in H.
  apply strftime_Ymd_append_inj in H as [-> H]; [|done..].
  apply (append_cancel_l "_") in H.
  apply strftime_Ymd_append_inj in H as [-> _]; done.
Qed.

Lemma date_eqb_eq (a b : date) : date_eqb a b = true <-> a = b.
Proof.
  unfold date_eqb. rewrite !andb_true_iff, !Z.eqb_eq. split.
  - intros [[Hy Hm] Hd]. destruct a, b; simpl in *; congruence.
  - by intros ->.
Qed.

Lemma date_eqb_neq (a b : date) : a <> b -> date_eqb a b = false.
Proof.
  intros H. destruct (date_eqb a b) eqn:E; [|done]. by apply date_eqb_eq in E.
Qed.

(** *** Stepping through a method *)

(** Unfold one layer of the monad and compute. *)
Ltac run :=
  unfold bind, ret, get_self, get_world, modify_self, path_exists, raise,
         try_except, try_finally, io; simpl.

(** Only [writerows] calls count as flushes. *)
Lemma flush_count_record (c : io_call) (w : World) :
  flush_count (record_call c w)
  = (flush_count w + if is_writerows c then 1 else 0)%nat.
Proof.
  unfold flush_count, record_call. simpl. rewrite List.filter_app, length_app. simpl.
  destruct (is_writerows c); simpl; lia.
Qed.

Lemma flush_count_set_fs f (w : World) : flush_count (set_fs f w) = flush_count w.
Proof. reflexivity. Qed.

Lemma frame_refl st : frame st st.
Proof. by constructor. Qed.

Lemma frame_trans st1 st2 st3 : frame st1 st2 -> frame st2 st3 -> frame st1 st3.
Proof. intros [] []. constructor; congruence. Qed.

(** Goals [frame st st'] where [st'] is [st] after recorded calls and field
    updates outside the frame. *)
Ltac frame_tac :=
  constructor; simpl;
  repeat (rewrite flush_count_set_fs || rewrite flush_count_record); simpl;
  first [done | lia].

(** *** What each helper guarantees whatever calls raise *)

(** [_close_file] never raises: both of its calls sit in a [try]. *)
Lemma close_file_coarse (st : World * CSVWriter) :
  exists st', _close_file st = (st', Ok tt) /\ frame st st' /\
    fs st'.1 = fs st.1 /\
    _file_handle st'.2 = None /\
    (_csv_writer st.2 = _file_handle st.2 -> _csv_writer st'.2 = None) /\
    _start_date st'.2 = _start_date st.2 /\
    _current_file st'.2 = _current_file st.2 /\
    _last_flush_time st'.2 = _last_flush_time st.2.
Proof.
  destruct st as [w s]. unfold _close_file. run.
  destruct (_file_handle s) as [h|] eqn:Hh; run.
  - destruct (faults w OpFlush) eqn:Hf; run;
      [|destruct (faults w OpClose) eqn:Hc; run].
    all: eexists; (split; [reflexivity|]); (split; [frame_tac|]); simpl; repeat split; done.
  - eexists; split; [reflexivity|]. split; [apply frame_refl|]. simpl.
    repeat split; done.
Qed.

(** [_open_file] returns with the file of [d] open, provided [open] and the
    header write do not raise. *)
Lemma open_file_coarse (d : date) (st : World * CSVWriter) :
  faults st.1 OpOpen = false -> faults st.1 OpWriteHeader = false ->
  exists st', _open_file d st = (st', Ok tt) /\ frame st st' /\
    exists p, _file_handle st'.2 = Some p /\ _csv_writer st'.2 = Some p /\
              _current_file st'.2 = Some p /\ _start_date st'.2 = Some d /\
              _last_flush_time st'.2 = Some (now st.1).
Proof.
  intros Ho Hh. unfold _open_file. unfold bind at 1.
  destruct (close_file_coarse st) as ([w1 s1] & -> & Hfr & _).
  pose proof (fr_faults _ _ Hfr) as Hfaults. simpl in Hfaults.
  run. rewrite Hfaults, Ho.
  destruct (bool_decide _) eqn:Hex; run.
  - eexists; split; [reflexivity|]. split.
    + eapply frame_trans; [exact Hfr|]. frame_tac.
    + eexists. simpl. repeat split. f_equal. apply (fr_now _ _ Hfr).
  - rewrite Hfaults, Hh. eexists; split; [reflexivity|]. split.
    + eapply frame_trans; [exact Hfr|]. frame_tac.
    + eexists. simpl. repeat split. f_equal. apply (fr_now _ _ Hfr).
Qed.

(** [_rename_with_end_date] never raises: a failing rename is caught. *)
Lemma rename_coarse (st : World * CSVWriter) :
  exists st', _rename_with_end_date st = (st', Ok tt) /\ frame st st' /\
    _start_date st'.2 = _start_date st.2.
Proof.
  assert (Hskip : exists st', (st, Ok tt) = (st', Ok tt) /\ frame st st' /\
                    _start_date st'.2 = _start_date st.2).
  { exists st. split; [reflexivity|]. split; [apply frame_refl|done]. }
  unfold _rename_with_end_date. unfold bind at 1, get_self.
  destruct (_current_file st.2) as [cur|]; [|exact Hskip].
  destruct (_start_date st.2) as [sd|] eqn:Hsd; [|exact Hskip].
  unfold bind at 1, get_world.
  destruct (negb _); [|exact Hskip]. clear Hskip.
  unfold try_except, bind at 1.
  destruct (close_file_coarse st) as ([w1 s1] & -> & Hfr & _ & _ & _ & Hs & _).
  simpl in Hs. run.
  destruct (_ && _); run; [destruct (faults w1 OpRename); run|];
    (eexists; split; [reflexivity|]; split;
      [eapply frame_trans; [exact Hfr|]; frame_tac | simpl; congruence]).
Qed.

(** [_check_rollover] leaves a writer that has a start date on today's
    date. *)
Lemma check_rollover_coarse (st : World * CSVWriter) :
  faults st.1 OpOpen = false -> faults st.1 OpWriteHeader = false -> wf st.2 ->
  exists st', _check_rollover st = (st', Ok tt) /\ frame st st' /\ wf st'.2 /\
    (_start_date st.2 <> None -> _start_date st'.2 = Some (today st.1)) /\
    (_start_date st.2 = None -> st' = st).
Proof.
  intros Ho Hh Hwf. unfold _check_rollover. unfold bind at 1, get_world.
  unfold bind at 1, get_self.
  destruct (_start_date st.2) as [sd|] eqn:Hsd.
  - destruct (date_eqb sd (today st.1)) eqn:Hd; simpl.
    + eexists; split; [reflexivity|]. split; [apply frame_refl|]. split; [done|].
      split; [|done]. intros _. rewrite Hsd. f_equal. by apply date_eqb_eq.
    + unfold bind at 1.
      destruct (rename_coarse st) as (st1 & -> & Hfr1 & _).
      destruct (open_file_coarse (today st.1) st1)
        as (st2 & -> & Hfr2 & p & H1 & H2 & _ & H4 & _).
      { rewrite (fr_faults _ _ Hfr1). done. }
      { rewrite (fr_faults _ _ Hfr1). done. }
      eexists; split; [reflexivity|]. split; [eapply frame_trans; eassumption|].
      split; [|split; [done|done]].
      split; congruence.
  - eexists; split; [reflexivity|]. split; [apply frame_refl|]. done.
Qed.

(** A flush of a non-empty buffer, whatever the buffer write does: it
    returns normally, makes exactly one [writerows] call, empties the
    buffer, stamps the flush time and leaves today's file open.  The rows
    are counted only when neither the write nor the handle's flush raised. *)
Lemma do_flush_coarse (st : World * CSVWriter) :
  _buffer st.2 <> [] ->
  faults st.1 OpOpen = false -> faults st.1 OpWriteHeader = false -> wf st.2 ->
  exists st', _do_flush st = (st', Ok tt) /\
    today st'.1 = today st.1 /\ now st'.1 = now st.1 /\ faults st'.1 = faults st.1 /\
    output_dir st'.2 = output_dir st.2 /\ underlying st'.2 = underlying st.2 /\
    venue st'.2 = venue st.2 /\ flush_rows st'.2 = flush_rows st.2 /\
    flush_interval_seconds st'.2 = flush_interval_seconds st.2 /\
    _buffer st'.2 = [] /\
    flush_count st'.1 = S (flush_count st.1) /\
    _last_flush_time st'.2 = Some (now st.1) /\
    (exists p, _csv_writer st'.2 = Some p /\ _file_handle st'.2 = Some p) /\
    _start_date st'.2 = Some (today st.1) /\
    _rows_written st'.2
    = (if faults st.1 OpWriteRows || faults st.1 OpFlush then _rows_written st.2
       else _rows_written st.2 + Z.of_nat (length (_buffer st.2))).
Proof.
  intros Hbuf Ho Hh Hwf. unfold _do_flush. unfold bind at 1, get_self.
  destruct (_buffer st.2) as [|b bs] eqn:Hb; [done|clear Hbuf].
  unfold bind at 1.
  destruct (check_rollover_coarse st Ho Hh Hwf) as (st1 & -> & Hfr1 & Hwf1 & Hsd1 & Hsame).
  unfold bind at 1, get_self. unfold bind at 1.
  assert (exists st2, (match _csv_writer st1.2 with
                       | Some _ => ret tt
                       | None => w <- get_world;; _open_file (today w)
                       end) st1 = (st2, Ok tt) /\ frame st1 st2 /\
            (exists p, _csv_writer st2.2 = Some p /\ _file_handle st2.2 = Some p) /\
            _start_date st2.2 = Some (today st.1))
    as (st2 & -> & Hfr2 & (p & Hcw & Hfh) & Hsd2).
  { destruct (_csv_writer st1.2) as [cw|] eqn:Hcw.
    - eexists; split; [reflexivity|]. split; [apply frame_refl|]. split.
      + exists cw. destruct Hwf1 as [Heq _]. split; congruence.
      + apply Hsd1. intros Hnone. specialize (Hsame Hnone). subst st1.
        destruct Hwf as [_ Hw]. specialize (Hw Hnone). congruence.
    - unfold bind, get_world.
      destruct (open_file_coarse (today st1.1) st1)
        as (st2 & -> & Hfr2 & p & H1 & H2 & _ & H4 & _).
      { rewrite (fr_faults _ _ Hfr1). done. }
      { rewrite (fr_faults _ _ Hfr1). done. }
      eexists; split; [reflexivity|]. split; [done|]. split; [eauto|].
      rewrite H4. f_equal. apply (fr_today _ _ Hfr1). }
  pose proof (frame_trans _ _ _ Hfr1 Hfr2) as [Ht Hn Hfa Hfl Hod Hun Hve Hfro Hin Hbu Hrw].
  destruct st as [w s], st2 as [w2 s2]. simpl in *.
  run. rewrite Hcw. run. rewrite Hfa.
  destruct (faults w OpWriteRows) eqn:Hfw; run.
  - eexists; split; [reflexivity|]. simpl.
    rewrite flush_count_record. simpl. repeat split; try congruence; try lia; eauto.
  - rewrite Hfh. run. rewrite Hfa.
    destruct (faults w OpFlush) eqn:Hff; run.
    + eexists; split; [reflexivity|]. simpl.
      repeat (rewrite flush_count_set_fs || rewrite flush_count_record). simpl.
      repeat split; try congruence; try lia; eauto.
    + eexists; split; [reflexivity|]. simpl.
      repeat (rewrite flush_count_set_fs || rewrite flush_count_record). simpl.
      repeat split; try congruence; try lia; eauto.
      rewrite Hrw, Hbu, Hb. reflexivity.
Qed.

Arguments _do_flush : simpl never.
Arguments path_join : simpl never.
Arguments _get_filename : simpl never.
Arguments file_for : simpl never.

(** *** Exact runs in a healthy world *)

(** The trace and the files after each helper, when no call raises. *)
Lemma world_with_nil (w : World) : world_with (fs w) [] w = w.
Proof. destruct w. unfold world_with. simpl. by rewrite app_nil_r. Qed.

Lemma io_exact (op : io_op) (call : io_call)
    (effect : gmap string (list (list string)) -> gmap string (list (list string)))
    (f : gmap string (list (list string))) (calls : list io_call)
    (w : World) (s : CSVWriter) :
  faults w op = false ->
  io op call effect (world_with f calls w, s)
  = ((world_with (effect f) (calls ++ [call]) w, s), Ok tt).
Proof.
  intros Hop. unfold io, world_with, set_fs, record_call. simpl. rewrite Hop.
  by rewrite <- app_assoc.
Qed.

Lemma close_file_exact (f : gmap string (list (list string))) (calls : list io_call)
    (w : World) (s : CSVWriter) (h : string) :
  healthy w -> _file_handle s = Some h ->
  _close_file (world_with f calls w, s)
  = ((world_with f (calls ++ [CallFlush h; CallClose h]) w,
      set_csv_writer None (set_file_handle None s)), Ok tt).
Proof.
  intros Hh Hfh. unfold _close_file, bind at 1, get_self. simpl. rewrite Hfh.
  unfold try_finally, try_except, bind at 1.
  rewrite io_exact by apply Hh. rewrite io_exact by apply Hh.
  unfold bind, modify_self. simpl. by rewrite <- app_assoc.
Qed.

Lemma close_file_closed (st : World * CSVWriter) :
  _file_handle st.2 = None -> _close_file st = (st, Ok tt).
Proof. intros Hfh. unfold _close_file, bind, get_self. by rewrite Hfh. Qed.

Lemma get_filename_today (s : CSVWriter) (d : date) :
  _get_filename s d None = _get_filename s d (Some d).
Proof. reflexivity. Qed.

Lemma open_file_exact (d : date) (f : gmap string (list (list string)))
    (calls : list io_call) (w : World) (s : CSVWriter) :
  healthy w -> _file_handle s = None ->
  let path := file_for s d d in
  _open_file d (world_with f calls w, s)
  = ((world_with (open_append path f)
        (calls ++ CallOpen path
           :: (if bool_decide (is_Some (f !! path)) then [] else [CallWriterow path COLUMNS]))
        w,
      opened path d (now w) s), Ok tt).
Proof.
  intros Hh Hfh path. unfold _open_file, bind at 1.
  rewrite close_file_closed by done.
  unfold bind at 1, modify_self. unfold bind at 1, get_self.
  unfold bind at 1. unfold bind at 1, path_exists.
  cbn [fst snd]. unfold bind at 1.
  change (path_join _ _) with path.
  rewrite io_exact by apply Hh.
  unfold bind at 1. unfold bind at 1. unfold bind at 1.
  cbn [fst snd world_with fs].
  unfold open_append. fold path.
  destruct (bool_decide (is_Some (f !! path))); cbn [negb].
  - unfold bind, ret, get_world. simpl. reflexivity.
  - unfold bind at 1. cbn [fst snd].
    change (mkWorld ?a (today w) (now w) (faults w) (trace w ++ ?c)) with (world_with a c w).
    rewrite io_exact by apply Hh.
    unfold bind, get_world, modify_self. simpl. by rewrite <- app_assoc.
Qed.

Lemma rename_exact (f : gmap string (list (list string))) (calls : list io_call)
    (w : World) (s : CSVWriter) (cur h : string) (sd : date) :
  healthy w -> _current_file s = Some cur -> _start_date s = Some sd ->
  sd <> today w -> _file_handle s = Some h ->
  let new_path := file_for s sd (today w) in
  _rename_with_end_date (world_with f calls w, s)
  = ((world_with (rollover_rename cur new_path f)
        (calls ++ [CallFlush h; CallClose h]
           ++ (if renames cur new_path f then [CallRename cur new_path] else []))
        w,
      (if renames cur new_path f then set_current_file (Some new_path) else id)
        (set_csv_writer None (set_file_handle None s))), Ok tt).
Proof.
  intros Hh Hcf Hsd Hne Hfh new_path.
  unfold _rename_with_end_date, bind at 1, get_self. cbn [fst snd].
  rewrite Hcf, Hsd. unfold bind at 1, get_world. cbn [fst snd world_with today].
  rewrite (date_eqb_neq (today w) sd) by congruence. cbn [negb].
  unfold try_except, bind at 1. rewrite (close_file_exact _ _ _ _ h) by done.
  unfold bind at 1, path_exists. unfold bind at 1. cbn [fst snd world_with fs].
  change (path_join _ _) with new_path.
  unfold rollover_rename, renames.
  destruct (bool_decide (is_Some (f !! cur)) && negb (bool_decide (is_Some (f !! new_path)))).
  - unfold bind at 1.
    change (mkWorld ?a (today w) (now w) (faults w) (trace w ++ ?c)) with (world_with a c w).
    rewrite io_exact by apply Hh.
    unfold modify_self. simpl. by rewrite <- app_assoc.
  - unfold ret. simpl. reflexivity.
Qed.

Lemma file_for_config (s s' : CSVWriter) (a b : date) :
  output_dir s' = output_dir s -> underlying s' = underlying s -> venue s' = venue s ->
  file_for s' a b = file_for s a b.
Proof.
  intros H1 H2 H3. unfold file_for, path_join, _get_filename. by rewrite H1, H2, H3.
Qed.

(** The flush that rolls over, step by step. *)
Lemma rollover_flush_exact (w : World) (s : CSVWriter) (D : date) :
  opened_on s D -> _buffer s <> [] -> D <> today w -> healthy w ->
  let old := file_for s D D in
  let target := file_for s D (today w) in
  let fresh := file_for s (today w) (today w) in
  let f1 := rollover_rename old target (fs w) in
  flush (w, s)
  = ((world_with (append_rows fresh (_buffer s) (open_append fresh f1))
        ([CallFlush old; CallClose old]
           ++ (if renames old target (fs w) then [CallRename old target] else [])
           ++ CallOpen fresh
              :: (if bool_decide (is_Some (f1 !! fresh)) then []
                  else [CallWriterow fresh COLUMNS])
           ++ [CallWriterows fresh (_buffer s); CallFlush fresh])
        w,
      set_last_flush_time (Some (now w))
        (set_buffer []
           (set_rows_written (_rows_written s + Z.of_nat (length (_buffer s)))
              (opened fresh (today w) (now w) s)))), Ok tt).
Proof.
  intros (Hsd & Hcf & Hfh & Hcw) Hbuf Hne Hh old target fresh f1.
  rewrite <- (world_with_nil w) at 1.
  unfold flush, _do_flush, bind at 1, get_self. cbn [fst snd].
  destruct (_buffer s) as [|b bs] eqn:Hb; [done|clear Hbuf].
  unfold bind at 1. unfold _check_rollover, bind at 1, get_world.
  unfold bind at 1, get_self. cbn [fst snd world_with today]. rewrite Hsd.
  rewrite (date_eqb_neq D (today w)) by done. cbn [negb].
  unfold bind at 1. rewrite (rename_exact _ _ _ _ old old D) by done.
  fold target. fold f1.
  rewrite open_file_exact; [|done|by destruct (renames old target (fs w))].
  assert (Hfresh : file_for ((if renames old target (fs w)
                              then set_current_file (Some target) else id)
                               (set_csv_writer None (set_file_handle None s)))
                            (today w) (today w) = fresh).
  { apply file_for_config; by destruct (renames old target (fs w)). }
  rewrite Hfresh.
  unfold bind at 1, get_self. unfold bind at 1. cbn [fst snd].
  unfold opened at 1. cbn [_csv_writer set_last_flush_time set_csv_writer].
  unfold ret at 1.
  unfold try_finally, try_except. unfold bind at 1, get_self. cbn [fst snd].
  unfold opened at 1. cbn [_csv_writer set_last_flush_time set_csv_writer].
  unfold bind at 1. rewrite io_exact by apply Hh.
  unfold opened at 1. cbn [_file_handle set_last_flush_time set_csv_writer set_file_handle].
  unfold bind at 1. rewrite io_exact by apply Hh.
  unfold bind, modify_self, get_world. cbn [fst snd world_with now id].
  rewrite <- Hb. rewrite <- !app_assoc.
  destruct (renames old target (fs w)); reflexivity.
Qed.

(** *** Buffering and flushing *)

Section Writing.
Context (py_str : pyval -> string).

Lemma wf_set_buffer (b : list (list string)) (s : CSVWriter) : wf s -> wf (set_buffer b s).
Proof. done. Qed.

Lemma buffer_set_buffer (b : list (list string)) (s : CSVWriter) :
  _buffer (set_buffer b s) = b.
Proof. done. Qed.

Lemma set_buffer_twice (b b' : list (list string)) (s : CSVWriter) :
  set_buffer b (set_buffer b' s) = set_buffer b s.
Proof. done. Qed.

Lemma write_row_buffers (row : gmap string pyval) (w : World) (s : CSVWriter) :
  Z.of_nat (length (_buffer s)) + 1 < flush_rows s ->
  write_row py_str row (w, s)
  = ((w, set_buffer (_buffer s ++ [format_row py_str row]) s), Ok tt).
Proof.
  intros Hlen. unfold write_row. run.
  rewrite length_app. simpl.
  destruct (Z.geb_spec (Z.of_nat (length (_buffer s) + 1)) (flush_rows s)); [lia|done].
Qed.

Lemma write_row_flushes (row : gmap string pyval) (w : World) (s : CSVWriter) :
  flush_rows s <= Z.of_nat (length (_buffer s)) + 1 ->
  write_row py_str row (w, s)
  = _do_flush (w, set_buffer (_buffer s ++ [format_row py_str row]) s).
Proof.
  intros Hlen. unfold write_row. run.
  rewrite length_app. simpl.
  destruct (Z.geb_spec (Z.of_nat (length (_buffer s) + 1)) (flush_rows s)); [done|lia].
Qed.

Lemma write_each_buffers (rows : list (gmap string pyval)) (w : World) (s : CSVWriter) :
  Z.of_nat (length (_buffer s)) + Z.of_nat (length rows) < flush_rows s ->
  write_each py_str rows (w, s)
  = ((w, set_buffer (_buffer s ++ (format_row py_str <$> rows)) s), Ok tt).
Proof.
  revert s. induction rows as [|row rows IH]; intros s Hlen; simpl.
  - rewrite app_nil_r. by destruct s.
  - unfold bind. simpl in Hlen. rewrite write_row_buffers by lia.
    rewrite IH.
    + simpl. by rewrite <- app_assoc.
    + simpl. rewrite length_app. simpl. lia.
Qed.

Lemma write_each_app (rows rows' : list (gmap string pyval)) (st : World * CSVWriter) :
  write_each py_str (rows ++ rows') st
  = bind (write_each py_str rows) (fun _ => write_each py_str rows') st.
Proof.
  revert st. induction rows as [|row rows IH]; intros st; simpl.
  - reflexivity.
  - unfold bind in *. destruct (write_row py_str row st) as [st1 [[]|e]]; [|done].
    apply IH.
Qed.

Lemma elapsed_since_flush (interval : Q) (last t t' : Z) :
  last <= t -> (interval <= (t' - t) # 1000000)%Q ->
  Qle_bool interval ((t' - last) # 1000000) = true.
Proof.
  intros Hl Hw. apply Qle_bool_iff. eapply Qle_trans; [exact Hw|].
  unfold Qle. simpl. lia.
Qed.

(** C2, as the code behaves.  For a writer whose buffer is below
    [flush_rows], writing exactly [flush_rows] rows one by one makes exactly
    one flush, and the buffer ends as long as it started (empty when it
    started empty).  For a writer with an empty buffer that has a recorded
    last flush time, writing one row and waiting at least
    [flush_interval_seconds] makes exactly one flush in all, and when
    [flush_rows] exceeds 1 that flush is made by the [check_time_flush]
    call.  For a writer without a last flush time [check_time_flush] does
    nothing. *)
Theorem flush_triggers (s : CSVWriter) (w : World) :
  wf s -> faults w OpOpen = false -> faults w OpWriteHeader = false ->
  (forall rows : list (gmap string pyval),
     Z.of_nat (length (_buffer s)) < flush_rows s ->
     Z.of_nat (length rows) = flush_rows s ->
     exists w' s',
       write_each py_str rows (w, s) = ((w', s'), Ok tt) /\
       flush_count w' = S (flush_count w) /\
       length (_buffer s') = length (_buffer s)) /\
  (forall (row : gmap string pyval) (last : Z) (d' : date) (t' : Z),
     _buffer s = [] ->
     _last_flush_time s = Some last -> last <= now w ->
     (flush_interval_seconds s <= (t' - now w) # 1000000)%Q ->
     exists w1 s1 w2 s2,
       write_row py_str row (w, s) = ((w1, s1), Ok tt) /\
       check_time_flush (set_clock d' t' w1, s1) = ((w2, s2), Ok tt) /\
       flush_count w2 = S (flush_count w) /\
       _buffer s2 = [] /\
       (1 < flush_rows s -> flush_count w1 = flush_count w /\ _buffer s1 <> [])) /\
  (forall w2 : World,
     _last_flush_time s = None -> check_time_flush (w2, s) = ((w2, s), Ok tt)).
Proof.
  intros Hwf Ho Hh. split; [|split].
  - intros rows Hk Hn.
    set (k := length (_buffer s)) in *.
    assert (Hsplit : rows = take (length rows - k - 1) rows
                            ++ drop (length rows - k - 1) rows)
      by (by rewrite take_drop).
    destruct (drop (length rows - k - 1) rows) as [|x r2] eqn:Hdrop.
    { apply (f_equal length) in Hdrop. rewrite length_drop in Hdrop. simpl in Hdrop. lia. }
    assert (Hr2 : length r2 = k).
    { apply (f_equal length) in Hdrop. rewrite length_drop in Hdrop. simpl in Hdrop. lia. }
    set (r1 := take (length rows - k - 1) rows) in *.
    assert (Hr1 : (length r1 + k + 1 = length rows)%nat).
    { unfold r1. rewrite length_take. lia. }
    rewrite Hsplit, write_each_app. unfold bind.
    rewrite write_each_buffers by (fold k; lia).
    simpl. unfold bind.
    rewrite write_row_flushes by (simpl; rewrite length_app, length_fmap; fold k; lia).
    rewrite buffer_set_buffer, set_buffer_twice.
    destruct (do_flush_coarse
                (w, set_buffer ((_buffer s ++ (format_row py_str <$> r1))
                                  ++ [format_row py_str x]) s))
      as ([w1 s1] & -> & _ & _ & _ & _ & _ & _ & Hfr & _ & Hb & Hc & _); simpl; try done.
    { by destruct (_buffer s ++ _). }
    simpl in *.
    rewrite write_each_buffers by (rewrite Hb; simpl; lia).
    eexists _, _. split; [reflexivity|]. split; [done|].
    simpl. rewrite Hb. simpl. by rewrite length_fmap.
  - intros row last d' t' Hbuf Hlast Hle Hwait.
    destruct (Z_lt_le_dec 1 (flush_rows s)) as [Hfr|Hfr].
    + rewrite write_row_buffers by (rewrite Hbuf; simpl; lia).
      rewrite Hbuf, app_nil_l.
      destruct (do_flush_coarse (set_clock d' t' w, set_buffer [format_row py_str row] s))
        as ([w2 s2] & Hrun & _ & _ & _ & _ & _ & _ & _ & _ & Hb & Hc & _); simpl; try done.
      exists w, (set_buffer [format_row py_str row] s), w2, s2.
      split; [done|]. split.
      { unfold check_time_flush. run. rewrite Hlast. simpl.
        rewrite (elapsed_since_flush _ _ _ _ Hle Hwait). exact Hrun. }
      simpl in *. repeat split; done.
    + rewrite write_row_flushes by (rewrite Hbuf; simpl; lia).
      rewrite Hbuf, app_nil_l.
      destruct (do_flush_coarse (w, set_buffer [format_row py_str row] s))
        as ([w1 s1] & -> & _ & Hnow & _ & _ & _ & _ & _ & Hint & Hb & Hc & Hlf & _);
        simpl; try done.
      simpl in *.
      exists w1, s1, (set_clock d' t' w1), s1.
      split; [done|]. split.
      { unfold check_time_flush. run. rewrite Hlf, Hint. simpl.
        assert (Hel : Qle_bool (flush_interval_seconds s) ((t' - now w) # 1000000) = true)
          by (by apply Qle_bool_iff).
        rewrite Hel. simpl. by rewrite Hb. }
      simpl. repeat split; try done; lia.
  - intros w2 Hnone. unfold check_time_flush. run. by rewrite Hnone.
Qed.


Lemma write_rows_buffers (rows : list (gmap string pyval)) (w : World) (s : CSVWriter) :
  Z.of_nat (length (_buffer s)) + Z.of_nat (length rows) < flush_rows s ->
  write_rows py_str rows (w, s)
  = ((w, set_buffer (_buffer s ++ (format_row py_str <$> rows)) s), Ok tt).
Proof.
  intros Hlen. unfold write_rows. run.
  rewrite length_app, length_map.
  destruct (Z.geb_spec (Z.of_nat (length (_buffer s) + length rows)) (flush_rows s)); [lia|done].
Qed.

(** A flush with the file of today open and no failing write appends the
    buffer to that file and counts its rows. *)
Lemma do_flush_steady (w : World) (s : CSVWriter) (p : string) :
  _buffer s <> [] ->
  _start_date s = Some (today w) -> _csv_writer s = Some p -> _file_handle s = Some p ->
  faults w OpWriteRows = false -> faults w OpFlush = false ->
  exists w' s', _do_flush (w, s) = ((w', s'), Ok tt) /\
    fs w' = append_rows p (_buffer s) (fs w) /\
    trace w' = trace w ++ [CallWriterows p (_buffer s); CallFlush p] /\
    _rows_written s' = _rows_written s + Z.of_nat (length (_buffer s)) /\
    _buffer s' = [] /\
    _csv_writer s' = Some p /\ _file_handle s' = Some p /\
    _start_date s' = Some (today w) /\ _current_file s' = _current_file s.
Proof.
  intros Hbuf Hsd Hcw Hfh Hfw Hff. unfold _do_flush, _check_rollover. run.
  destruct (_buffer s) as [|b bs] eqn:Hb; [done|]. run.
  rewrite Hsd. simpl.
  assert (Hd : date_eqb (today w) (today w) = true) by (by apply date_eqb_eq).
  rewrite Hd. run. rewrite Hcw. run. rewrite Hcw. simpl. rewrite Hfw. simpl.
  rewrite Hfh. simpl. rewrite Hff. simpl. rewrite Hb.
  eexists _, _. split; [reflexivity|]. simpl.
  repeat split; try done. by rewrite <- app_assoc.
Qed.

(** The failure the [try] of [_do_flush] covers.  When the buffer write of
    a flush raises, the flush still returns normally, the buffer is empty
    afterwards and its rows are not counted as written.  The writer stays usable: rows written afterwards are buffered
    as usual, and once writes succeed again a flush on the same day appends
    exactly the rows buffered since the failure to the current file. *)
Theorem write_failure_drops_buffer (s : CSVWriter) (w : World) :
  wf s -> _buffer s <> [] ->
  faults w OpOpen = false -> faults w OpWriteHeader = false ->
  faults w OpWriteRows = true \/ faults w OpFlush = true ->
  exists w' s' p,
    flush (w, s) = ((w', s'), Ok tt) /\
    _buffer s' = [] /\
    _rows_written s' = _rows_written s /\
    flush_rows s' = flush_rows s /\
    wf s' /\ _csv_writer s' = Some p /\
    (forall (w2 : World) (rows : list (gmap string pyval)),
       Z.of_nat (length rows) < flush_rows s ->
       write_rows py_str rows (w2, s')
       = ((w2, set_buffer (format_row py_str <$> rows) s'), Ok tt) /\
       write_each py_str rows (w2, s')
       = ((w2, set_buffer (format_row py_str <$> rows) s'), Ok tt)) /\
    (forall (w2 : World) (buffered : list (list string)),
       buffered <> [] -> today w2 = today w ->
       faults w2 OpWriteRows = false -> faults w2 OpFlush = false ->
       exists w3 s3,
         flush (w2, set_buffer buffered s') = ((w3, s3), Ok tt) /\
         fs w3 = append_rows p buffered (fs w2) /\
         _rows_written s3 = _rows_written s + Z.of_nat (length buffered) /\
         _buffer s3 = []).
Proof.
  intros Hwf Hbuf Ho Hh Hfail.
  destruct (do_flush_coarse (w, s) Hbuf Ho Hh Hwf)
    as ([w' s'] & Hrun & Ht & _ & _ & _ & _ & _ & Hfr & _ & Hb & _ & _
        & (p & Hcw & Hfh) & Hsd & Hrw).
  simpl in *.
  exists w', s', p. split; [exact Hrun|]. split; [done|]. split.
  { rewrite Hrw. destruct Hfail as [-> | ->]; [done|]. by rewrite orb_true_r. }
  split; [done|]. split.
  { split; [congruence|]. intros Hn. congruence. }
  split; [done|]. split.
  - intros w2 rows Hlen. split.
    + rewrite write_rows_buffers by (rewrite Hb; simpl; lia). by rewrite Hb.
    + rewrite write_each_buffers by (rewrite Hb; simpl; lia). by rewrite Hb.
  - intros w2 buffered Hne Hday Hfw Hff.
    destruct (do_flush_steady w2 (set_buffer buffered s') p)
      as (w3 & s3 & Hrun3 & Hfs & _ & Hrw3 & Hb3 & _); simpl; try done.
    { by rewrite Hday. }
    exists w3, s3. split; [exact Hrun3|]. split; [done|].
    simpl in *. split; [|done]. rewrite Hrw3, Hrw.
    destruct Hfail as [-> | ->]; [done|]. by rewrite orb_true_r.
Qed.

End Writing.

(** *** Rollover *)

(** The files after each step, read path by path. *)
Lemma rollover_rename_lookup (src dst q : string) (f : gmap string (list (list string))) :
  src <> dst ->
  rollover_rename src dst f !! q
  = if renames src dst f
    then (if decide (q = dst) then f !! src else if decide (q = src) then None else f !! q)
    else f !! q.
Proof.
  intros Hne. unfold rollover_rename, renames, rename_file.
  destruct (bool_decide (is_Some (f !! src))) eqn:Hs; simpl; [|done].
  destruct (bool_decide (is_Some (f !! dst))); simpl; [done|].
  apply bool_decide_eq_true in Hs as [c Hc]. rewrite Hc.
  destruct (decide (q = dst)) as [->|Hq].
  - by rewrite lookup_insert_eq.
  - rewrite lookup_insert_ne by done.
    destruct (decide (q = src)) as [->|Hq'].
    + by rewrite lookup_delete_eq.
    + by rewrite lookup_delete_ne.
Qed.

Lemma open_append_lookup (path q : string) (f : gmap string (list (list string))) :
  open_append path f !! q
  = if decide (q = path) then Some (default [COLUMNS] (f !! path)) else f !! q.
Proof.
  unfold open_append, create_if_missing, append_rows.
  destruct (f !! path) as [c|] eqn:Hp.
  - rewrite bool_decide_eq_true_2 by eauto.
    destruct (decide (q = path)) as [->|Hq]; [by rewrite Hp|done].
  - rewrite bool_decide_eq_false_2 by (intros [? ?]; congruence).
    destruct (decide (q = path)) as [->|Hq].
    + rewrite lookup_alter_eq, lookup_insert_eq. done.
    + rewrite lookup_alter_ne by done. by rewrite lookup_insert_ne.
Qed.

Lemma append_rows_lookup (path q : string) (rows : list (list string))
    (f : gmap string (list (list string))) :
  append_rows path rows f !! q
  = if decide (q = path) then (fun old => old ++ rows) <$> f !! path else f !! q.
Proof.
  unfold append_rows. destruct (decide (q = path)) as [->|Hq].
  - by rewrite lookup_alter_eq.
  - by rewrite lookup_alter_ne.
Qed.

(** The rollover as the code performs it.  A writer opened on date [D]
    with a non-empty buffer is flushed when the calendar shows another date.  The flush
    closes the open file; it renames that file exactly when it still exists
    and the target name is free, and the target name keeps START = [D] and
    takes END = the current date (for a flush on [D + 1] the END segment is
    [D + 1]); an existing target is left as it is and the old file keeps its
    name.  Then the file with START = END = the current date is opened, with
    a header row when it is new, and receives the buffered rows. *)
Theorem rollover_renames_to_today (s : CSVWriter) (w : World) (D : date) :
  opened_on s D -> _buffer s <> [] ->
  valid_date D -> valid_date (today w) -> D <> today w -> healthy w ->
  let old := file_for s D D in
  let target := file_for s D (today w) in
  let fresh := file_for s (today w) (today w) in
  let renamed := renames old target (fs w) in
  exists w' s',
    flush (w, s) = ((w', s'), Ok tt) /\
    (renamed = true <-> is_Some (fs w !! old) /\ fs w !! target = None) /\
    trace w'
    = trace w ++ [CallFlush old; CallClose old]
        ++ (if renamed then [CallRename old target] else [])
        ++ CallOpen fresh
           :: (if bool_decide (is_Some (fs w !! fresh)) then []
               else [CallWriterow fresh COLUMNS])
        ++ [CallWriterows fresh (_buffer s); CallFlush fresh] /\
    fs w' !! target = (if renamed then fs w !! old else fs w !! target) /\
    fs w' !! old = (if renamed then None else fs w !! old) /\
    fs w' !! fresh = Some (default [COLUMNS] (fs w !! fresh) ++ _buffer s) /\
    opened_on s' (today w) /\
    _current_file s' = Some fresh /\
    _buffer s' = [] /\
    _rows_written s' = _rows_written s + Z.of_nat (length (_buffer s)).
Proof.
  intros Hop Hbuf HvD HvT Hne Hh old target fresh renamed.
  assert (Hot : old <> target).
  { intros H. apply file_for_inj in H as [_ H]; done. }
  assert (Hfo : fresh <> old).
  { intros H. apply file_for_inj in H as [H _]; done. }
  assert (Hft : fresh <> target).
  { intros H. apply file_for_inj in H as [H _]; done. }
  assert (Hf1 : rollover_rename old target (fs w) !! fresh = fs w !! fresh).
  { rewrite rollover_rename_lookup by done.
    destruct (renames old target (fs w)); [|done].
    by rewrite !decide_False. }
  eexists _, _. split; [by apply rollover_flush_exact|].
  fold old target fresh. fold renamed. cbn [fst snd world_with fs trace].
  split.
  { unfold renamed, renames. rewrite andb_true_iff, negb_true_iff.
    rewrite bool_decide_eq_true, bool_decide_eq_false.
    rewrite <- eq_None_not_Some. done. }
  split; [by rewrite Hf1|].
  rewrite !append_rows_lookup, !open_append_lookup, Hf1.
  rewrite !rollover_rename_lookup by done. fold renamed.
  repeat split; try done; repeat case_decide; try done; congruence.
Qed.

(** *** The invariant *)

Lemma wf_init (output_dir underlying venue : string) (flush_rows : Z) (interval : Q) :
  wf (init output_dir underlying venue flush_rows interval).
Proof. by split. Qed.

Lemma close_file_wf (st : World * CSVWriter) : wf st.2 -> wf (_close_file st).1.2.
Proof.
  intros [Heq Hsd].
  destruct (close_file_coarse st) as (st' & -> & _ & _ & Hfh & Hcw & _).
  simpl. split; [rewrite Hfh|intros Hn]; by apply Hcw.
Qed.

Lemma open_file_wf (d : date) (st : World * CSVWriter) :
  wf st.2 -> wf (_open_file d st).1.2.
Proof.
  intros [Heq Hsd]. unfold _open_file, bind at 1.
  destruct (close_file_coarse st) as ([w1 s1] & -> & _ & _ & Hfh & Hcw & _).
  specialize (Hcw Heq). simpl in Hfh, Hcw. run.
  destruct (faults w1 OpOpen); run; [split; simpl; congruence|].
  destruct (bool_decide _); run; [by split|].
  destruct (faults w1 OpWriteHeader); run; by split.
Qed.

Lemma rename_wf (st : World * CSVWriter) :
  wf st.2 -> wf (_rename_with_end_date st).1.2.
Proof.
  intros Hwf. unfold _rename_with_end_date, bind at 1, get_self.
  destruct (_current_file st.2) as [cur|]; [|done].
  destruct (_start_date st.2) as [sd|] eqn:Hsd; [|done].
  unfold bind at 1, get_world. destruct (negb _); [|done].
  unfold try_except, bind at 1.
  pose proof (close_file_wf st Hwf) as Hwf1.
  destruct (close_file_coarse st) as ([w1 s1] & Hrun & _).
  rewrite Hrun in Hwf1 |- *. simpl in Hwf1. run.
  destruct (_ && _); run; [|done].
  destruct (faults w1 OpRename); run; done.
Qed.

Lemma check_rollover_wf (st : World * CSVWriter) :
  wf st.2 -> wf (_check_rollover st).1.2.
Proof.
  intros Hwf. unfold _check_rollover, bind at 1, get_world. unfold bind at 1, get_self.
  destruct (_start_date st.2) as [sd|]; [|done].
  destruct (negb _); [|done].
  unfold bind. pose proof (rename_wf st Hwf) as Hwf1.
  destruct (rename_coarse st) as (st1 & Hrun & _). rewrite Hrun in Hwf1 |- *.
  by apply open_file_wf.
Qed.

Lemma do_flush_wf (st : World * CSVWriter) : wf st.2 -> wf (_do_flush st).1.2.
Proof.
  intros Hwf. unfold _do_flush, bind at 1, get_self.
  destruct (_buffer st.2) as [|b bs]; [done|].
  unfold bind at 1. pose proof (check_rollover_wf st Hwf) as Hwf1.
  destruct (_check_rollover st) as [[w1 s1] [[]|e]]; [|done]. simpl in Hwf1.
  unfold bind at 1, get_self. unfold bind at 1. cbn [fst snd].
  destruct (_csv_writer s1) as [cw|] eqn:Hcw.
  - run. rewrite Hcw. run.
    destruct (faults w1 OpWriteRows); run; [done|].
    destruct (_file_handle s1) as [fh|]; run; [|done].
    destruct (faults w1 OpFlush); run; done.
  - unfold bind at 1, get_world. cbn [fst snd].
    pose proof (open_file_wf (today w1) (w1, s1) Hwf1) as Hwf2.
    destruct (_open_file (today w1) (w1, s1)) as [[w2 s2] [[]|e]]; [|done].
    simpl in Hwf2. run.
    destruct (_csv_writer s2) as [cw|]; run; [|done].
    destruct (faults w2 OpWriteRows); run; [done|].
    destruct (_file_handle s2) as [fh|]; run; [|done].
    destruct (faults w2 OpFlush); run; done.
Qed.

Section Invariant.
Context (py_str : pyval -> string).

(** Every method of the interface keeps [wf], whether it returns or
    raises. *)
Lemma wf_preserved (st : World * CSVWriter) :
  wf st.2 ->
  (forall row, wf (write_row py_str row st).1.2) /\
  (forall rows, wf (write_rows py_str rows st).1.2) /\
  wf (flush st).1.2 /\ wf (check_time_flush st).1.2 /\ wf (close st).1.2.
Proof.
  intros Hwf. destruct st as [w s]. split; [|split; [|split; [|split]]].
  - intros row. unfold write_row. run. destruct (_ >=? _); [|done].
    by apply do_flush_wf.
  - intros rows. unfold write_rows. run. destruct (_ >=? _); [|done].
    by apply do_flush_wf.
  - by apply do_flush_wf.
  - unfold check_time_flush. run. destruct (_last_flush_time s); [|done].
    run. destruct (Qle_bool _ _); [|done]. run.
    destruct (_buffer s) eqn:Hb; [done|]. by apply do_flush_wf.
  - unfold close, bind at 1, get_self. unfold bind. cbn [fst snd].
    destruct (_buffer s) eqn:Hb.
    + by apply close_file_wf.
    + pose proof (do_flush_wf (w, s) Hwf) as Hwf1.
      destruct (_do_flush (w, s)) as [st1 [[]|e]]; [|done].
      by apply close_file_wf.
Qed.

End Invariant.

End CsvWriterFacts.

(** ** Example runs of the writer *)

Module WriterScenarioFacts.

Import SnapshotBuilder CsvWriter CsvWriterFacts WriterScenario.

Lemma valid_day1 : valid_date day1.
Proof. unfold valid_date, day1. simpl. lia. Qed.

Lemma valid_day2 : valid_date day2.
Proof. unfold valid_date, day2. simpl. lia. Qed.

Lemma buffered_state_opened : opened_on buffered_state.2 day1.
Proof. repeat split; vm_compute; reflexivity. Qed.

Lemma buffered_state_buffer : _buffer buffered_state.2 <> [].
Proof. intros H. vm_compute in H. discriminate. Qed.

Lemma buffered_state_wf : wf buffered_state.2.
Proof. split; [vm_compute; reflexivity|]. intros H. vm_compute in H. discriminate. Qed.

(** C1.  The code at the failing input.  The writer opened on 2024-01-15
    holds a buffered row and is flushed on 2024-01-16.  The file of
    2024-01-15 is renamed to the name whose END segment is 20240116, not
    20240115, although nothing was written to it after 2024-01-15: under the
    new name it holds exactly what it held before the flush, the header and
    the row of 2024-01-15, and the row buffered on 2024-01-15 goes to the
    file of 2024-01-16.  The docstring of [_rename_with_end_date] promises
    the actual end date, and [_open_file] names a file by the date of its
    data. *)
Lemma rollover_end_segment_is_flush_date :
  opened_on buffered_state.2 day1 /\
  _buffer buffered_state.2 = [format_row demo_str row_b] /\
  In (CallRename file_day1_day1 file_day1_day2) (trace rolled_state.1) /\
  file_day1_day1 = file_for buffered_state.2 day1 day1 /\
  file_day1_day2 = file_for buffered_state.2 day1 day2 /\
  file_day1_day2 <> file_day1_day1 /\
  fs rolled_state.1 !! file_day1_day1 = None /\
  fs rolled_state.1 !! file_day1_day2 = fs buffered_state.1 !! file_day1_day1 /\
  fs rolled_state.1 !! file_day1_day2 = Some [COLUMNS; format_row demo_str row_a] /\
  fs rolled_state.1 !! file_day2_day2 = Some [COLUMNS; format_row demo_str row_b] /\
  _current_file rolled_state.2 = Some file_day2_day2.
Proof.
  split; [exact buffered_state_opened|]. split; [vm_compute; reflexivity|].
  split.
  { vm_compute. repeat (first [left; reflexivity | right]). }
  split; [vm_compute; reflexivity|]. split; [vm_compute; reflexivity|].
  split; [discriminate|].
  repeat split; vm_compute; reflexivity.
Qed.

(** The rollover of [buffered_state] on [day2]. *)
Lemma rollover_renames_to_today_witness :
  opened_on buffered_state.2 day1 /\
  _buffer buffered_state.2 <> [] /\
  valid_date day1 /\ valid_date day2 /\ day1 <> day2 /\
  healthy (set_clock day2 86400500000 buffered_state.1) /\
  exists w' s',
    flush (set_clock day2 86400500000 buffered_state.1, buffered_state.2)
    = ((w', s'), Ok tt) /\
    opened_on s' day2 /\
    fs w' !! file_for buffered_state.2 day1 day2
    = fs buffered_state.1 !! file_for buffered_state.2 day1 day1.
Proof.
  assert (Hne : day1 <> day2) by discriminate.
  assert (Hh : healthy (set_clock day2 86400500000 buffered_state.1))
    by (intros op; reflexivity).
  split; [exact buffered_state_opened|]. split; [exact buffered_state_buffer|].
  split; [exact valid_day1|]. split; [exact valid_day2|].
  split; [exact Hne|]. split; [exact Hh|].
  destruct (rollover_renames_to_today buffered_state.2
              (set_clock day2 86400500000 buffered_state.1) day1
              buffered_state_opened buffered_state_buffer valid_day1 valid_day2 Hne Hh)
    as (w' & s' & Hrun & _ & _ & Htarget & _ & _ & Hop & _).
  exists w', s'. split; [exact Hrun|]. split; [exact Hop|].
  etransitivity; [exact Htarget|]. vm_compute. reflexivity.
Defined.

(** C2 as stated fails.  A new writer has no last flush time; one row is
    written, and a time check one hour later flushes nothing: the row is
    still in the buffer.  And a writer with [flush_rows = 0] that is given
    its zero rows does not flush. *)
Lemma fresh_writer_time_check_does_not_flush :
  flush_count (write_each demo_str [] (world0, init "out" "nifty" "NSEFO" 0 1)).1.1
  = flush_count world0 /\
  _buffer writer0 = [] /\
  write_row demo_str row_a (world0, writer0) = (fresh_buffered, Ok tt) /\
  (flush_interval_seconds writer0 <= (3600000000 - now world0) # 1000000)%Q /\
  check_time_flush (set_clock day1 3600000000 fresh_buffered.1, fresh_buffered.2)
  = (fresh_checked, Ok tt) /\
  flush_count fresh_checked.1 = flush_count world0 /\
  length (_buffer fresh_checked.2) = 1%nat.
Proof.
  split; [reflexivity|].
  split; [reflexivity|]. split; [vm_compute; reflexivity|].
  split; [by vm_compute|]. split; [vm_compute; reflexivity|].
  split; vm_compute; reflexivity.
Qed.

Lemma opened_state_wf : wf opened_state.2.
Proof. split; [vm_compute; reflexivity|]. intros H. vm_compute in H. discriminate. Qed.

(** The writer of [opened_state]: 500 rows make one flush; one row and a
    second of waiting make one flush. *)
Lemma flush_triggers_witness :
  wf opened_state.2 /\
  faults opened_state.1 OpOpen = false /\ faults opened_state.1 OpWriteHeader = false /\
  (exists w' s',
     write_each demo_str (replicate 500 row_a) (opened_state.1, opened_state.2)
     = ((w', s'), Ok tt) /\
     flush_count w' = S (flush_count opened_state.1)) /\
  (exists w1 s1 w2 s2,
     write_row demo_str row_b (opened_state.1, opened_state.2) = ((w1, s1), Ok tt) /\
     check_time_flush (set_clock day1 1000000 w1, s1) = ((w2, s2), Ok tt) /\
     flush_count w2 = S (flush_count opened_state.1) /\ _buffer s2 = []).
Proof.
  assert (Ho : faults opened_state.1 OpOpen = false) by reflexivity.
  assert (Hh : faults opened_state.1 OpWriteHeader = false) by reflexivity.
  split; [exact opened_state_wf|]. split; [exact Ho|]. split; [exact Hh|].
  destruct (flush_triggers demo_str opened_state.2 opened_state.1 opened_state_wf Ho Hh)
    as (HA & HB & _).
  split.
  - destruct (HA (replicate 500 row_a)) as (w' & s' & Hrun & Hc & _).
    + vm_compute. reflexivity.
    + vm_compute. reflexivity.
    + exists w', s'. split; [exact Hrun|exact Hc].
  - destruct (HB row_b 0 day1 1000000) as (w1 & s1 & w2 & s2 & H1 & H2 & H3 & H4 & _).
    + vm_compute. reflexivity.
    + vm_compute. reflexivity.
    + vm_compute. discriminate.
    + vm_compute. discriminate.
    + exists w1, s1, w2, s2. repeat split; assumption.
Defined.

(** A full disk while a row is buffered. *)
Lemma write_failure_drops_buffer_witness :
  wf buffered_state.2 /\ _buffer buffered_state.2 <> [] /\
  faults (set_faults disk_full buffered_state.1) OpOpen = false /\
  faults (set_faults disk_full buffered_state.1) OpWriteHeader = false /\
  faults (set_faults disk_full buffered_state.1) OpWriteRows = true /\
  exists w' s',
    flush (set_faults disk_full buffered_state.1, buffered_state.2) = ((w', s'), Ok tt) /\
    _buffer s' = [] /\ _rows_written s' = _rows_written buffered_state.2.
Proof.
  assert (Ho : faults (set_faults disk_full buffered_state.1) OpOpen = false) by reflexivity.
  assert (Hh : faults (set_faults disk_full buffered_state.1) OpWriteHeader = false)
    by reflexivity.
  assert (Hw : faults (set_faults disk_full buffered_state.1) OpWriteRows = true)
    by reflexivity.
  split; [exact buffered_state_wf|]. split; [exact buffered_state_buffer|].
  split; [exact Ho|]. split; [exact Hh|]. split; [exact Hw|].
  destruct (write_failure_drops_buffer demo_str buffered_state.2
              (set_faults disk_full buffered_state.1)
              buffered_state_wf buffered_state_buffer Ho Hh (or_introl Hw))
    as (w' & s' & p & Hrun & Hb & Hrw & _).
  exists w', s'. repeat split; assumption.
Defined.

(** C9.  The code at the failing input.  A new writer holds one buffered
    row and is flushed while the header write of the file it has to create
    raises: that write is made by [_open_file], which [_do_flush] calls
    before its [try].  The exception leaves [flush], the row is still in the
    buffer and nothing is counted as flushed.  The same happens when [open]
    itself raises.  Only a failure of
    the buffer write, inside the [try], is handled as the claim says. *)
Remark header_failure_propagates :
  _buffer fresh_buffered.2 = [format_row demo_str row_a] /\
  (exists st',
     flush (set_faults header_fails fresh_buffered.1, fresh_buffered.2)
     = (st', Raised (OSError OpWriteHeader)) /\
     _buffer st'.2 = _buffer fresh_buffered.2 /\
     _last_flush_time st'.2 = None /\
     flush_count st'.1 = 0%nat) /\
  (exists st',
     flush (set_faults open_fails fresh_buffered.1, fresh_buffered.2)
     = (st', Raised (OSError OpOpen)) /\
     _buffer st'.2 = _buffer fresh_buffered.2 /\
     fs st'.1 = fs fresh_buffered.1) /\
  (exists st',
     flush (set_faults disk_full fresh_buffered.1, fresh_buffered.2) = (st', Ok tt) /\
     _buffer st'.2 = []).
Proof.
  split; [vm_compute; reflexivity|].
  split; [|split]; eexists; repeat split; vm_compute; reflexivity.
Qed.

End WriterScenarioFacts.

(** ** snapshot_builder.py: the rows *)

Module SnapshotRowFacts.

Import SnapshotBuilder SnapshotBuilderFacts Scenario.

Lemma build_row_make_row (self : SnapshotBuilder) (tick : Tick)
    (meta : gmap string pyval) (ts_micros : option Z) (clk : Clock) :
  exists ts venue underlying spot instrument_id option_symbol expiry_date strike option_type
         best_bid_px best_bid_sz best_ask_px best_ask_sz mid_px spread last_trade_px
         last_trade_sz bid_px_1 bid_sz_1 bid_px_2 bid_sz_2 bid_px_3 bid_sz_3
         ask_px_1 ask_sz_1 ask_px_2 ask_sz_2 ask_px_3 ask_sz_3,
    (build_row self tick meta ts_micros clk).1
    = make_row ts venue underlying spot instrument_id option_symbol expiry_date strike
        option_type best_bid_px best_bid_sz best_ask_px best_ask_sz mid_px spread
        last_trade_px last_trade_sz bid_px_1 bid_sz_1 bid_px_2 bid_sz_2 bid_px_3 bid_sz_3
        ask_px_1 ask_sz_1 ask_px_2 ask_sz_2 ask_px_3 ask_sz_3.
Proof.
  unfold build_row.
  destruct (match ts_micros with Some t => (t, clk) | None => _ end) as [ts clk'].
  destruct (_compute_mid_spread _ _) as [mid spread].
  cbn [fst]. repeat eexists.
Qed.

(** X1.  The keys of a row built by [build_row] are exactly the columns of
    [COLUMNS], whatever the tick and the contract metadata hold: a CSV line
    never lacks a column of the header and a row has no key outside it. *)
Theorem build_row_columns (self : SnapshotBuilder) (tick : Tick)
    (meta : gmap string pyval) (ts_micros : option Z) (clk : Clock) (col : string) :
  is_Some ((build_row self tick meta ts_micros clk).1 !! col) <-> col ∈ COLUMNS.
Proof.
  destruct (build_row_make_row self tick meta ts_micros clk)
    as (ts & v & u & sp & ii & os & ed & st & ot & a1 & a2 & a3 & a4 & a5 & a6 & a7 & a8
        & b1 & b2 & b3 & b4 & b5 & b6 & c1 & c2 & c3 & c4 & c5 & c6 & ->).
  rewrite <- elem_of_dom. unfold make_row.
  rewrite dom_list_to_map_L, elem_of_list_to_set. reflexivity.
Qed.

Lemma extract_depth_empty (side : string) :
  _extract_depth empty_tick side 3 = [(None, None); (None, None); (None, None)].
Proof. reflexivity. Qed.

Lemma build_row_empty_tick (self : SnapshotBuilder) (meta : gmap string pyval)
    (ts : Z) (clk : Clock) :
  let row := (build_row self empty_tick meta (Some ts) clk).1 in
  Forall (fun col => row !! col = Some VNone) price_size_columns_but_last_size /\
  row !! "last_trade_sz" = Some (VNum (NInt 0)) /\
  row !! "ts" = Some (VNum (NInt ts)) /\
  row !! "venue" = Some (VStr (venue_label self)) /\
  row !! "underlying_symbol" = Some (dict_get_default meta "underlying" (VStr "")) /\
  row !! "instrument_id" = Some (dict_get_default meta "instrument_id" (VStr "")) /\
  row !! "option_symbol" = Some (dict_get_default meta "tradingsymbol" (VStr "")) /\
  row !! "expiry_date" = Some (dict_get_default meta "expiry" (VStr "")) /\
  row !! "strike" = Some (dict_get meta "strike") /\
  row !! "option_type" = Some (dict_get_default meta "option_type_short" (VStr "")).
Proof.
  intros row. unfold row, build_row. rewrite !extract_depth_empty. cbn [fst _compute_mid_spread].
  split; [|repeat split; reflexivity].
  unfold price_size_columns_but_last_size, price_size_columns. cbn [List.filter String.eqb Ascii.eqb Bool.eqb negb].
  repeat (constructor; [reflexivity|]). constructor.
Qed.

(** X2.  A contract of the universe that has no cached tick still gets its
    row in the snapshot, at its position: every price and size column is
    [None] except [last_trade_sz], which is 0, and the venue and the
    contract columns are filled from the builder and the metadata. *)
Theorem snapshot_row_without_tick (self : SnapshotBuilder) (ticks : gmap Z Tick)
    (universe : list (Z * gmap string pyval)) (ts_micros : option Z) (clk : Clock)
    (i : nat) (token : Z) (meta : gmap string pyval) :
  universe !! i = Some (token, meta) -> ticks !! token = None ->
  exists row,
    (build_snapshot self ticks universe ts_micros clk).1 !! i = Some row /\
    Forall (fun col => row !! col = Some VNone) price_size_columns_but_last_size /\
    row !! "last_trade_sz" = Some (VNum (NInt 0)) /\
    row !! "venue" = Some (VStr (venue_label self)) /\
    row !! "underlying_symbol" = Some (dict_get_default meta "underlying" (VStr "")) /\
    row !! "instrument_id" = Some (dict_get_default meta "instrument_id" (VStr "")) /\
    row !! "option_symbol" = Some (dict_get_default meta "tradingsymbol" (VStr "")) /\
    row !! "expiry_date" = Some (dict_get_default meta "expiry" (VStr "")) /\
    row !! "strike" = Some (dict_get meta "strike") /\
    row !! "option_type" = Some (dict_get_default meta "option_type_short" (VStr "")).
Proof.
  intros Hi Hnone. rewrite build_snapshot_fmap. cbn [fst].
  eexists. split.
  { rewrite list_lookup_fmap, Hi. reflexivity. }
  unfold row_for. cbn [fst snd]. rewrite Hnone. cbn [default].
  pose proof (build_row_empty_tick self meta (snapshot_ts ts_micros clk)
                (snapshot_clock ts_micros clk)) as H.
  cbv zeta in H. tauto.
Qed.

(** X3.  [underlying_spot] of a row is the builder's spot price of the
    row's underlying: the price given last by [set_spot_price] for that
    underlying, and [None] when none was given; a price set for another
    underlying does not change it. *)
Theorem underlying_spot_is_latest_spot (self : SnapshotBuilder) (tick : Tick)
    (meta : gmap string pyval) (ts_micros : option Z) (clk : Clock)
    (u : string) (spot : pynum) :
  meta !! "underlying" = Some (VStr u) ->
  (build_row (set_spot_price self u spot) tick meta ts_micros clk).1 !! "underlying_spot"
  = Some (VNum spot) /\
  (build_row self tick meta ts_micros clk).1 !! "underlying_spot"
  = Some (of_opt_num (get_spot_price self u)) /\
  (forall u', u' <> u ->
     get_spot_price (set_spot_price self u' spot) u = get_spot_price self u).
Proof.
  intros Hu.
  assert (Hrow : forall b : SnapshotBuilder,
    (build_row b tick meta ts_micros clk).1 !! "underlying_spot"
    = Some (of_opt_num (get_spot_price b u))).
  { intros b. unfold build_row, dict_get_default. rewrite Hu. cbn [default].
    destruct (match ts_micros with Some t => (t, clk) | None => _ end) as [ts clk'].
    destruct (_compute_mid_spread _ _) as [mid spread]. reflexivity. }
  split; [|split].
  - rewrite Hrow. unfold get_spot_price, set_spot_price. cbn [_spot_prices].
    by rewrite lookup_insert_eq.
  - apply Hrow.
  - intros u' Hne. unfold get_spot_price, set_spot_price. cbn [_spot_prices].
    by rewrite lookup_insert_ne.
Qed.

Lemma underlying_spot_is_latest_spot_witness :
  ({[ "underlying" := VStr "NIFTY" ]} : gmap string pyval) !! "underlying"
  = Some (VStr "NIFTY") /\
  (build_row (set_spot_price Scenario.builder "NIFTY" (NFloat (48021 # 2)))
     empty_tick {[ "underlying" := VStr "NIFTY" ]} (Some 0) Scenario.clock0).1
    !! "underlying_spot" = Some (VNum (NFloat (48021 # 2))).
Proof.
  assert (H : ({[ "underlying" := VStr "NIFTY" ]} : gmap string pyval) !! "underlying"
              = Some (VStr "NIFTY")) by reflexivity.
  split; [exact H|].
  exact (proj1 (underlying_spot_is_latest_spot Scenario.builder empty_tick _ (Some 0)
                  Scenario.clock0 "NIFTY" (NFloat (48021 # 2)) H)).
Defined.

(** The tickless contract 222 of the scenario. *)
Lemma snapshot_row_without_tick_witness :
  let meta := (default (0, ∅) (universe !! 1%nat)).2 in
  universe !! 1%nat = Some (222, meta) /\ tick_cache !! 222 = None /\
  exists row,
    (build_snapshot builder tick_cache universe None clock0).1 !! 1%nat = Some row /\
    row !! "last_trade_sz" = Some (VNum (NInt 0)) /\
    row !! "best_bid_px" = Some VNone.
Proof.
  intros meta.
  assert (Hu : universe !! 1%nat = Some (222, meta)) by (vm_compute; reflexivity).
  assert (Ht : tick_cache !! 222 = None) by reflexivity.
  split; [exact Hu|]. split; [exact Ht|].
  destruct (snapshot_row_without_tick builder tick_cache universe None clock0 1 222 meta Hu Ht)
    as (row & Hrow & Hnull & Hsz & _).
  exists row. split; [exact Hrow|]. split; [exact Hsz|].
  exact (Forall_inv Hnull).
Defined.



(** A tick whose [exchange_timestamp] is a string is stamped by the clock
    although its [timestamp] is a datetime. *)
Example timestamp_string_reads_clock :
  let tick := mkTick {[ "exchange_timestamp" := VStr "2024-01-25 09:30:00";
                        "timestamp" := VDatetime (mkDatetime 1706175000000000 None) ]}
                     None in
  (build_row Scenario.builder tick ∅ None Scenario.clock0).1 !! "ts"
  = Some (VNum (NInt 1706153400000000)).
Proof. vm_compute. reflexivity. Qed.

(** X5.  The best bid and ask columns repeat the first depth level of
    their side, and the price of level [k] of the row is the price of the
    tick's [k]-th buy or sell level after the zero-price filter. *)
Theorem best_quote_is_first_level (self : SnapshotBuilder) (tick : Tick)
    (meta : gmap string pyval) (ts_micros : option Z) (clk : Clock) :
  let row := (build_row self tick meta ts_micros clk).1 in
  let side (s : string) := default [] (default ∅ (tick_depth tick) !! s) in
  row !! "best_bid_px" = row !! "bid_px_1" /\
  row !! "best_bid_sz" = row !! "bid_sz_1" /\
  row !! "best_ask_px" = row !! "ask_px_1" /\
  row !! "best_ask_sz" = row !! "ask_sz_1" /\
  row !! "bid_px_1" = Some (of_opt_num (extract_level (side "buy") 0).1) /\
  row !! "bid_px_2" = Some (of_opt_num (extract_level (side "buy") 1).1) /\
  row !! "bid_px_3" = Some (of_opt_num (extract_level (side "buy") 2).1) /\
  row !! "ask_px_1" = Some (of_opt_num (extract_level (side "sell") 0).1) /\
  row !! "ask_px_2" = Some (of_opt_num (extract_level (side "sell") 1).1) /\
  row !! "ask_px_3" = Some (of_opt_num (extract_level (side "sell") 2).1).
Proof.
  intros row side. unfold row, build_row.
  destruct (match ts_micros with Some t => (t, clk) | None => _ end) as [ts clk'].
  rewrite !extract_depth_fmap. fold (side "buy") (side "sell"). cbn [seq fmap list_fmap].
  destruct (_compute_mid_spread _ _) as [mid spread].
  cbn [fst]. unfold px_at, sz_at. cbn [lookup list_lookup].
  destruct (extract_level (side "buy") 0), (extract_level (side "sell") 0),
           (extract_level (side "buy") 1), (extract_level (side "sell") 1),
           (extract_level (side "buy") 2), (extract_level (side "sell") 2).
  repeat split; reflexivity.
Qed.

End SnapshotRowFacts.

(** ** csv_writer.py: what a writer keeps and what it loses *)

Module WriterSessionFacts.

Import SnapshotBuilder CsvWriter CsvWriterFacts WriterScenario WriterSession.

(** *** Which failures escape *)

Lemma open_file_any (d : date) (st st' : World * CSVWriter) (r : outcome unit) :
  _open_file d st = (st', r) ->
  frame st st' /\
  match r with
  | Ok _ => True
  | Raised e => open_error e
  end.
Proof.
  unfold _open_file, bind at 1.
  destruct (close_file_coarse st) as ([w1 s1] & -> & Hfr & _).
  run.
  destruct (faults w1 OpOpen); run.
  { intros [= <- <-]. split; [|by left]. eapply frame_trans; [exact Hfr|]. frame_tac. }
  destruct (bool_decide _); run.
  { intros [= <- <-]. split; [|done]. eapply frame_trans; [exact Hfr|]. frame_tac. }
  destruct (faults w1 OpWriteHeader); run.
  - intros [= <- <-]. split; [|by right]. eapply frame_trans; [exact Hfr|]. frame_tac.
  - intros [= <- <-]. split; [|done]. eapply frame_trans; [exact Hfr|]. frame_tac.
Qed.

Lemma check_rollover_any (st st' : World * CSVWriter) (r : outcome unit) :
  _check_rollover st = (st', r) ->
  frame st st' /\
  match r with
  | Ok _ => True
  | Raised e => open_error e
  end.
Proof.
  unfold _check_rollover, bind at 1, get_world. unfold bind at 1, get_self.
  destruct (_start_date st.2) as [sd|]; [|intros [= <- <-]; split; [apply frame_refl|done]].
  destruct (negb _); [|intros [= <- <-]; split; [apply frame_refl|done]].
  unfold bind. destruct (rename_coarse st) as (st1 & -> & Hfr & _).
  intros Hrun. apply open_file_any in Hrun as [Hfr2 Hr].
  split; [|done]. by eapply frame_trans.
Qed.

(** A flush either returns with an empty buffer or raises an error of
    opening the file with everything in the frame, the buffer included, as
    it was. *)
Lemma do_flush_any (st st' : World * CSVWriter) (r : outcome unit) :
  _do_flush st = (st', r) ->
  today st'.1 = today st.1 /\ faults st'.1 = faults st.1 /\
  output_dir st'.2 = output_dir st.2 /\ underlying st'.2 = underlying st.2 /\
  venue st'.2 = venue st.2 /\ flush_rows st'.2 = flush_rows st.2 /\
  match r with
  | Ok _ => _buffer st'.2 = []
  | Raised e => open_error e /\ frame st st'
  end.
Proof.
  unfold _do_flush, bind at 1, get_self.
  destruct (_buffer st.2) as [|b bs] eqn:Hbuf.
  { intros [= <- <-]. by rewrite Hbuf. }
  unfold bind at 1.
  destruct (_check_rollover st) as [[w1 s1] r1] eqn:Hroll.
  apply check_rollover_any in Hroll as [Hfr1 Hr1].
  destruct r1 as [[]|e].
  2:{ intros [= <- <-]. destruct Hfr1. simpl in *. repeat split; done. }
  unfold bind at 1, get_self. unfold bind at 1. cbn [fst snd].
  assert (Hwrite : forall (w2 : World) (s2 : CSVWriter), frame st (w2, s2) ->
    forall st' r,
    try_finally
      (try_except
         (self <- get_self;;
          match _csv_writer self with
          | Some cw =>
              io OpWriteRows (CallWriterows cw (_buffer self)) (append_rows cw (_buffer self));;
              match _file_handle self with
              | Some fh =>
                  io OpFlush (CallFlush fh) id;;
                  modify_self
                    (set_rows_written (_rows_written self + Z.of_nat (length (_buffer self))))
              | None => raise AttributeError
              end
          | None => raise AttributeError
          end) (fun _ : exn => ret ()))
      (modify_self (set_buffer []);;
       w <- get_world;; modify_self (set_last_flush_time (Some (now w)))) (w2, s2) = (st', r) ->
    today st'.1 = today st.1 /\ faults st'.1 = faults st.1 /\
    output_dir st'.2 = output_dir st.2 /\ underlying st'.2 = underlying st.2 /\
    venue st'.2 = venue st.2 /\ flush_rows st'.2 = flush_rows st.2 /\
    match r with
    | Ok _ => _buffer st'.2 = []
    | Raised e => open_error e /\ frame st st'
    end).
  { intros w2 s2 Hfr st'' r'. destruct Hfr. simpl in *. run.
    destruct (_csv_writer s2) as [cw|]; run;
      [|intros [= <- <-]; simpl; repeat split; done].
    destruct (faults w2 OpWriteRows); run;
      [intros [= <- <-]; simpl; repeat split; done|].
    destruct (_file_handle s2) as [fh|]; run;
      [|intros [= <- <-]; simpl; repeat split; done].
    destruct (faults w2 OpFlush); run; intros [= <- <-]; simpl; repeat split; done. }
  destruct (_csv_writer s1) as [cw|] eqn:Hcw.
  - unfold ret at 1. by apply Hwrite.
  - unfold bind at 1, get_world. cbn [fst snd].
    destruct (_open_file (today w1) (w1, s1)) as [[w2 s2] r2] eqn:Hopen.
    apply open_file_any in Hopen as [Hfr2 Hr2].
    pose proof (frame_trans _ _ _ Hfr1 Hfr2) as Hfr.
    destruct r2 as [[]|e].
    2:{ intros [= <- <-]. destruct Hfr. simpl in *. repeat split; done. }
    by apply Hwrite.
Qed.

Section Escapes.
Context (py_str : pyval -> string).

(** X6.  The only errors a writer lets escape are those of opening a file
    ([open] and the header write); an error of writing the buffer is never
    seen by the caller.  When a call raises, no buffered row is lost: the
    buffer holds what it held, with the rows of the failing call added, and
    nothing was counted or flushed. *)
Theorem only_open_errors_escape (st st' : World * CSVWriter) (e : exn) :
  (forall row, write_row py_str row st = (st', Raised e) ->
     open_error e /\ _buffer st'.2 = _buffer st.2 ++ [format_row py_str row] /\
     _rows_written st'.2 = _rows_written st.2 /\ flush_count st'.1 = flush_count st.1) /\
  (forall rows, write_rows py_str rows st = (st', Raised e) ->
     open_error e /\ _buffer st'.2 = _buffer st.2 ++ (format_row py_str <$> rows) /\
     _rows_written st'.2 = _rows_written st.2 /\ flush_count st'.1 = flush_count st.1) /\
  (flush st = (st', Raised e) \/ check_time_flush st = (st', Raised e)
   \/ close st = (st', Raised e) ->
     open_error e /\ _buffer st'.2 = _buffer st.2 /\
     _rows_written st'.2 = _rows_written st.2 /\ flush_count st'.1 = flush_count st.1).
Proof.
  assert (Hflush : forall s0 : World * CSVWriter, _do_flush s0 = (st', Raised e) ->
    open_error e /\ _buffer st'.2 = _buffer s0.2 /\
    _rows_written st'.2 = _rows_written s0.2 /\ flush_count st'.1 = flush_count s0.1).
  { intros s0 Hrun. apply do_flush_any in Hrun as (_ & _ & _ & _ & _ & _ & He & Hfr).
    destruct Hfr. done. }
  destruct st as [w s]. split; [|split].
  - intros row. unfold write_row. run. destruct (_ >=? _); [|done].
    intros Hrun. by apply Hflush in Hrun.
  - intros rows. unfold write_rows. run. destruct (_ >=? _); [|done].
    intros Hrun. by apply Hflush in Hrun.
  - intros [Hrun|[Hrun|Hrun]].
    + by apply Hflush in Hrun.
    + revert Hrun. unfold check_time_flush. run.
      destruct (_last_flush_time s); [|done]. run.
      destruct (Qle_bool _ _); [|done]. run.
      destruct (_buffer s) eqn:Hb; [done|]. intros Hrun. apply Hflush in Hrun.
      simpl in Hrun. by rewrite Hb in Hrun.
    + revert Hrun. unfold close, bind at 1, get_self. unfold bind at 1. cbn [fst snd].
      destruct (_buffer s) as [|b bs] eqn:Hb.
      * unfold ret.
        destruct (close_file_coarse (w, s)) as (st2 & -> & _). done.
      * destruct (_do_flush (w, s)) as [st1 [[]|e1]] eqn:Hf.
        -- destruct (close_file_coarse st1) as (st2 & -> & _). done.
        -- intros [= <- <-]. apply Hflush in Hf. simpl in Hf. by rewrite Hb in Hf.
Qed.

(** X7.  With a positive threshold, whenever a write or a flush returns
    normally fewer than [flush_rows] rows remain buffered, whatever was
    buffered before and whatever I/O failed on the way; the time check
    keeps the bound. *)
Theorem buffer_stays_below_flush_rows (st : World * CSVWriter) :
  0 < flush_rows st.2 ->
  (forall row st', write_row py_str row st = (st', Ok tt) ->
     Z.of_nat (length (_buffer st'.2)) < flush_rows st'.2) /\
  (forall rows st', write_rows py_str rows st = (st', Ok tt) ->
     Z.of_nat (length (_buffer st'.2)) < flush_rows st'.2) /\
  (forall st', flush st = (st', Ok tt) ->
     Z.of_nat (length (_buffer st'.2)) < flush_rows st'.2) /\
  (forall st', Z.of_nat (length (_buffer st.2)) < flush_rows st.2 ->
     check_time_flush st = (st', Ok tt) ->
     Z.of_nat (length (_buffer st'.2)) < flush_rows st'.2).
Proof.
  intros Hpos. destruct st as [w s]. cbn [fst snd] in Hpos |- *.
  assert (Hflush : forall (s0 : CSVWriter) st', flush_rows s0 = flush_rows s ->
            _do_flush (w, s0) = (st', Ok tt) ->
            Z.of_nat (length (_buffer st'.2)) < flush_rows st'.2).
  { intros s0 st' Hfr Hrun. apply do_flush_any in Hrun as (_ & _ & _ & _ & _ & Hc & Hb).
    cbn [fst snd] in Hc, Hb. rewrite Hc, Hb, Hfr. simpl. lia. }
  split; [|split; [|split]].
  - intros row st'. unfold write_row. run.
    destruct (_ >=? _) eqn:Hge.
    + by apply Hflush.
    + intros [= <-]. simpl. rewrite Z.geb_leb in Hge. by apply Z.leb_gt in Hge.
  - intros rows st'. unfold write_rows. run.
    destruct (_ >=? _) eqn:Hge.
    + by apply Hflush.
    + intros [= <-]. simpl. rewrite Z.geb_leb in Hge. by apply Z.leb_gt in Hge.
  - intros st'. by apply Hflush.
  - intros st' Hlt. unfold check_time_flush. run.
    destruct (_last_flush_time s); [|by intros [= <-]]. run.
    destruct (Qle_bool _ _); [|by intros [= <-]]. run.
    destruct (_buffer s) eqn:Hb; [by intros [= <-]; simpl; rewrite Hb|].
    by apply Hflush.
Qed.

End Escapes.

(** X8.  Calling [close] again after a [close] that returned does nothing:
    no call is made and the state stays as it is. *)
Theorem close_is_idempotent (st st' : World * CSVWriter) :
  close st = (st', Ok tt) -> close st' = (st', Ok tt).
Proof.
  intros Hrun.
  assert (Hpost : _buffer st'.2 = [] /\ _file_handle st'.2 = None).
  { revert Hrun. unfold close, bind at 1, get_self. unfold bind at 1.
    destruct (_buffer st.2) as [|b bs] eqn:Hb.
    - unfold ret.
      destruct (close_file_coarse st) as (st2 & -> & Hfr & _ & Hfh & _).
      intros [= <-]. split; [|done]. by rewrite (fr_buffer _ _ Hfr).
    - destruct (_do_flush st) as [st1 r] eqn:Hf.
      apply do_flush_any in Hf as (_ & _ & _ & _ & _ & _ & H).
      destruct r as [[]|e]; [|discriminate].
      destruct (close_file_coarse st1) as (st2 & -> & Hfr & _ & Hfh & _).
      intros [= <-]. split; [|done]. by rewrite (fr_buffer _ _ Hfr). }
  destruct Hpost as [Hb Hfh].
  unfold close, bind at 1, get_self. rewrite Hb. unfold bind, ret.
  by rewrite close_file_closed.
Qed.

(** X9.  For one writer a file name determines its START and END dates:
    two different day ranges never share a file, and a file that has been
    renamed at a rollover is never mistaken for a one-day file. *)
Theorem filename_determines_dates (self : CSVWriter) (a b : date) (ea eb : option date) :
  valid_date a -> valid_date b ->
  valid_date (default a ea) -> valid_date (default b eb) ->
  _get_filename self a ea = _get_filename self b eb ->
  a = b /\ default a ea = default b eb.
Proof.
  intros Ha Hb Hea Heb H.
  apply (file_for_inj self a (default a ea) b (default b eb)); try done.
  unfold file_for. f_equal. exact H.
Qed.

(** *** A session in which nothing fails *)

Lemma do_flush_steady_exact (w : World) (s : CSVWriter) (p : string) :
  healthy w -> _buffer s <> [] ->
  _start_date s = Some (today w) -> _csv_writer s = Some p -> _file_handle s = Some p ->
  _do_flush (w, s)
  = ((world_with (append_rows p (_buffer s) (fs w))
        [CallWriterows p (_buffer s); CallFlush p] w,
      set_last_flush_time (Some (now w))
        (set_buffer []
           (set_rows_written (_rows_written s + Z.of_nat (length (_buffer s))) s))), Ok tt).
Proof.
  intros Hh Hbuf Hsd Hcw Hfh. unfold _do_flush, _check_rollover. run.
  destruct (_buffer s) as [|b bs] eqn:Hb; [done|]. run.
  rewrite Hsd. simpl.
  assert (Hd : date_eqb (today w) (today w) = true) by (by apply date_eqb_eq).
  rewrite Hd. run. rewrite Hcw. run. rewrite Hcw. simpl. rewrite (Hh OpWriteRows). simpl.
  rewrite Hfh. simpl. rewrite (Hh OpFlush). simpl. rewrite Hb.
  unfold world_with, set_fs, record_call. simpl. by rewrite <- app_assoc.
Qed.

Lemma do_flush_first_exact (w : World) (s : CSVWriter) :
  healthy w -> _buffer s <> [] ->
  _start_date s = None -> _csv_writer s = None -> _file_handle s = None ->
  let path := file_for s (today w) (today w) in
  _do_flush (w, s)
  = ((world_with (append_rows path (_buffer s) (open_append path (fs w)))
        (CallOpen path
           :: (if bool_decide (is_Some (fs w !! path)) then []
               else [CallWriterow path COLUMNS])
           ++ [CallWriterows path (_buffer s); CallFlush path]) w,
      set_last_flush_time (Some (now w))
        (set_buffer []
           (set_rows_written (_rows_written s + Z.of_nat (length (_buffer s)))
              (opened path (today w) (now w) s)))), Ok tt).
Proof.
  intros Hh Hbuf Hsd Hcw Hfh path.
  rewrite <- (world_with_nil w) at 1.
  unfold _do_flush, bind at 1, get_self. cbn [fst snd].
  destruct (_buffer s) as [|b bs] eqn:Hb; [done|clear Hbuf].
  unfold bind at 1. unfold _check_rollover, bind at 1, get_world.
  unfold bind at 1, get_self. cbn [fst snd]. rewrite Hsd. unfold ret at 1.
  unfold bind at 1, get_self. unfold bind at 1. cbn [fst snd]. rewrite Hcw.
  unfold bind at 1, get_world. cbn [fst snd world_with today].
  rewrite open_file_exact by done. fold path.
  unfold try_finally, try_except. unfold bind at 1, get_self. cbn [fst snd].
  unfold opened at 1. cbn [_csv_writer set_last_flush_time set_csv_writer].
  unfold bind at 1. rewrite io_exact by apply Hh.
  unfold opened at 1. cbn [_file_handle set_last_flush_time set_csv_writer set_file_handle].
  unfold bind at 1. rewrite io_exact by apply Hh.
  unfold bind, modify_self, get_world. cbn [fst snd world_with now id].
  rewrite <- Hb. cbn [app]. rewrite <- !app_assoc. reflexivity.
Qed.

Lemma in_session_start (w : World) (out und ven : string) (k : Z) (iv : Q) :
  healthy w -> in_session w (init out und ven k iv) [] (w, init out und ven k iv).
Proof.
  intros Hh. unfold in_session. cbn [fst snd].
  repeat (split; [done|]). exists []. split; [done|]. split; [done|]. left. done.
Qed.

Lemma in_session_buffer (w0 : World) (s0 : CSVWriter) (given more : list (list string))
    (w : World) (s : CSVWriter) :
  in_session w0 s0 given (w, s) ->
  in_session w0 s0 (given ++ more) (w, set_buffer (_buffer s ++ more) s).
Proof.
  intros (Hh & Ht & Ho & Hu & Hv & Hq & flushed & Hg & Hrw & Hcase).
  unfold in_session. cbn [fst snd] in *.
  repeat (split; [done|]). exists flushed.
  split; [by rewrite <- Hg, <- app_assoc|]. split; [done|]. exact Hcase.
Qed.

Lemma in_session_wait (w0 : World) (s0 : CSVWriter) (given : list (list string))
    (w : World) (s : CSVWriter) (t : Z) :
  in_session w0 s0 given (w, s) -> in_session w0 s0 given (set_clock (today w) t w, s).
Proof. intros H. exact H. Qed.

Lemma in_session_flush (w0 : World) (s0 : CSVWriter) (given : list (list string))
    (st : World * CSVWriter) :
  in_session w0 s0 given st ->
  exists st', _do_flush st = (st', Ok tt) /\ in_session w0 s0 given st' /\
    _buffer st'.2 = [].
Proof.
  destruct st as [w s].
  intros (Hh & Ht & Ho & Hu & Hv & Hq & flushed & Hg & Hrw & Hcase).
  cbn [fst snd] in *.
  assert (Hpath : file_for s (today w) (today w) = file_for s0 (today w0) (today w0)).
  { rewrite Ht. by apply file_for_config. }
  destruct (_buffer s) as [|b bs] eqn:Hb.
  { exists (w, s). split.
    - unfold _do_flush, bind, get_self. cbn [fst snd]. by rewrite Hb.
    - split; [|done]. unfold in_session. cbn [fst snd].
      repeat (split; [done|]). exists flushed. rewrite Hb. done. }
  destruct Hcase as [(Hfl & Hsd & Hcw & Hfh & Hfs)|(Hfl & Hsd & Hcw & Hfh & Hfs)].
  - eexists. split.
    { apply do_flush_first_exact; try done. by rewrite Hb. }
    rewrite Hpath. split; [|done]. unfold in_session. cbn [fst snd world_with fs today].
    split; [done|]. split; [done|]. split; [done|]. split; [done|]. split; [done|].
    split.
    { intros q Hne. rewrite append_rows_lookup, decide_False by done.
      rewrite open_append_lookup, decide_False by done. by apply Hq. }
    exists (flushed ++ _buffer s). split; [by rewrite Hb, app_nil_r in *|].
    split; [simpl; rewrite Hrw, length_app; lia|].
    right. split; [rewrite Hb; by destruct flushed|].
    split; [simpl; by rewrite Ht|]. split; [done|]. split; [done|].
    rewrite append_rows_lookup, decide_True by done.
    rewrite open_append_lookup, decide_True by done.
    simpl. rewrite Hfs, Hfl. done.
  - eexists. split.
    { apply (do_flush_steady_exact w s (file_for s0 (today w0) (today w0))); try done.
      - by rewrite Hb.
      - by rewrite Ht. }
    split; [|done]. unfold in_session. cbn [fst snd world_with fs today].
    split; [done|]. split; [done|]. split; [done|]. split; [done|]. split; [done|].
    split.
    { intros q Hne. rewrite append_rows_lookup. rewrite decide_False by done. by apply Hq. }
    exists (flushed ++ _buffer s). split; [by rewrite Hb, app_nil_r in *|].
    split; [simpl; rewrite Hrw, length_app; lia|].
    right. split; [by destruct flushed|].
    split; [done|]. split; [done|]. split; [done|].
    rewrite append_rows_lookup. rewrite decide_True by done.
    rewrite Hfs. simpl. by rewrite <- app_assoc.
Qed.

Section Session.
Context (py_str : pyval -> string).

Lemma in_session_call (w0 : World) (s0 : CSVWriter) (given : list (list string))
    (c : call) (st : World * CSVWriter) :
  in_session w0 s0 given st ->
  exists st', run_call py_str c st = (st', Ok tt) /\
    in_session w0 s0 (given ++ (format_row py_str <$> rows_given [c])) st'.
Proof.
  intros Hin. destruct st as [w s]. destruct c as [row|rows| | |t]; simpl.
  - unfold write_row. run.
    apply (in_session_buffer _ _ _ [format_row py_str row]) in Hin.
    destruct (_ >=? _).
    + destruct (in_session_flush _ _ _ _ Hin) as (st' & Hrun & Hin' & _). eauto.
    + eauto.
  - unfold write_rows. run. rewrite app_nil_r.
    apply (in_session_buffer _ _ _ (format_row py_str <$> rows)) in Hin.
    destruct (_ >=? _).
    + destruct (in_session_flush _ _ _ _ Hin) as (st' & Hrun & Hin' & _). eauto.
    + eauto.
  - rewrite app_nil_r.
    destruct (in_session_flush _ _ _ _ Hin) as (st' & Hrun & Hin' & _). eauto.
  - rewrite app_nil_r. unfold check_time_flush. run.
    destruct (_last_flush_time s); [|eauto]. run.
    destruct (Qle_bool _ _); [|eauto]. run.
    destruct (_buffer s) eqn:Hb; [eauto|].
    destruct (in_session_flush _ _ _ _ Hin) as (st' & Hrun & Hin' & _). eauto.
  - rewrite app_nil_r. eexists. split; [reflexivity|]. by apply in_session_wait.
Qed.

Lemma in_session_calls (w0 : World) (s0 : CSVWriter) (cs : list call)
    (given : list (list string)) (st : World * CSVWriter) :
  in_session w0 s0 given st ->
  exists st', run_calls py_str cs st = (st', Ok tt) /\
    in_session w0 s0 (given ++ (format_row py_str <$> rows_given cs)) st'.
Proof.
  revert given st. induction cs as [|c cs IH]; intros given st Hin.
  - exists st. split; [done|]. by rewrite app_nil_r.
  - destruct (in_session_call _ _ _ c _ Hin) as (st1 & Hrun1 & Hin1).
    destruct (IH _ _ Hin1) as (st2 & Hrun2 & Hin2).
    exists st2. split.
    + simpl. unfold bind. by rewrite Hrun1.
    + replace (rows_given (c :: cs)) with (rows_given [c] ++ rows_given cs).
      * by rewrite fmap_app, app_assoc.
      * unfold rows_given. simpl. by rewrite app_nil_r.
Qed.

(** X10.  A writer created by [init] and used on one day while no call
    raises loses, duplicates and reorders nothing.  Whatever the calls
    ([write_row], [write_rows], [flush], [check_time_flush], in any order
    and at any times) and whatever the flush threshold, after [close] the
    file of the day holds what it held before, or the header row when it
    is new, followed by the formatted rows in the order they were given;
    no other file is touched, every row is counted in [_rows_written], the
    buffer is empty and the file is closed.  When no row was given no file
    is created. *)
Theorem session_persists_rows (w : World) (out und ven : string) (k : Z) (iv : Q)
    (cs : list call) :
  healthy w ->
  let s := init out und ven k iv in
  let path := file_for s (today w) (today w) in
  let given := format_row py_str <$> rows_given cs in
  exists w' s',
    session py_str cs (w, s) = ((w', s'), Ok tt) /\
    fs w' !! path
    = (match given with
       | [] => fs w !! path
       | _ :: _ => Some (default [COLUMNS] (fs w !! path) ++ given)
       end) /\
    (forall q, q <> path -> fs w' !! q = fs w !! q) /\
    _rows_written s' = Z.of_nat (length given) /\
    _buffer s' = [] /\ _file_handle s' = None.
Proof.
  intros Hh s path given.
  destruct (in_session_calls w s cs [] (w, s) (in_session_start w out und ven k iv Hh))
    as (st1 & Hrun1 & Hin1).
  rewrite app_nil_l in Hin1. fold given in Hin1.
  destruct (in_session_flush _ _ _ _ Hin1) as ([w2 s2] & Hrun2 & Hin2 & Hb2).
  destruct Hin2 as (Hh2 & Ht & Ho & Hu & Hv & Hq & flushed & Hg & Hrw & Hcase).
  cbn [fst snd] in *. rewrite Hb2, app_nil_r in Hg. subst flushed. fold path in Hq, Hcase.
  assert (Hflush : (match _buffer st1.2 with
                    | [] => ret tt
                    | _ :: _ => _do_flush
                    end) st1 = ((w2, s2), Ok tt)).
  { destruct (_buffer st1.2) eqn:Hb1; [|done].
    revert Hrun2. unfold _do_flush, bind at 1, get_self. by rewrite Hb1. }
  destruct Hcase as [(Hfl & Hsd & Hcw & Hfh & Hfs)|(Hfl & Hsd & Hcw & Hfh & Hfs)].
  - exists w2, s2. split.
    { unfold session, bind at 1. rewrite Hrun1. unfold close, bind at 1, get_self.
      unfold bind at 1. rewrite Hflush. by apply close_file_closed. }
    rewrite Hfl. rewrite Hfl in Hrw. done.
  - rewrite <- (world_with_nil w2) in Hflush.
    eexists _, _. split.
    { unfold session, bind at 1. rewrite Hrun1. unfold close, bind at 1, get_self.
      unfold bind at 1. rewrite Hflush. by apply close_file_exact. }
    cbn [fst snd world_with fs]. simpl.
    destruct given; [done|]. done.
Qed.

End Session.

(** *** Example runs *)

(** The header write fails at the first flush of a new writer. *)
Lemma only_open_errors_escape_witness :
  let st := (set_faults header_fails fresh_buffered.1, fresh_buffered.2) in
  flush st = ((flush st).1, Raised (OSError OpWriteHeader)) /\
  open_error (OSError OpWriteHeader) /\
  _buffer (flush st).1.2 = _buffer fresh_buffered.2.
Proof.
  intros st.
  assert (Hrun : flush st = ((flush st).1, Raised (OSError OpWriteHeader)))
    by (vm_compute; reflexivity).
  split; [exact Hrun|].
  destruct (only_open_errors_escape demo_str st (flush st).1 (OSError OpWriteHeader))
    as (_ & _ & H).
  destruct (H (or_introl Hrun)) as (He & Hb & _). split; [exact He|exact Hb].
Defined.

(** The second row reaches the threshold of [small_writer]. *)
Lemma buffer_stays_below_flush_rows_witness :
  0 < flush_rows small_writer /\
  Z.of_nat (length (_buffer (write_row demo_str row_b fresh_small).1.2)) < 2.
Proof.
  assert (Hpos : 0 < flush_rows (fresh_small.1, fresh_small.2).2) by reflexivity.
  split; [reflexivity|].
  destruct (buffer_stays_below_flush_rows demo_str (fresh_small.1, fresh_small.2) Hpos)
    as (H & _).
  apply (H row_b (write_row demo_str row_b fresh_small).1).
  vm_compute. reflexivity.
Defined.

(** Closing [buffered_state] twice. *)
Lemma close_is_idempotent_witness :
  close buffered_state = ((close buffered_state).1, Ok tt) /\
  close (close buffered_state).1 = ((close buffered_state).1, Ok tt).
Proof.
  assert (Hrun : close buffered_state = ((close buffered_state).1, Ok tt))
    by (vm_compute; reflexivity).
  split; [exact Hrun|].
  exact (close_is_idempotent buffered_state (close buffered_state).1 Hrun).
Defined.

Lemma filename_determines_dates_witness :
  valid_date day1 /\ valid_date day2 /\
  _get_filename writer0 day1 (Some day2) = _get_filename writer0 day1 (Some day2) /\
  day1 = day1 /\ day2 = day2.
Proof.
  assert (H1 : valid_date day1) by (unfold valid_date; simpl; lia).
  assert (H2 : valid_date day2) by (unfold valid_date; simpl; lia).
  split; [exact H1|]. split; [exact H2|]. split; [reflexivity|].
  exact (filename_determines_dates writer0 day1 day1 (Some day2) (Some day2)
           H1 H1 H2 H2 eq_refl).
Defined.

(** Three rows given in two calls to [small_writer], with a time check in
    between. *)
Lemma session_persists_rows_witness :
  healthy world0 /\
  exists w' s',
    session demo_str [WriteRow row_a; Wait 2000000; CheckTimeFlush; WriteRows [row_b; row_a]]
      (world0, small_writer) = ((w', s'), Ok tt) /\
    fs w' !! file_day1_day1
    = Some [COLUMNS; format_row demo_str row_a; format_row demo_str row_b;
            format_row demo_str row_a] /\
    _rows_written s' = 3.
Proof.
  assert (Hh : healthy world0) by (intros op; reflexivity).
  split; [exact Hh|].
  destruct (session_persists_rows demo_str world0 "out" "nifty" "NSEFO" 2 1
              [WriteRow row_a; Wait 2000000; CheckTimeFlush; WriteRows [row_b; row_a]] Hh)
    as (w' & s' & Hrun & Hfile & _ & Hrw & _).
  exists w', s'. split; [exact Hrun|]. split; [exact Hfile|exact Hrw].
Defined.

End WriterSessionFacts.

(** ** csv_writer.py: MultiCSVWriter *)

Module MultiCsvWriterFacts.

Import SnapshotBuilder CsvWriter CsvWriterFacts WriterScenario.
Import MultiCsvWriter.

(** *** Ordered dicts *)

Lemma sdict_get_set {V : Type} (d : list (string * V)) (k k' : string) (v : V) :
  sdict_get (sdict_set d k v) k' = if decide (k' = k) then Some v else sdict_get d k'.
Proof.
  induction d as [|[k0 v0] d IH]; simpl.
  - destruct (String.eqb_spec k k'); case_decide; congruence.
  - destruct (String.eqb_spec k0 k) as [->|Hne]; simpl.
    + destruct (String.eqb_spec k k'); case_decide; congruence.
    + destruct (String.eqb_spec k0 k'); [|done].
      case_decide; congruence.
Qed.

Lemma sdict_set_keys {V : Type} (d : list (string * V)) (k : string) (v : V) :
  (sdict_set d k v).*1
  = match sdict_get d k with
    | Some _ => d.*1
    | None => d.*1 ++ [k]
    end.
Proof.
  induction d as [|[k0 v0] d IH]; csimpl; [done|].
  destruct (String.eqb_spec k0 k) as [->|Hne]; csimpl; [done|].
  rewrite IH. by destruct (sdict_get d k).
Qed.

Lemma sdict_get_keys {V : Type} (d : list (string * V)) (k : string) :
  is_Some (sdict_get d k) <-> k ∈ d.*1.
Proof.
  induction d as [|[k0 v0] d IH]; simpl.
  - split; [by intros [? ?]|by intros ?%elem_of_nil].
  - rewrite elem_of_cons. destruct (String.eqb_spec k0 k) as [->|Hne].
    + split; [by left|eauto].
    + rewrite IH. split; [by right|]. intros [?|?]; [congruence|done].
Qed.

Lemma sdict_set_NoDup {V : Type} (d : list (string * V)) (k : string) (v : V) :
  NoDup d.*1 -> NoDup (sdict_set d k v).*1.
Proof.
  intros Hnd. rewrite sdict_set_keys.
  destruct (sdict_get d k) eqn:Hget; [done|].
  apply NoDup_app. split; [done|]. split; [|apply NoDup_singleton].
  intros x Hx ->%list_elem_of_singleton.
  apply sdict_get_keys in Hx as [? ?]. congruence.
Qed.

Lemma sdict_set_elem {V : Type} (d : list (string * V)) (k key : string) (v : V) :
  key ∈ (sdict_set d k v).*1 <-> key ∈ d.*1 \/ key = k.
Proof.
  rewrite sdict_set_keys. destruct (sdict_get d k) eqn:Hget.
  - split; [by left|]. intros [?| ->]; [done|]. apply sdict_get_keys. eauto.
  - rewrite elem_of_app, list_elem_of_singleton. done.
Qed.

(** *** The writers made by [__init__] *)

Lemma init_multi_spec (out : string) (underlyings : list string) (ven : string)
    (k : Z) (iv : Q) :
  let ws := init_multi out underlyings ven k iv in
  NoDup ws.*1 /\
  (forall key, key ∈ ws.*1 <-> exists u, u ∈ underlyings /\ key = upper u) /\
  (forall key writer, sdict_get ws key = Some writer ->
     underlying writer = key /\ output_dir writer = out /\ venue writer = ven /\
     flush_rows writer = k /\ flush_interval_seconds writer = iv /\
     _buffer writer = [] /\ _file_handle writer = None /\ _rows_written writer = 0).
Proof.
  unfold init_multi.
  set (step := fun (ws : writers) (u : string) =>
                 sdict_set ws (upper u) (init out u ven k iv)).
  assert (Hgen : forall us (ws0 : writers),
    NoDup ws0.*1 ->
    (forall key writer, sdict_get ws0 key = Some writer ->
       underlying writer = key /\ output_dir writer = out /\ venue writer = ven /\
       flush_rows writer = k /\ flush_interval_seconds writer = iv /\
       _buffer writer = [] /\ _file_handle writer = None /\ _rows_written writer = 0) ->
    let ws := foldl step ws0 us in
    NoDup ws.*1 /\
    (forall key, key ∈ ws.*1 <-> key ∈ ws0.*1 \/ exists u, u ∈ us /\ key = upper u) /\
    (forall key writer, sdict_get ws key = Some writer ->
       underlying writer = key /\ output_dir writer = out /\ venue writer = ven /\
       flush_rows writer = k /\ flush_interval_seconds writer = iv /\
       _buffer writer = [] /\ _file_handle writer = None /\ _rows_written writer = 0)).
  { induction us as [|u us IH]; intros ws0 Hnd Hall; simpl.
    - split; [done|]. split; [|done]. intros key. split; [by left|].
      intros [?|(u & Hu & _)]; [done|]. by apply elem_of_nil in Hu.
    - destruct (IH (step ws0 u)) as (H1 & H2 & H3).
      + by apply sdict_set_NoDup.
      + intros key writer. unfold step. rewrite sdict_get_set.
        case_decide as Hk; [|apply Hall]. intros [= <-]. subst key. done.
      + split; [done|]. split; [|done]. intros key. rewrite H2.
        unfold step at 1. rewrite sdict_set_elem. split.
        * intros [[Hk| ->]|(u' & Hu' & ->)].
          -- by left.
          -- right. exists u. split; [by left|done].
          -- right. exists u'. split; [by right|done].
        * intros [Hk|(u' & Hu' & ->)].
          -- left. by left.
          -- apply elem_of_cons in Hu' as [->|Hu'].
             ++ left. by right.
             ++ right. eauto. }
  destruct (Hgen underlyings []) as (H1 & H2 & H3).
  - constructor.
  - intros key writer. discriminate.
  - split; [done|]. split; [|done]. intros key. rewrite H2. split.
    + intros [Hk|?]; [by apply elem_of_nil in Hk|done].
    + by right.
Qed.

(** X11.  [MultiCSVWriter.__init__] keeps one writer per upper-cased
    underlying: the keys are the upper-cased names without repetition,
    names that differ only in case share one writer, and the writer stored
    under a key writes files named after that key, with an empty buffer and
    the configured directory, venue and thresholds. *)
Theorem init_multi_writers (out : string) (underlyings : list string) (ven : string)
    (k : Z) (iv : Q) :
  let ws := init_multi out underlyings ven k iv in
  NoDup ws.*1 /\
  (forall key, key ∈ ws.*1 <-> exists u, u ∈ underlyings /\ key = upper u) /\
  (forall key writer, sdict_get ws key = Some writer ->
     underlying writer = key /\ output_dir writer = out /\ venue writer = ven /\
     flush_rows writer = k /\ flush_interval_seconds writer = iv /\
     _buffer writer = [] /\ _file_handle writer = None /\ _rows_written writer = 0).
Proof. apply init_multi_spec. Qed.

(** *** Routing *)

Section Routing.
Context (py_str : pyval -> string).

(** X12.  [MultiCSVWriter.write_row] hands a row to the writer of its
    upper-cased [underlying_symbol] and to no other: the other writers and
    the order of the writers stay as they were and the outcome is that
    writer's.  A row of an underlying without writer is dropped without any
    call or error; a row whose [underlying_symbol] is not a string raises
    [AttributeError] and changes nothing. *)
Theorem write_row_routes (row : gmap string pyval) (w : World) (ws : writers) :
  match row_underlying row with
  | Some u =>
      match sdict_get ws u with
      | Some writer =>
          let out := CsvWriter.write_row py_str row (w, writer) in
          exists ws',
            write_row py_str row (w, ws) = ((out.1.1, ws'), out.2) /\
            sdict_get ws' u = Some out.1.2 /\
            (forall k, k <> u -> sdict_get ws' k = sdict_get ws k) /\
            ws'.*1 = ws.*1
      | None => write_row py_str row (w, ws) = ((w, ws), Ok tt)
      end
  | None => write_row py_str row (w, ws) = ((w, ws), Raised AttributeError)
  end.
Proof.
  unfold write_row. destruct (row_underlying row) as [u|]; [|done].
  unfold on_writer. cbn [fst snd].
  destruct (sdict_get ws u) as [writer|] eqn:Hget; [|done].
  destruct (CsvWriter.write_row py_str row (w, writer)) as [[w' writer'] r].
  eexists. split; [reflexivity|]. cbn [fst snd].
  split; [by rewrite sdict_get_set, decide_True|].
  split.
  - intros k Hk. by rewrite sdict_get_set, decide_False.
  - by rewrite sdict_set_keys, Hget.
Qed.

End Routing.

(** *** Grouping *)

Lemma rows_for_snoc (u : string) (rows : list (gmap string pyval)) (row : gmap string pyval) :
  rows_for u (rows ++ [row])
  = rows_for u rows ++ (if decide (row_underlying row = Some u) then [row] else []).
Proof.
  unfold rows_for. rewrite filter_app. f_equal.
Qed.

Lemma group_rows_spec (rows done : list (gmap string pyval))
    (acc : list (string * list (gmap string pyval))) :
  NoDup acc.*1 ->
  (forall u, default [] (sdict_get acc u) = rows_for u done) ->
  (forall u, u ∈ acc.*1 <-> exists row, row ∈ done /\ row_underlying row = Some u) ->
  match group_rows rows acc with
  | Some groups =>
      NoDup groups.*1 /\
      (forall u, default [] (sdict_get groups u) = rows_for u (done ++ rows)) /\
      (forall u, u ∈ groups.*1
                 <-> exists row, row ∈ done ++ rows /\ row_underlying row = Some u)
  | None => exists row, row ∈ rows /\ row_underlying row = None
  end.
Proof.
  revert done acc. induction rows as [|row rows IH]; intros done acc Hnd Hrows Hkeys.
  - simpl. rewrite app_nil_r. done.
  - simpl. destruct (row_underlying row) as [u|] eqn:Hu.
    2:{ exists row. split; [by left|done]. }
    set (acc1 := match sdict_get acc u with
                 | Some _ => acc
                 | None => sdict_set acc u []
                 end).
    assert (Hget1 : forall k, default [] (sdict_get acc1 k) = default [] (sdict_get acc k)).
    { intros k. unfold acc1. destruct (sdict_get acc u) eqn:Hg; [done|].
      rewrite sdict_get_set. case_decide as Hk; [|done]. subst k. by rewrite Hg. }
    assert (Hnd1 : NoDup acc1.*1).
    { unfold acc1. destruct (sdict_get acc u); [done|]. by apply sdict_set_NoDup. }
    assert (Hkeys1 : forall k, k ∈ acc1.*1 <-> k ∈ acc.*1 \/ k = u).
    { intros k. unfold acc1. destruct (sdict_get acc u) eqn:Hg.
      - split; [by left|]. intros [?| ->]; [done|]. apply sdict_get_keys. eauto.
      - apply sdict_set_elem. }
    specialize (IH (done ++ [row])
                   (sdict_set acc1 u (default [] (sdict_get acc1 u) ++ [row]))).
    rewrite <- !app_assoc in IH. simpl in IH.
    destruct (group_rows rows _) as [groups|].
    + apply IH.
      * by apply sdict_set_NoDup.
      * intros k. rewrite sdict_get_set, rows_for_snoc.
        case_decide as Hk.
        -- subst k. simpl. rewrite Hget1, Hrows. by rewrite decide_True.
        -- rewrite Hget1, Hrows. rewrite decide_False by congruence. by rewrite app_nil_r.
      * intros k. rewrite sdict_set_elem, Hkeys1, Hkeys. split.
        -- intros [[(r & Hr & Hru)| ->]| ->].
           ++ exists r. split; [|done]. apply elem_of_app. by left.
           ++ exists row. split; [|done]. apply elem_of_app. right. by left.
           ++ exists row. split; [|done]. apply elem_of_app. right. by left.
        -- intros (r & Hr & Hru). apply elem_of_app in Hr as [Hr|Hr].
           ++ left. left. eauto.
           ++ apply list_elem_of_singleton in Hr. subst r. right. congruence.
    + destruct IH as (r & Hr & Hru).
      * by apply sdict_set_NoDup.
      * intros k. rewrite sdict_get_set, rows_for_snoc.
        case_decide as Hk.
        -- subst k. simpl. rewrite Hget1, Hrows. by rewrite decide_True.
        -- rewrite Hget1, Hrows. rewrite decide_False by congruence. by rewrite app_nil_r.
      * intros k. rewrite sdict_set_elem, Hkeys1, Hkeys. split.
        -- intros [[(r & Hr & Hru)| ->]| ->].
           ++ exists r. split; [|done]. apply elem_of_app. by left.
           ++ exists row. split; [|done]. apply elem_of_app. right. by left.
           ++ exists row. split; [|done]. apply elem_of_app. right. by left.
        -- intros (r & Hr & Hru). apply elem_of_app in Hr as [Hr|Hr].
           ++ left. left. eauto.
           ++ apply list_elem_of_singleton in Hr. subst r. right. congruence.
      * exists r. split; [by right|done].
Qed.

Section Batches.
Context (py_str : pyval -> string).

(** X13.  [MultiCSVWriter.write_rows] groups a batch before it writes.
    When every row has a string [underlying_symbol], each underlying that
    occurs gets exactly one group, which holds its rows in the order of the
    batch, and the call is one [write_rows] of each group to its writer.
    When some row has an [underlying_symbol] that is not a string, the call
    raises [AttributeError] before anything is written: no writer receives
    a row, also not the rows in front of the bad one. *)
Theorem write_rows_groups (rows : list (gmap string pyval)) (st : World * writers) :
  match group_rows rows [] with
  | Some groups =>
      Forall (fun row => is_Some (row_underlying row)) rows /\
      NoDup groups.*1 /\
      (forall u, u ∈ groups.*1 <-> exists row, row ∈ rows /\ row_underlying row = Some u) /\
      (forall u, default [] (sdict_get groups u) = rows_for u rows) /\
      write_rows py_str rows st
      = for_each groups
          (fun '(u, urows) => on_writer u (CsvWriter.write_rows py_str urows)) st
  | None =>
      (exists row, row ∈ rows /\ row_underlying row = None) /\
      write_rows py_str rows st = (st, Raised AttributeError)
  end.
Proof.
  assert (Hall : forall groups, group_rows rows [] = Some groups ->
            Forall (fun row => is_Some (row_underlying row)) rows).
  { generalize (@nil (string * list (gmap string pyval))).
    induction rows as [|row rows IH]; intros acc groups Hg; [done|].
    simpl in Hg. destruct (row_underlying row) eqn:Hu; [|done].
    constructor; [by rewrite Hu|]. eapply IH. exact Hg. }
  pose proof (group_rows_spec rows [] []) as H. simpl in H.
  unfold write_rows.
  destruct (group_rows rows []) as [groups|].
  - destruct H as (H1 & H2 & H3).
    + constructor.
    + done.
    + intros u. split; [by intros ?%elem_of_nil|]. by intros (r & ?%elem_of_nil & _).
    + split; [by eapply Hall|]. done.
  - split; [|done]. apply H.
    + constructor.
    + done.
    + intros u. split; [by intros ?%elem_of_nil|]. by intros (r & ?%elem_of_nil & _).
Qed.

End Batches.

(** *** Examples *)

Lemma write_rows_groups_example :
  group_rows [row_of (VStr "nifty"); row_of (VStr "BANKNIFTY"); row_of (VStr "Nifty")] []
  = Some [("NIFTY", [row_of (VStr "nifty"); row_of (VStr "Nifty")]);
          ("BANKNIFTY", [row_of (VStr "BANKNIFTY")])] /\
  two_writers.*1 = ["NIFTY"; "BANKNIFTY"] /\
  write_rows demo_str [row_of (VStr "nifty"); row_of VNone] (world0, two_writers)
  = ((world0, two_writers), Raised AttributeError).
Proof. repeat split; vm_compute; reflexivity. Qed.

End MultiCsvWriterFacts.

(** ** ticker_stream.py: the tick caches *)

Module TickCacheFacts.

Import SnapshotBuilder TickerStream TickerStreamFacts TickCache Streamer.

Lemma foldl_handle_tick (ticks : list Tick) (self : TickerCache) :
  _latest_ticks (foldl handle_tick self ticks) = foldl store_tick (_latest_ticks self) ticks /\
  ticks_received (_stats (foldl handle_tick self ticks))
  = ticks_received (_stats self) + Z.of_nat (length (with_token ticks)) /\
  reconnect_count (_stats (foldl handle_tick self ticks)) = reconnect_count (_stats self) /\
  errors (_stats (foldl handle_tick self ticks)) = errors (_stats self) /\
  last_tick_time (_stats (foldl handle_tick self ticks)) = last_tick_time (_stats self).
Proof.
  revert self. induction ticks as [|tick ticks IH]; intros self; simpl.
  - repeat split; try done. lia.
  - destruct (IH (handle_tick self tick)) as (H1 & H2 & H3 & H4 & H5).
    rewrite H1, H2, H3, H4, H5. unfold with_token. rewrite filter_cons.
    unfold handle_tick, store_tick.
    destruct (tick_token tick) as [token|] eqn:Ht.
    + rewrite decide_True by eauto. cbn [_latest_ticks _stats ticks_received
        reconnect_count errors last_tick_time length].
      repeat split; try done. lia.
    + rewrite decide_False by (by intros [? ?]). done.
Qed.

Lemma foldl_store_tick (ticks : list Tick) (cache : gmap Z Tick) (token : Z) :
  foldl store_tick cache ticks !! token
  = match last (ticks_of token ticks) with
    | Some tick => Some tick
    | None => cache !! token
    end.
Proof.
  induction ticks as [|tick ticks IH] using rev_ind; [done|].
  rewrite foldl_app. simpl. unfold ticks_of in *. rewrite filter_app.
  rewrite filter_cons, filter_nil. unfold store_tick at 1.
  destruct (tick_token tick) as [t|] eqn:Ht.
  - destruct (decide (t = token)) as [->|Hne].
    + rewrite lookup_insert_eq. rewrite decide_True by done. by rewrite last_snoc.
    + rewrite lookup_insert_ne by done. rewrite decide_False by congruence.
      by rewrite app_nil_r.
  - rewrite decide_False by congruence. by rewrite app_nil_r.
Qed.

(** X14.  For ticks as KiteTicker delivers them, with an [int] token or
    none, [_handle_ticks] keeps, for every token, the last tick of the
    batch that carries it, and what was cached when the batch has none;
    ticks without token are skipped.  [ticks_received] grows by the number
    of ticks with a token and the other counters stay.  A batch that is not
    empty stamps [last_tick_time], also when none of its ticks has a token;
    an empty batch changes nothing. *)
Theorem handle_ticks_latest_wins (self : TickerCache) (ticks : list Tick) (now : Z) :
  Forall kite_tick ticks ->
  let self' := _handle_ticks self ticks now in
  (forall token,
     get_latest_tick self' token
     = match last (ticks_of token ticks) with
       | Some tick => Some tick
       | None => get_latest_tick self token
       end) /\
  ticks_received (_stats self')
  = ticks_received (_stats self) + Z.of_nat (length (with_token ticks)) /\
  reconnect_count (_stats self') = reconnect_count (_stats self) /\
  errors (_stats self') = errors (_stats self) /\
  last_tick_time (_stats self')
  = (match ticks with
     | [] => last_tick_time (_stats self)
     | _ :: _ => Some now
     end).
Proof.
  intros _ self'. unfold self', _handle_ticks, get_latest_tick.
  destruct ticks as [|tick ticks].
  { simpl. repeat split; try done. lia. }
  destruct (foldl_handle_tick (tick :: ticks) self) as (H1 & H2 & H3 & H4 & H5).
  cbn [_latest_ticks _stats ticks_received reconnect_count errors last_tick_time].
  rewrite H1, H2, H3, H4. split; [|done].
  intros token. apply foldl_store_tick.
Qed.

Lemma handle_ticks_latest_wins_witness :
  Forall kite_tick [tick_at 111 5; tick_without_token; tick_at 111 6] /\
  get_latest_tick
    (_handle_ticks new_cache [tick_at 111 5; tick_without_token; tick_at 111 6] 42) 111
  = Some (tick_at 111 6) /\
  ticks_received
    (_stats (_handle_ticks new_cache [tick_at 111 5; tick_without_token; tick_at 111 6] 42))
  = 2.
Proof.
  assert (Hk : Forall kite_tick [tick_at 111 5; tick_without_token; tick_at 111 6]).
  { repeat constructor. }
  split; [exact Hk|].
  destruct (handle_ticks_latest_wins new_cache
              [tick_at 111 5; tick_without_token; tick_at 111 6] 42 Hk) as (Hl & Hn & _).
  split; [rewrite Hl; reflexivity|rewrite Hn; reflexivity].
Defined.

(** *** The combined cache *)

Lemma deliver_combined (m : MultiCache) (i : nat) (ticks : list Tick) (now : Z) :
  _combined_ticks (deliver m i ticks now) = foldl store_tick (_combined_ticks m) ticks.
Proof. unfold deliver. by destruct ticks. Qed.

Lemma deliver_streams (m : MultiCache) (i : nat) (ticks : list Tick) (now : Z) :
  _stream_caches (deliver m i ticks now)
  = alter (fun stream => _handle_ticks stream ticks now) i (_stream_caches m).
Proof. unfold deliver. by destruct ticks. Qed.

Lemma handle_ticks_cache (self : TickerCache) (ticks : list Tick) (now : Z) :
  _latest_ticks (_handle_ticks self ticks now) = foldl store_tick (_latest_ticks self) ticks.
Proof.
  unfold _handle_ticks. destruct ticks as [|tick ticks]; [done|].
  cbn [_latest_ticks]. apply foldl_handle_tick.
Qed.

(** X15.  In a [MultiTickerStream] every batch goes through the cache of
    the stream it arrives on and through the combined cache.  When each
    token only arrives on the stream that owns it, the combined cache
    agrees with the streams at every moment: [get_latest_tick] of the
    multi-stream is [get_latest_tick] of the owning stream. *)
Theorem combined_cache_agrees (streams : nat) (owner : Z -> nat)
    (batches : list (nat * list Tick * Z)) :
  (forall i ticks now tick token,
     (i, ticks, now) ∈ batches -> tick ∈ ticks -> tick_token tick = Some token ->
     owner token = i /\ (i < streams)%nat) ->
  let m := deliveries (new_multi_cache streams) batches in
  length (_stream_caches m) = streams /\
  forall token,
    multi_get_latest_tick m token
    = (_stream_caches m !! owner token) ≫= (fun stream => get_latest_tick stream token).
Proof.
  intros Hown m. unfold m, deliveries. clear m.
  induction batches as [|[[i ticks] now] batches IH] using rev_ind.
  { simpl. split; [by rewrite length_replicate|]. intros token.
    unfold multi_get_latest_tick, new_multi_cache. simpl.
    destruct (replicate streams new_cache !! owner token) as [c|] eqn:Hc; [|done].
    apply lookup_replicate in Hc as [-> _]. done. }
  rewrite foldl_app. simpl.
  destruct IH as [Hlen IH].
  { intros i' ticks' now' tick token Hin. apply (Hown i' ticks' now').
    apply elem_of_app. by left. }
  set (m := foldl _ _ batches) in *.
  split; [by rewrite deliver_streams, length_alter|].
  intros token. unfold multi_get_latest_tick in *.
  rewrite deliver_combined, deliver_streams, foldl_store_tick.
  destruct (last (ticks_of token ticks)) as [tick|] eqn:Hlast.
  - assert (Htick : tick ∈ ticks /\ tick_token tick = Some token).
    { apply last_Some in Hlast as [l' Hl'].
      assert (Hin : tick ∈ ticks_of token ticks).
      { rewrite Hl'. apply elem_of_app. right. by left. }
      unfold ticks_of in Hin. by apply list_elem_of_filter in Hin as [? ?]. }
    destruct Htick as [Hin Htok].
    destruct (Hown i ticks now tick token) as [Ho Hi];
      [apply elem_of_app; right; by left|done|done|].
    rewrite Ho.
    destruct (lookup_lt_is_Some_2 (_stream_caches m) i) as [c Hc]; [lia|].
    rewrite list_lookup_alter_eq, Hc. simpl. unfold get_latest_tick.
    rewrite handle_ticks_cache, foldl_store_tick, Hlast. done.
  - rewrite IH. destruct (decide (owner token = i)) as [Heq|Hne].
    + rewrite Heq, list_lookup_alter_eq.
      destruct (_stream_caches m !! i) as [c|]; [|done]. simpl.
      unfold get_latest_tick. by rewrite handle_ticks_cache, foldl_store_tick, Hlast.
    + by rewrite list_lookup_alter_ne.
Qed.

Lemma combined_cache_agrees_witness :
  (forall i ticks now tick token,
     (i, ticks, now) ∈ [(0%nat, [tick_at 111 5], 1); (1%nat, [tick_at 222 9], 2);
                         (0%nat, [tick_at 111 6], 3)] ->
     tick ∈ ticks -> tick_token tick = Some token ->
     (if decide (token = 111) then 0%nat else 1%nat) = i /\ (i < 2)%nat) /\
  multi_get_latest_tick
    (deliveries (new_multi_cache 2)
       [(0%nat, [tick_at 111 5], 1); (1%nat, [tick_at 222 9], 2); (0%nat, [tick_at 111 6], 3)])
    111
  = Some (tick_at 111 6).
Proof.
  assert (Hown : forall i ticks now tick token,
     (i, ticks, now) ∈ [(0%nat, [tick_at 111 5], 1); (1%nat, [tick_at 222 9], 2);
                         (0%nat, [tick_at 111 6], 3)] ->
     tick ∈ ticks -> tick_token tick = Some token ->
     (if decide (token = 111) then 0%nat else 1%nat) = i /\ (i < 2)%nat).
  { intros i ticks now tick token Hin Htick Htok.
    repeat (apply elem_of_cons in Hin as [Hin|Hin]);
      [injection Hin as -> -> ->..|by apply elem_of_nil in Hin];
      apply list_elem_of_singleton in Htick; subst tick;
      injection Htok as <-; split; (reflexivity || lia). }
  split; [exact Hown|].
  destruct (combined_cache_agrees 2 (fun token => if decide (token = 111) then 0%nat else 1%nat)
              _ Hown) as [_ H].
  rewrite H. reflexivity.
Defined.

(** *** The token map of [MultiTickerStream.set_tokens] *)

Lemma foldl_insert_idx (chunk : list Z) (idx : nat) (m : gmap Z nat) (t : Z) :
  foldl (fun m token => <[token := idx]> m) m chunk !! t
  = if decide (t ∈ chunk) then Some idx else m !! t.
Proof.
  revert m. induction chunk as [|c chunk IH]; intros m; cbn [foldl].
  - case_decide as H; [by apply elem_of_nil in H|done].
  - rewrite IH. destruct (decide (t ∈ chunk)) as [Hin|Hnin].
    + by rewrite decide_True by (by right).
    + destruct (decide (t = c)) as [->|Hne].
      * rewrite lookup_insert_eq. by rewrite decide_True by (by left).
      * rewrite lookup_insert_ne by done.
        rewrite decide_False; [done|]. by intros [?|?]%elem_of_cons.
Qed.

Lemma foldl_add_chunk_map (chunks : list (list Z)) (acc : MultiTickerStream) (t : Z) (i : nat) :
  _token_to_stream (foldl add_chunk acc chunks) !! t = Some i ->
  (_token_to_stream acc !! t = Some i /\ forall c, c ∈ chunks -> t ∉ c) \/
  exists c, chunks !! (i - length (_streams acc))%nat = Some c /\ t ∈ c /\
            (length (_streams acc) <= i)%nat.
Proof.
  revert acc. induction chunks as [|c chunks IH]; intros acc; simpl.
  - intros H. left. split; [done|]. by intros c ?%elem_of_nil.
  - intros H. apply IH in H as [[H Hno]|(c' & Hc' & Ht & Hle)].
    + unfold add_chunk in H. simpl in H. rewrite foldl_insert_idx in H.
      case_decide as Hin.
      * injection H as <-. right. exists c. rewrite Nat.sub_diag. done.
      * left. split; [done|]. intros c' [->|?]%elem_of_cons; [done|]. by apply Hno.
    + unfold add_chunk in Hc', Hle. simpl in Hc', Hle. rewrite length_app in Hc', Hle.
      simpl in Hc', Hle. right. exists c'.
      replace (i - length (_streams acc))%nat with (S (i - (length (_streams acc) + 1)))
        by lia.
      split; [done|]. split; [done|lia].
Qed.

Lemma foldl_add_chunk_dom (chunks : list (list Z)) (acc : MultiTickerStream) (t : Z) :
  is_Some (_token_to_stream (foldl add_chunk acc chunks) !! t)
  <-> is_Some (_token_to_stream acc !! t) \/ t ∈ concat chunks.
Proof.
  revert acc. induction chunks as [|c chunks IH]; intros acc; simpl.
  - split; [by left|]. intros [?|?%elem_of_nil]; done.
  - rewrite IH. unfold add_chunk at 1. simpl. rewrite foldl_insert_idx, elem_of_app.
    case_decide; split; try tauto; eauto.
Qed.

(** X16.  [_token_to_stream] as [MultiTickerStream.set_tokens] fills it:
    its keys are the tokens that were kept (the first 9000), and a token is
    mapped to a stream that subscribes to it.  For distinct tokens the map
    sends every kept token to the one stream that holds it. *)
Theorem token_to_stream_owner (self : MultiTickerStream) (tokens : list Z) :
  let m := set_tokens self tokens in
  (forall t, is_Some (_token_to_stream m !! t) <-> t ∈ take 9000 tokens) /\
  (forall t i, _token_to_stream m !! t = Some i ->
     exists shard, shards m !! i = Some shard /\ t ∈ shard) /\
  (NoDup tokens ->
   forall t i shard, shards m !! i = Some shard -> t ∈ shard ->
     _token_to_stream m !! t = Some i).
Proof.
  intros m.
  assert (Hshards : shards m
            = (fun i => take MAX_TOKENS_PER_CONNECTION (drop i (take 9000 tokens)))
                <$> py_range (length (take 9000 tokens)) MAX_TOKENS_PER_CONNECTION)
    by apply set_tokens_shards.
  assert (Hcat : concat (shards m) = take 9000 tokens).
  { rewrite Hshards. unfold py_range. rewrite chunks_concat.
    - by rewrite drop_0.
    - unfold MAX_TOKENS_PER_CONNECTION. lia.
    - lia. }
  assert (Hm : exists chunks, m = foldl add_chunk (mkMulti [] ∅) chunks).
  { unfold m, set_tokens. eauto. }
  destruct Hm as [chunks Hm].
  assert (Hchunks : shards m = chunks).
  { rewrite Hm, foldl_add_chunk. done. }
  assert (Hdom : forall t, is_Some (_token_to_stream m !! t) <-> t ∈ take 9000 tokens).
  { intros t. rewrite <- Hcat, Hchunks, Hm, foldl_add_chunk_dom. simpl.
    rewrite lookup_empty. split; [|by right]. intros [[? ?]|?]; done. }
  assert (Hsound : forall t i, _token_to_stream m !! t = Some i ->
            exists shard, shards m !! i = Some shard /\ t ∈ shard).
  { intros t i H. rewrite Hm in H. apply foldl_add_chunk_map in H as [[H _]|(c & Hc & Ht & _)].
    - simpl in H. by rewrite lookup_empty in H.
    - simpl in Hc. rewrite Nat.sub_0_r in Hc. exists c. by rewrite Hchunks. }
  split; [exact Hdom|]. split; [exact Hsound|].
  intros Hnd t i shard Hi Ht.
  assert (Hin : t ∈ take 9000 tokens).
  { rewrite <- Hcat. apply list_elem_of_In, in_concat. exists shard.
    split; apply list_elem_of_In; [|done]. by eapply list_elem_of_lookup_2. }
  apply Hdom in Hin as [j Hj]. rewrite Hj. f_equal.
  destruct (Hsound t j Hj) as (shard' & Hj' & Ht').
  destruct (decide (j = i)) as [->|Hne]; [done|].
  exfalso. eapply (concat_disjoint (shards m) j i shard' shard t); try done.
  rewrite Hcat. eapply sublist_NoDup; [exact Hnd|]. apply sublist_take.
Qed.

Lemma token_to_stream_owner_witness :
  NoDup [101; 102; 103] /\
  _token_to_stream (set_tokens (mkMulti [] ∅) [101; 102; 103]) !! 102 = Some 0%nat.
Proof.
  assert (Hnd : NoDup [101; 102; 103]) by (by apply (bool_decide_unpack _)).
  split; [exact Hnd|].
  destruct (token_to_stream_owner (mkMulti [] ∅) [101; 102; 103]) as (_ & _ & H).
  apply (H Hnd 102 0%nat [101; 102; 103]); [reflexivity|].
  apply elem_of_cons. right. by left.
Defined.

(** *** The ticker of [setup] *)

Lemma subscription_short (stream : TickerStream) :
  (length (_subscribed_tokens stream) <= MAX_TOKENS_PER_CONNECTION)%nat ->
  subscription stream = _subscribed_tokens stream.
Proof.
  intros Hle. unfold subscription.
  destruct (_ <? _)%nat eqn:Hlt; [|done]. apply Nat.ltb_lt in Hlt. lia.
Qed.

Lemma range_from_below (i fuel start stop step : nat) :
  i ∈ range_from fuel start stop step -> (i < stop)%nat.
Proof.
  revert start. induction fuel as [|fuel IH]; intros start; simpl;
    [by intros ?%elem_of_nil|].
  destruct (start <? stop)%nat eqn:Hs; [|by intros ?%elem_of_nil].
  apply Nat.ltb_lt in Hs. intros [->|?]%elem_of_cons; [done|]. eauto.
Qed.

(** The shards of [set_tokens]: none is empty or over the limit, there are
    at most three, and together they are the tokens that were kept. *)
Lemma set_tokens_shards_shape (self : MultiTickerStream) (tokens : list Z) :
  let result := shards (set_tokens self tokens) in
  Forall (fun shard => shard <> [] /\ (length shard <= MAX_TOKENS_PER_CONNECTION)%nat) result /\
  (length result <= MAX_CONNECTIONS)%nat /\
  concat result = take 9000 tokens.
Proof.
  intros result. unfold result. rewrite set_tokens_shards. cbv zeta.
  set (kept := take (MAX_TOKENS_PER_CONNECTION * MAX_CONNECTIONS) tokens).
  assert (Hstep : (0 < MAX_TOKENS_PER_CONNECTION)%nat)
    by (unfold MAX_TOKENS_PER_CONNECTION; lia).
  assert (Hkept : (length kept <= MAX_CONNECTIONS * MAX_TOKENS_PER_CONNECTION)%nat).
  { unfold kept. rewrite length_take. lia. }
  split; [|split].
  - apply Forall_fmap, Forall_forall. intros i Hi. simpl.
    apply range_from_below in Hi.
    rewrite length_take. split; [|lia].
    intros Hnil. apply (f_equal length) in Hnil.
    rewrite length_take, length_drop in Hnil. cbn [length] in Hnil. lia.
  - rewrite length_fmap. unfold py_range.
    rewrite range_from_length by lia. rewrite Nat.sub_0_r.
    by apply (proj2 (ceil_div_least _ _ Hstep)).
  - unfold py_range. rewrite chunks_concat by lia. by rewrite drop_0.
Qed.

(** X17.  [run] starts the ticker that [setup] configured with
    [start(threaded=True)].  For at most 3000 tokens that is a single
    stream: it connects and, once connected, subscribes to exactly the
    tokens of the universe, in order, in one call (in none when there is no
    token).  For more than 3000 tokens it is a [MultiTickerStream], whose
    [start] takes no argument: the call raises [TypeError], no connection
    is asked for and no token is subscribed, although [set_tokens] had
    spread the first 9000 tokens over its streams. *)
Theorem run_connects_single_stream_only (tokens : list Z) :
  let ticker := setup_ticker tokens in
  ((length tokens <= 3000)%nat ->
     exists stream,
       start_threaded ticker = Started (Single stream) [stream] /\
       _subscribed_tokens stream = tokens /\ _running stream = true /\
       run_subscriptions ticker
       = match tokens with
         | [] => []
         | _ :: _ => [tokens]
         end) /\
  ((3000 < length tokens)%nat ->
     start_threaded ticker = RaisedTypeError ticker /\
     run_subscriptions ticker = [] /\
     exists streams,
       ticker = Multi streams /\ concat (shards streams) = take 9000 tokens).
Proof.
  intros ticker. unfold ticker, setup_ticker. split.
  - intros Hle. apply Nat.ltb_ge in Hle. rewrite Hle.
    exists (mkStream tokens true). unfold run_subscriptions.
    cbn [start_threaded stream_start stream_set_tokens new_stream _running
         _subscribed_tokens].
    split; [done|]. split; [done|]. split; [done|].
    rewrite bind_cons. change ([] ≫= connect_subscription) with (@nil (list Z)).
    rewrite app_nil_r. unfold connect_subscription.
    cbn [_subscribed_tokens]. destruct tokens as [|t tokens]; [done|].
    rewrite subscription_short; [done|]. cbn [_subscribed_tokens].
    by apply Nat.ltb_ge.
  - intros Hbig. apply Nat.ltb_lt in Hbig. rewrite Hbig.
    unfold run_subscriptions. cbn [start_threaded].
    split; [done|]. split; [done|]. eexists. split; [done|].
    apply set_tokens_shards_shape.
Qed.

(** A universe of 3001 contracts: the start of the ticker raises. *)
Example run_with_3001_tokens_raises :
  exists streams,
    start_threaded (setup_ticker (first_tokens 3001)) = RaisedTypeError (Multi streams) /\
    length <$> shards streams = [3000; 1]%nat /\
    run_subscriptions (setup_ticker (first_tokens 3001)) = [].
Proof. eexists. split; [reflexivity|]. split; vm_compute; reflexivity. Qed.

End TickCacheFacts.

(** ** run_option_chain.py: the pace of the snapshot loop *)

Module SnapshotLoopFacts.

Import RunOptionChain RunOptionChainFacts.
Local Open Scope Q_scope.







End SnapshotLoopFacts.

(** ** run_option_chain.py: spot prices and snapshots *)

Module OptionChainStreamerFacts.

Import SnapshotBuilder SnapshotBuilderFacts CsvWriter MultiCsvWriter OptionChainStreamer.

Lemma index_map_known (u key : string) :
  index_map u = Some key -> u ∈ ["NIFTY"; "BANKNIFTY"; "FINNIFTY"] /\ key <> "".
Proof.
  unfold index_map.
  destruct (String.eqb_spec u "NIFTY") as [->|_].
  { intros [= <-]. split; [|done]. set_solver. }
  destruct (String.eqb_spec u "BANKNIFTY") as [->|_].
  { intros [= <-]. split; [|done]. set_solver. }
  destruct (String.eqb_spec u "FINNIFTY") as [->|_]; [|done].
  intros [= <-]. split; [|done]. set_solver.
Qed.

Lemma add_spot_lookup (quotes : gmap string (gmap string pynum))
    (acc : gmap string pynum) (x u : string) :
  add_spot quotes acc x !! u
  = if decide (u = x)
    then match index_map x ≫= (quotes !!.) with
         | Some q => Some (default (NInt 0) (q !! "last_price"))
         | None => acc !! u
         end
    else acc !! u.
Proof.
  unfold add_spot. destruct (index_map x) as [key|]; simpl; [|by case_decide].
  destruct (quotes !! key) as [q|]; simpl; [|by case_decide].
  case_decide as Hu; [subst; by rewrite lookup_insert_eq|by rewrite lookup_insert_ne].
Qed.

Lemma foldl_add_spot (quotes : gmap string (gmap string pynum)) (underlyings : list string)
    (acc : gmap string pynum) (u : string) :
  foldl (add_spot quotes) acc underlyings !! u
  = if decide (u ∈ underlyings)
    then match index_map u ≫= (quotes !!.) with
         | Some q => Some (default (NInt 0) (q !! "last_price"))
         | None => acc !! u
         end
    else acc !! u.
Proof.
  revert acc. induction underlyings as [|x xs IH]; intros acc; cbn [foldl].
  - case_decide as H; [by apply elem_of_nil in H|done].
  - rewrite IH, add_spot_lookup.
    destruct (decide (u = x)) as [->|Hne].
    + rewrite (decide_True (P := x ∈ x :: xs)) by (by left).
      case_decide; by destruct (index_map x ≫= (quotes !!.)).
    + destruct (decide (u ∈ xs)) as [Hin|Hnin].
      * by rewrite decide_True by (by right).
      * rewrite decide_False; [done|]. by intros [?|?]%elem_of_cons.
Qed.

(** X20.  [_fetch_spot_prices] gives a spot price exactly to the configured
    underlyings that are one of NIFTY, BANKNIFTY and FINNIFTY and whose
    index is in the answer of [kite.quote]; the price is the quote's
    [last_price], and 0 when the quote has none.  No other underlying ever
    gets a price, and when the quote call raises, or when no configured
    underlying has an index, the result is empty. *)
Theorem fetch_spot_prices_known_indices
    (quote : list string -> option (gmap string (gmap string pynum)))
    (underlyings : list string) :
  let result := _fetch_spot_prices quote underlyings in
  let instruments := omap index_map underlyings in
  (forall u spot, result !! u = Some spot ->
     u ∈ underlyings /\ u ∈ ["NIFTY"; "BANKNIFTY"; "FINNIFTY"] /\
     exists key quotes q,
       index_map u = Some key /\ quote instruments = Some quotes /\
       quotes !! key = Some q /\ spot = default (NInt 0) (q !! "last_price")) /\
  (forall u key quotes q,
     u ∈ underlyings -> index_map u = Some key -> quote instruments = Some quotes ->
     quotes !! key = Some q ->
     result !! u = Some (default (NInt 0) (q !! "last_price"))) /\
  (quote instruments = None \/ instruments = [] -> result = ∅).
Proof.
  intros result instruments.
  assert (Hfilter : List.filter (fun i => negb (String.eqb i "")) instruments = instruments).
  { unfold instruments. induction underlyings as [|x xs IH]; [done|].
    cbn [omap list_omap]. destruct (index_map x) as [key|] eqn:Hk; [|exact IH].
    cbn [List.filter]. apply index_map_known in Hk as [_ Hne].
    destruct (String.eqb_spec key ""); [done|]. cbn [negb]. by rewrite IH. }
  assert (Hres : result = match instruments with
                          | [] => ∅
                          | _ :: _ =>
                              match quote instruments with
                              | Some quotes => foldl (add_spot quotes) ∅ underlyings
                              | None => ∅
                              end
                          end).
  { unfold result, _fetch_spot_prices. fold instruments. by rewrite Hfilter. }
  assert (Hnonempty : forall u key, u ∈ underlyings -> index_map u = Some key ->
            instruments <> []).
  { intros u key Hin Hk Hnil.
    assert (Hmem : key ∈ instruments).
    { unfold instruments. apply list_elem_of_omap. eauto. }
    rewrite Hnil in Hmem. by apply elem_of_nil in Hmem. }
  split; [|split].
  - intros u spot. rewrite Hres.
    destruct instruments as [|i rest] eqn:Hi; [by rewrite lookup_empty|].
    destruct (quote (i :: rest)) as [quotes|] eqn:Hq; [|by rewrite lookup_empty].
    rewrite foldl_add_spot, lookup_empty.
    case_decide as Hin; [|done].
    destruct (index_map u) as [key|] eqn:Hk; simpl; [|done].
    destruct (quotes !! key) as [q|] eqn:Hqk; [|done].
    intros [= <-]. split; [done|]. split; [by apply index_map_known in Hk as [? _]|].
    exists key, quotes, q. done.
  - intros u key quotes q Hin Hk Hq Hqk. rewrite Hres.
    pose proof (Hnonempty u key Hin Hk) as Hne.
    destruct instruments as [|i rest] eqn:Hi; [done|].
    rewrite Hq, foldl_add_spot, decide_True by done.
    rewrite Hk. simpl. by rewrite Hqk.
  - intros [Hq|Hnil]; rewrite Hres.
    + destruct instruments; [done|]. by rewrite Hq.
    + by rewrite Hnil.
Qed.

Lemma fetch_spot_prices_known_indices_example :
  _fetch_spot_prices nifty_quote ["NIFTY"; "SENSEX"; "BANKNIFTY"]
  = {[ "NIFTY" := NFloat (48021 # 2) ]}.
Proof. vm_compute. reflexivity. Qed.

Section Snapshot.
Context (py_str : pyval -> string).

(** X21.  [_take_snapshot] does nothing while the tick cache is empty.
    Once any tick is cached it builds one row per contract of the universe
    with one reading of the clock and hands them to the writer; when the
    write returns, one snapshot and as many rows as the universe has
    contracts are counted, whether or not a writer kept them; when the
    write raises, nothing is counted. *)
Theorem take_snapshot_counts_universe (ticks : gmap Z Tick)
    (universe : list (Z * gmap string pyval)) (self : Streamer) :
  let out := _take_snapshot py_str ticks universe self in
  let rows := (build_snapshot (builder self) ticks universe None (builder_clock self)).1 in
  (ticks = ∅ -> out = (self, Ok tt)) /\
  (ticks <> ∅ ->
     length rows = length universe /\
     reads (builder_clock out.1) = S (reads (builder_clock self)) /\
     (world out.1, writer out.1, out.2)
     = (let r := MultiCsvWriter.write_rows py_str rows (world self, writer self) in
        (r.1.1, r.1.2, r.2)) /\
     match out.2 with
     | Ok _ =>
         snapshots_taken (stats out.1) = snapshots_taken (stats self) + 1 /\
         rows_written (stats out.1)
         = rows_written (stats self) + Z.of_nat (length universe)
     | Raised _ => stats out.1 = stats self
     end).
Proof.
  intros out rows. unfold out, rows, _take_snapshot.
  split.
  - intros ->. by rewrite decide_True.
  - intros Hne. rewrite decide_False by done.
    rewrite build_snapshot_fmap. cbn [fst snd snapshot_clock].
    rewrite length_fmap.
    destruct (MultiCsvWriter.write_rows py_str _ _) as [[w ws] [[]|e]];
      cbn [fst snd builder_clock stats world writer snapshots_taken rows_written reads];
      rewrite ?length_fmap; done.
Qed.

End Snapshot.

End OptionChainStreamerFacts.

(** ** option_universe.py: what a universe holds *)

Module UniverseContentsFacts.

Import SnapshotBuilder OptionUniverse UniverseContents.

(** *** Dicts in insertion order *)

Lemma dict_set_elem {V : Type} (d : list (Z * V)) (k : Z) (v : V) (item : Z * V) :
  item ∈ dict_set d k v -> item = (k, v) \/ item ∈ d.
Proof.
  induction d as [|[k0 v0] d IH]; cbn [dict_set].
  - intros ->%list_elem_of_singleton. by left.
  - destruct (Z.eqb_spec k0 k) as [->|Hne].
    + intros [->|?]%elem_of_cons; [by left|]. right. by right.
    + intros [->|?]%elem_of_cons; [right; by left|].
      destruct IH as [?|?]; [done|by left|]. right. by right.
Qed.

Lemma dict_set_keys {V : Type} (d : list (Z * V)) (k : Z) (v : V) :
  (dict_set d k v).*1 = if decide (k ∈ d.*1) then d.*1 else d.*1 ++ [k].
Proof.
  induction d as [|[k0 v0] d IH]; cbn [dict_set].
  - rewrite decide_False by apply not_elem_of_nil. done.
  - destruct (Z.eqb_spec k0 k) as [->|Hne].
    + rewrite fmap_cons. cbn [fst]. rewrite decide_True by (by left). done.
    + rewrite !fmap_cons, IH. cbn [fst].
      destruct (decide (k ∈ d.*1)) as [Hin|Hnin].
      * by rewrite decide_True by (by right).
      * rewrite decide_False; [done|]. intros [?|?]%elem_of_cons; congruence.
Qed.

Lemma dict_set_NoDup {V : Type} (d : list (Z * V)) (k : Z) (v : V) :
  NoDup d.*1 -> NoDup (dict_set d k v).*1.
Proof.
  intros Hnd. rewrite dict_set_keys. case_decide as Hin; [done|].
  apply NoDup_app. split; [done|]. split; [|apply NoDup_singleton].
  by intros x Hx ->%list_elem_of_singleton.
Qed.

Lemma dict_set_key_in {V : Type} (d : list (Z * V)) (k k' : Z) (v : V) :
  k' ∈ (dict_set d k v).*1 <-> k' ∈ d.*1 \/ k' = k.
Proof.
  rewrite dict_set_keys. case_decide as Hin.
  - split; [by left|]. by intros [?| ->].
  - rewrite elem_of_app, list_elem_of_singleton. done.
Qed.

(** *** The loops of [build_universe] *)

Section Loops.
Context (self : OptionUniverse).

Local Abbreviation spots := (_spot_prices self).
Local Abbreviation built := (UniverseContents.built self).

Lemma add_expiry_built (underlying : string) (expiry : date)
    (universe : list (Z * gmap string pyval)) :
  underlying ∈ underlyings self -> expiry ∈ _select_expiries self underlying ->
  built universe ->
  built (add_expiry self underlying (effective_spot spots underlying) universe expiry) /\
  (forall token, token ∈ universe.*1 ->
     token ∈ (add_expiry self underlying (effective_spot spots underlying)
                universe expiry).*1) /\
  (forall row, row ∈ filter_options self underlying expiry ->
     in_strike_band (effective_spot spots underlying) (max_strike_distance self) row = true ->
     instrument_token row
       ∈ (add_expiry self underlying (effective_spot spots underlying) universe expiry).*1).
Proof.
  intros Hu He Hb. unfold add_expiry.
  set (rows := filter _ (filter_options self underlying expiry)).
  assert (Hrows : forall row, row ∈ rows <->
            row ∈ filter_options self underlying expiry /\
            in_strike_band (effective_spot spots underlying) (max_strike_distance self) row
            = true).
  { intros row. unfold rows. rewrite list_elem_of_filter. tauto. }
  clearbody rows.
  set (f := fun u r => let '(token, meta) := contract_meta underlying r in
                       dict_set u token meta).
  assert (Hgen : forall rs, (forall r, r ∈ rs -> r ∈ rows) ->
            built (foldl f universe rs) /\
            (forall token, token ∈ universe.*1 -> token ∈ (foldl f universe rs).*1) /\
            (forall r, r ∈ rs -> instrument_token r ∈ (foldl f universe rs).*1)).
  { induction rs as [|r rs IH] using rev_ind; intros Hsub.
    - cbn [foldl]. split; [done|]. split; [done|]. by intros r ?%elem_of_nil.
    - rewrite foldl_app. cbn [foldl].
      destruct IH as (Hb1 & Hk1 & Hr1).
      { intros r' Hr'. apply Hsub. apply elem_of_app. by left. }
      unfold f at 1 3 5. cbn [contract_meta].
      split; [|split].
      + destruct Hb1 as [Hnd Hall]. split; [by apply dict_set_NoDup|].
        intros item [->|Hin]%dict_set_elem; [|by apply Hall].
        exists underlying, r. split; [|done].
        split; [done|]. exists expiry. split; [done|].
        apply Hrows, Hsub. apply elem_of_app. right. by left.
      + intros token Hin. apply dict_set_key_in. left. by apply Hk1.
      + intros r' [Hin| ->%list_elem_of_singleton]%elem_of_app.
        * apply dict_set_key_in. left. by apply Hr1.
        * apply dict_set_key_in. by right. }
  destruct (Hgen rows) as (Hb1 & Hk1 & Hr1); [done|].
  split; [done|]. split; [done|].
  intros row Hin Hband. apply Hr1, Hrows. done.
Qed.

Lemma add_expiries_built (underlying : string) (expiries : list date)
    (universe : list (Z * gmap string pyval)) :
  underlying ∈ underlyings self ->
  (forall e, e ∈ expiries -> e ∈ _select_expiries self underlying) ->
  built universe ->
  let result := foldl (add_expiry self underlying (effective_spot spots underlying))
                      universe expiries in
  built result /\
  (forall token, token ∈ universe.*1 -> token ∈ result.*1) /\
  (forall expiry row, expiry ∈ expiries ->
     row ∈ filter_options self underlying expiry ->
     in_strike_band (effective_spot spots underlying) (max_strike_distance self) row = true ->
     instrument_token row ∈ result.*1).
Proof.
  intros Hu. revert universe.
  induction expiries as [|e es IH] using rev_ind; intros universe Hes Hb result.
  { unfold result. cbn [foldl]. split; [done|]. split; [done|].
    by intros expiry row ?%elem_of_nil. }
  unfold result. rewrite foldl_app. cbn [foldl].
  destruct (IH universe) as (Hb1 & Hk1 & Hr1); [|done|].
  { intros e' He'. apply Hes. apply elem_of_app. by left. }
  destruct (add_expiry_built underlying e
              (foldl (add_expiry self underlying (effective_spot spots underlying)) universe es))
    as (Hb2 & Hk2 & Hr2); [done| |done|].
  { apply Hes. apply elem_of_app. right. by left. }
  split; [done|]. split.
  - intros token Hin. by apply Hk2, Hk1.
  - intros expiry row [Hin| ->%list_elem_of_singleton]%elem_of_app Hrow Hband.
    + apply Hk2. by eapply Hr1.
    + by apply Hr2.
Qed.

Lemma add_underlyings_built (us : list string)
    (acc : list (Z * gmap string pyval) * gmap string (list date)) :
  (forall u, u ∈ us -> u ∈ underlyings self) ->
  built acc.1 ->
  let result := foldl (add_underlying self) acc us in
  built result.1 /\
  (forall token, token ∈ acc.1.*1 -> token ∈ result.1.*1) /\
  (forall underlying expiry row, underlying ∈ us ->
     expiry ∈ _select_expiries self underlying ->
     row ∈ filter_options self underlying expiry ->
     in_strike_band (effective_spot spots underlying) (max_strike_distance self) row = true ->
     instrument_token row ∈ result.1.*1) /\
  (forall u, result.2 !! u
             = if decide (u ∈ us) then Some (_select_expiries self u) else acc.2 !! u).
Proof.
  revert acc. induction us as [|u us IH] using rev_ind; intros acc Hus Hb result.
  { unfold result. cbn [foldl]. split; [done|]. split; [done|]. split.
    - by intros underlying expiry row ?%elem_of_nil.
    - intros u. by rewrite decide_False by apply not_elem_of_nil. }
  unfold result. rewrite foldl_app. cbn [foldl].
  destruct (IH acc) as (Hb1 & Hk1 & Hr1 & Hs1); [|done|].
  { intros u' Hu'. apply Hus. apply elem_of_app. by left. }
  destruct (foldl (add_underlying self) acc us) as [universe sel] eqn:Hfold.
  cbn [fst snd] in *. unfold add_underlying.
  fold spots. fold (effective_spot spots u).
  assert (Hu : u ∈ underlyings self) by (apply Hus, elem_of_app; right; by left).
  destruct (add_expiries_built u (_select_expiries self u) universe Hu) as (Hb2 & Hk2 & Hr2);
    [done|done|].
  cbn [fst snd]. split; [done|]. split; [|split].
  - intros token Hin. by apply Hk2, Hk1.
  - intros underlying expiry row [Hin| ->%list_elem_of_singleton]%elem_of_app He Hrow Hband.
    + apply Hk2. by eapply Hr1.
    + by eapply Hr2.
  - intros u'. destruct (decide (u' = u)) as [->|Hne].
    + rewrite lookup_insert_eq. rewrite decide_True; [done|].
      apply elem_of_app. right. by left.
    + rewrite lookup_insert_ne by done. rewrite Hs1.
      destruct (decide (u' ∈ us)) as [Hin|Hnin].
      * rewrite decide_True; [done|]. apply elem_of_app. by left.
      * rewrite decide_False; [done|].
        intros [?|?%list_elem_of_singleton]%elem_of_app; done.
Qed.

End Loops.

Lemma build_universe_spec (self : OptionUniverse) (spot_prices : option (gmap string pynum)) :
  let u := build_universe self spot_prices in
  let spots := with_spots self spot_prices in
  _spot_prices u = spots /\
  filter_options u = filter_options self /\ _select_expiries u = _select_expiries self /\
  underlyings u = underlyings self /\ max_strike_distance u = max_strike_distance self /\
  NoDup (get_tokens u) /\
  (forall item, item ∈ get_universe u ->
     exists underlying row, selected self spots underlying row /\
                            item = contract_meta underlying row) /\
  (forall underlying row, selected self spots underlying row ->
     instrument_token row ∈ get_tokens u) /\
  (forall underlying,
     _selected_expiries u !! underlying
     = if decide (underlying ∈ underlyings self)
       then Some (_select_expiries self underlying) else None).
Proof.
  intros u spots. unfold u, build_universe. fold (with_spots self spot_prices). fold spots.
  set (self' := mkUniverse (filter_options self) (_select_expiries self) (underlyings self)
                  (max_strike_distance self) [] spots ∅).
  destruct (add_underlyings_built self' (underlyings self) ([], ∅))
    as (Hb & _ & Hr & Hs).
  { done. }
  { split; [constructor|]. by intros item ?%elem_of_nil. }
  cbn [fst snd underlyings] in Hb, Hr, Hs.
  change (underlyings self') with (underlyings self).
  destruct (foldl (add_underlying self') ([], ∅) (underlyings self)) as [universe sel].
  cbn [fst snd] in *.
  unfold get_tokens, get_universe.
  cbn [_universe _spot_prices filter_options _select_expiries underlyings
       max_strike_distance _selected_expiries].
  repeat (split; [done|]).
  destruct Hb as [Hnd Hall]. split; [done|]. split; [|split].
  - intros item Hin. destruct (Hall item Hin) as (underlying & row & Hsel & ->).
    exists underlying, row. done.
  - intros underlying row (Hu & expiry & He & Hrow & Hband).
    by eapply Hr.
  - intros underlying. rewrite Hs. by rewrite lookup_empty.
Qed.



(** *** From the universe to the writers *)

Lemma build_row_underlying_symbol (self : SnapshotBuilder) (tick : Tick)
    (meta : gmap string pyval) (ts_micros : option Z) (clk : Clock) :
  (build_row self tick meta ts_micros clk).1 !! "underlying_symbol"
  = Some (dict_get_default meta "underlying" (VStr "")).
Proof.
  unfold build_row.
  destruct (match ts_micros with Some t => (t, clk) | None => _ end) as [ts clk'].
  destruct (_compute_mid_spread _ _) as [mid spread]. reflexivity.
Qed.

Import CsvWriter MultiCsvWriter MultiCsvWriterFacts SnapshotBuilderFacts.

(** X24.  When the universe and the writers are made from the same list of
    underlyings, as [setup] does, every row of every snapshot finds its
    writer: its [underlying_symbol] is a configured underlying and the
    upper-cased symbol is a key of the [MultiCSVWriter].  So no snapshot
    row is dropped for want of a writer and grouping a snapshot never
    raises. *)
Theorem snapshot_rows_find_their_writer (self : OptionUniverse)
    (spot_prices : option (gmap string pynum)) (builder : SnapshotBuilder)
    (ticks : gmap Z Tick) (ts_micros : option Z) (clk : Clock)
    (out ven : string) (k : Z) (iv : Q) :
  let universe := get_universe (build_universe self spot_prices) in
  let rows := (build_snapshot builder ticks universe ts_micros clk).1 in
  let ws := init_multi out (underlyings self) ven k iv in
  (forall row, row ∈ rows ->
     exists underlying writer,
       underlying ∈ underlyings self /\
       row !! "underlying_symbol" = Some (VStr underlying) /\
       row_underlying row = Some (upper underlying) /\
       sdict_get ws (upper underlying) = Some writer /\
       CsvWriter.underlying writer = upper underlying) /\
  is_Some (group_rows rows []).
Proof.
  intros universe rows ws.
  assert (Hrows : forall row, row ∈ rows ->
     exists underlying writer,
       underlying ∈ underlyings self /\
       row !! "underlying_symbol" = Some (VStr underlying) /\
       row_underlying row = Some (upper underlying) /\
       sdict_get ws (upper underlying) = Some writer /\
       CsvWriter.underlying writer = upper underlying).
  { intros row Hin. unfold rows in Hin. rewrite build_snapshot_fmap in Hin.
    cbn [fst] in Hin. apply list_elem_of_fmap in Hin as ([token meta] & -> & Hitem).
    destruct (build_universe_spec self spot_prices)
      as (_ & _ & _ & _ & _ & _ & Hsound & _).
    destruct (Hsound _ Hitem) as (underlying & irow & (Hu & _) & Heq).
    rewrite Heq. clear Heq Hitem token meta.
    destruct (init_multi_spec out (underlyings self) ven k iv) as (_ & Hkeys & Hw).
    assert (Hkey : upper underlying ∈ ws.*1) by (apply Hkeys; eauto).
    apply sdict_get_keys in Hkey as [writer Hget].
    exists underlying, writer. split; [done|].
    assert (Hsym : row_for builder ticks (snapshot_ts ts_micros clk)
                     (snapshot_clock ts_micros clk) (contract_meta underlying irow)
                   !! "underlying_symbol" = Some (VStr underlying)).
    { unfold row_for. rewrite build_row_underlying_symbol. reflexivity. }
    split; [done|]. split.
    - unfold row_underlying, dict_get_default. by rewrite Hsym.
    - split; [done|]. by apply Hw. }
  split; [exact Hrows|].
  pose proof (group_rows_spec rows [] []) as Hg. cbn [app] in Hg.
  destruct (group_rows rows []) as [groups|]; [eauto|].
  destruct Hg as (row & Hin & Hnone).
  - constructor.
  - done.
  - intros u. split; [by intros ?%elem_of_nil|]. by intros (r & ?%elem_of_nil & _).
  - destruct (Hrows row Hin) as (underlying & writer & _ & _ & Hsome & _). congruence.
Qed.

End UniverseContentsFacts.

(** ** instruments.py: expiries of the instrument master *)

Module InstrumentsFacts.

Import Instruments.

Lemma date_le_iff (a b : date) :
  date_le a b <->
  year a < year b \/ (year a = year b /\ (month a < month b \/
                                         (month a = month b /\ day a <= day b))).
Proof.
  unfold date_le, date_leb.
  rewrite !orb_true_iff, !andb_true_iff, !orb_true_iff, !andb_true_iff.
  rewrite !Z.ltb_lt, !Z.eqb_eq, Z.leb_le. done.
Qed.

Lemma date_le_total : Total date_le.
Proof. intros a b. rewrite !date_le_iff. lia. Qed.

Lemma date_le_trans : Transitive date_le.
Proof. intros a b c. rewrite !date_le_iff. lia. Qed.

Lemma date_le_antisymm : AntiSymm eq date_le.
Proof.
  intros a b. rewrite !date_le_iff. intros H1 H2.
  destruct a, b; simpl in *. f_equal; lia.
Qed.

Lemma unique_spec {A : Type} `{EqDecision A} (l : list A) :
  NoDup (unique l) /\ forall x, x ∈ unique l <-> x ∈ l.
Proof.
  unfold unique. induction l as [|y l IH] using rev_ind.
  - split; [constructor|done].
  - rewrite foldl_app. cbn [foldl]. destruct IH as [Hnd Hin].
    case_decide as Hy.
    + split; [done|]. intros x. rewrite Hin, elem_of_app, list_elem_of_singleton.
      split; [by left|]. intros [?| ->]; [done|]. by apply Hin.
    + split.
      * apply NoDup_app. split; [done|]. split; [|apply NoDup_singleton].
        by intros x Hx ->%list_elem_of_singleton.
      * intros x. rewrite !elem_of_app, Hin. done.
Qed.

Lemma option_mask_spec (underlying : string) (row : Instrument) :
  option_mask underlying None [] row = true
  <-> (instrument_type row = "CE" \/ instrument_type row = "PE") /\ name row = underlying.
Proof.
  unfold option_mask, isin. cbn [existsb].
  rewrite orb_false_r, !andb_true_r, andb_true_iff, orb_true_iff, !String.eqb_eq. done.
Qed.

(** The expiries of an underlying: those of its CE and PE rows. *)
Lemma get_unique_expiries_spec (df : list Instrument) (underlying : string) :
  let expiries := get_unique_expiries df underlying in
  StronglySorted date_le expiries /\ NoDup expiries /\
  forall e, e ∈ expiries <->
    exists row, row ∈ df /\ expiry row = e /\ name row = underlying /\
                (instrument_type row = "CE" \/ instrument_type row = "PE").
Proof.
  intros expiries. unfold expiries, get_unique_expiries.
  assert (Hmem : forall e, e ∈ expiry <$> filter_options df underlying None [] <->
            exists row, row ∈ df /\ expiry row = e /\ name row = underlying /\
                        (instrument_type row = "CE" \/ instrument_type row = "PE")).
  { intros e. rewrite list_elem_of_fmap. unfold filter_options. split.
    - intros (row & -> & Hin). apply list_elem_of_In, filter_In in Hin as [Hin Hmask].
      apply option_mask_spec in Hmask as [Ht Hn]. exists row.
      split; [by apply list_elem_of_In|done].
    - intros (row & Hin & <- & Hn & Ht). exists row. split; [done|].
      apply list_elem_of_In, filter_In. split; [by apply list_elem_of_In|].
      by apply option_mask_spec. }
  destruct (filter_options df underlying None []) as [|r rs] eqn:Hf.
  { split; [constructor|]. split; [constructor|]. intros e. rewrite <- Hmem.
    split; [by intros ?%elem_of_nil|]. rewrite fmap_nil. by intros ?%elem_of_nil. }
  rewrite <- Hf in *. clear Hf r rs.
  destruct (unique_spec (expiry <$> filter_options df underlying None [])) as [Hnd Hin].
  pose proof (merge_sort_Permutation date_le
                (unique (expiry <$> filter_options df underlying None []))) as Hperm.
  split; [apply StronglySorted_merge_sort; [apply date_le_trans|apply date_le_total]|]. split.
  - by rewrite Hperm.
  - intros e. rewrite Hperm, Hin. apply Hmem.
Qed.

Lemma first_from_spec (reference : date) (expiries : list date) :
  match first_from reference expiries with
  | Some e => exists before after,
      expiries = before ++ e :: after /\ date_le reference e /\
      Forall (fun x => ~ date_le reference x) before
  | None => Forall (fun x => ~ date_le reference x) expiries
  end.
Proof.
  induction expiries as [|x xs IH]; cbn [first_from]; [constructor|].
  destruct (date_leb reference x) eqn:Hx.
  - exists [], xs. split; [done|]. split; [done|constructor].
  - destruct (first_from reference xs) as [e|].
    + destruct IH as (before & after & -> & He & Hb).
      exists (x :: before), after. split; [done|]. split; [done|].
      constructor; [|done]. unfold date_le. congruence.
    + constructor; [|done]. unfold date_le. congruence.
Qed.

(** X25.  [get_nearest_expiry] returns the earliest expiry on or after the
    reference date among the CE and PE rows of the underlying, whatever the
    order of the rows in the frame, and [None] exactly when the underlying
    has no such expiry. *)
Theorem nearest_expiry_is_earliest (df : list Instrument) (underlying : string)
    (reference : date) :
  let of_underlying (e : date) :=
    exists row, row ∈ df /\ expiry row = e /\ name row = underlying /\
                (instrument_type row = "CE" \/ instrument_type row = "PE") in
  match get_nearest_expiry df underlying reference with
  | Some e =>
      of_underlying e /\ date_le reference e /\
      forall e', of_underlying e' -> date_le reference e' -> date_le e e'
  | None => forall e', of_underlying e' -> ~ date_le reference e'
  end.
Proof.
  intros of_underlying. unfold get_nearest_expiry.
  destruct (get_unique_expiries_spec df underlying) as (Hsorted & _ & Hmem).
  pose proof (first_from_spec reference (get_unique_expiries df underlying)) as Hfirst.
  destruct (first_from reference _) as [e|].
  - destruct Hfirst as (before & after & Heq & He & Hbefore).
    split; [|split; [done|]].
    { apply Hmem. rewrite Heq. apply elem_of_app. right. by left. }
    intros e' He' Href. apply Hmem in He'. rewrite Heq in He', Hsorted.
    apply elem_of_app in He' as [Hin|Hin].
    + rewrite Forall_forall in Hbefore. by destruct (Hbefore e' Hin).
    + apply StronglySorted_app_1_r in Hsorted.
      apply elem_of_cons in Hin as [->|Hin].
      * destruct (date_le_total e e); done.
      * apply StronglySorted_inv in Hsorted as [_ Hall].
        rewrite Forall_forall in Hall. by apply Hall.
  - intros e' He'. apply Hmem in He'. rewrite Forall_forall in Hfirst. by apply Hfirst.
Qed.

End InstrumentsFacts.

(** ** option_universe.py: the selection of expiries *)

Module ExpirySelectionFacts.

Import Instruments InstrumentsFacts ExpirySelection.

Lemma elem_of_take_list {A : Type} (x : A) (n : nat) (l : list A) :
  x ∈ take n l -> x ∈ l.
Proof.
  intros (i & Hi & _)%elem_of_take. by eapply list_elem_of_lookup_2.
Qed.

Lemma valid_expiries_spec (today : date) (all_expiries : list date) (e : date) :
  e ∈ List.filter (date_leb today) all_expiries <-> e ∈ all_expiries /\ date_le today e.
Proof. rewrite !list_elem_of_In, filter_In. done. Qed.

Lemma take_1_filter (reference : date) (expiries : list date) :
  take 1 (List.filter (date_leb reference) expiries)
  = option_list (first_from reference expiries).
Proof.
  induction expiries as [|x xs IH]; [done|].
  cbn [List.filter first_from]. destruct (date_leb reference x); [done|]. exact IH.
Qed.

Lemma monthly_spec (valid : list date) :
  let out := foldl monthly_step ([], []) valid in
  out.2 = (fun e => (year e, month e)) <$> out.1 /\
  NoDup out.2 /\
  Forall (fun e => e ∈ valid /\ 22 <= day e) out.1.
Proof.
  induction valid as [|x xs IH] using rev_ind.
  { cbn. split; [done|]. split; constructor. }
  cbv zeta in *. rewrite foldl_app. cbn [foldl].
  destruct (foldl monthly_step ([], []) xs) as [monthly seen].
  cbn [fst snd] in *. destruct IH as (Hseen & Hnd & Hall).
  assert (Hall' : Forall (fun e => e ∈ xs ++ [x] /\ 22 <= day e) monthly).
  { eapply Forall_impl; [exact Hall|]. intros e [? ?]. split; [|done].
    apply elem_of_app. by left. }
  unfold monthly_step. case_decide as Hkey; [done|].
  destruct (22 <=? day x) eqn:Hday; [|done].
  cbn [fst snd]. apply Z.leb_le in Hday. split; [|split].
  - by rewrite fmap_app, Hseen.
  - apply NoDup_app. split; [done|]. split; [|apply NoDup_singleton].
    by intros k Hk ->%list_elem_of_singleton.
  - apply Forall_app. split; [done|]. constructor; [|constructor].
    split; [|done]. apply elem_of_app. right. by left.
Qed.

Lemma explicit_spec (strptime : string -> option date) (valid : list date)
    (expiry_list : list string) :
  Forall (fun e => e ∈ valid /\ exists s, s ∈ expiry_list /\ strptime s = Some e)
         (foldl (explicit_step strptime valid) [] expiry_list).
Proof.
  induction expiry_list as [|s ss IH] using rev_ind; [constructor|].
  rewrite foldl_app. cbn [foldl].
  assert (IH' : Forall (fun e => e ∈ valid /\
                          exists s0, s0 ∈ ss ++ [s] /\ strptime s0 = Some e)
                       (foldl (explicit_step strptime valid) [] ss)).
  { eapply Forall_impl; [exact IH|]. intros e (? & s0 & ? & ?). split; [done|].
    exists s0. split; [|done]. apply elem_of_app. by left. }
  unfold explicit_step at 1. destruct (strptime s) as [d|] eqn:Hs; [|done].
  case_decide as Hd; [|done]. apply Forall_app. split; [done|].
  constructor; [|constructor]. split; [done|]. exists s. split; [|done].
  apply elem_of_app. right. by left.
Qed.

(** X26.  In every mode, also an unknown one, [_select_expiries] only
    returns expiries of the underlying that are not before today.  The
    modes nearest, weekly and monthly return at most 1, 4 and 3 of them; a
    monthly selection holds only days from the 22nd on and at most one
    expiry per calendar month; an explicit selection holds only dates
    parsed from the configured list.  An unknown mode selects what nearest
    selects. *)
Theorem selected_expiries_are_valid (expiries_mode : string) (expiry_list : list string)
    (strptime : string -> option date) (all_expiries : list date) (today : date) :
  let selected := _select_expiries expiries_mode expiry_list strptime all_expiries today in
  Forall (fun e => e ∈ all_expiries /\ date_le today e) selected /\
  (expiries_mode = "nearest" -> (length selected <= 1)%nat) /\
  (expiries_mode = "weekly" -> (length selected <= 4)%nat) /\
  (expiries_mode = "monthly" ->
     (length selected <= 3)%nat /\ Forall (fun e => 22 <= day e) selected /\
     NoDup ((fun e => (year e, month e)) <$> selected)) /\
  (expiries_mode = "explicit_list" ->
     Forall (fun e => exists s, s ∈ expiry_list /\ strptime s = Some e) selected) /\
  (expiries_mode ∉ ["nearest"; "weekly"; "monthly"; "explicit_list"] ->
     selected = _select_expiries "nearest" expiry_list strptime all_expiries today).
Proof.
  intros selected. unfold selected, _select_expiries.
  set (valid := List.filter (date_leb today) all_expiries).
  assert (Hvalid : forall e, e ∈ valid -> e ∈ all_expiries /\ date_le today e).
  { intros e. apply valid_expiries_spec. }
  assert (Htake : forall n, Forall (fun e => e ∈ all_expiries /\ date_le today e)
                              (take n valid)).
  { intros n. apply Forall_forall. intros e He. apply Hvalid.
    by eapply elem_of_take_list. }
  destruct (monthly_spec valid) as (Hseen & Hnd & Hmonthly). cbv zeta in *.
  pose proof (explicit_spec strptime valid expiry_list) as Hexplicit.
  destruct valid as [|v vs] eqn:Hv.
  { split; [constructor|]. split; [simpl; lia|]. split; [simpl; lia|].
    split; [intros _; split; [simpl; lia|split; constructor]|].
    split; [constructor|done]. }
  rewrite <- Hv in *. clear Hv v vs.
  split.
  { destruct (String.eqb expiries_mode "nearest"); [apply Htake|].
    destruct (String.eqb expiries_mode "weekly"); [apply Htake|].
    destruct (String.eqb expiries_mode "monthly").
    { apply Forall_forall. intros e He. apply elem_of_take_list in He.
      rewrite Forall_forall in Hmonthly. apply Hvalid. by apply Hmonthly. }
    destruct (String.eqb expiries_mode "explicit_list"); [|apply Htake].
    eapply Forall_impl; [exact Hexplicit|]. intros e [He _]. by apply Hvalid. }
  split; [intros ->; cbn -[take foldl]; rewrite length_take; lia|].
  split; [intros ->; cbn -[take foldl]; rewrite length_take; lia|].
  split.
  { intros ->. cbn -[take foldl]. split; [rewrite length_take; lia|]. split.
    - apply Forall_take. eapply Forall_impl; [exact Hmonthly|]. by intros e [_ ?].
    - rewrite fmap_take. rewrite <- Hseen.
      eapply sublist_NoDup; [exact Hnd|]. apply sublist_take. }
  split.
  { intros ->. cbn -[take foldl].
    eapply Forall_impl; [exact Hexplicit|]. by intros e [_ ?]. }
  intros Hmode. rewrite !not_elem_of_cons in Hmode.
  destruct Hmode as (H1 & H2 & H3 & H4 & _).
  apply String.eqb_neq in H1, H2, H3, H4. rewrite H1, H2, H3, H4. reflexivity.
Qed.

(** X27.  The two ways to the nearest expiry agree: in the mode nearest
    (and in an unknown mode) [OptionUniverse._select_expiries] selects
    exactly the expiry that [InstrumentLoader.get_nearest_expiry] returns
    for today, and nothing when that returns [None]. *)
Theorem nearest_mode_is_nearest_expiry (df : list Instrument) (underlying : string)
    (expiry_list : list string) (strptime : string -> option date) (today : date) :
  _select_expiries "nearest" expiry_list strptime (get_unique_expiries df underlying) today
  = option_list (get_nearest_expiry df underlying today).
Proof.
  unfold _select_expiries, get_nearest_expiry.
  rewrite <- take_1_filter.
  by destruct (List.filter _ _).
Qed.

Lemma nearest_mode_example :
  get_unique_expiries demo_frame "NIFTY"
  = [mkDate 2024 1 18; mkDate 2024 1 25; mkDate 2024 2 29] /\
  get_nearest_expiry demo_frame "NIFTY" (mkDate 2024 1 19) = Some (mkDate 2024 1 25) /\
  _select_expiries "monthly" [] (fun _ => None) (get_unique_expiries demo_frame "NIFTY")
    (mkDate 2024 1 1)
  = [mkDate 2024 1 25; mkDate 2024 2 29].
Proof. repeat split; vm_compute; reflexivity. Qed.

End ExpirySelectionFacts.

(** ** auth.py: the access token *)

Module KiteAuthFacts.

Import KiteAuth CsvWriterFacts.

Lemma string_tail_inj (c : ascii) (r1 r2 : string) :
  String c r1 = String c r2 -> r1 = r2.
Proof. by intros [= ->]. Qed.

Lemma isoformat_inj (a b : date) :
  valid_date a -> valid_date b -> isoformat a = isoformat b -> a = b.
Proof.
  intros (Hy1 & Hm1 & Hd1) (Hy2 & Hm2 & Hd2) H.
  unfold isoformat, strftime_Y_m_d in H.
  apply pad4_inj in H as [Hy H]; [|lia..].
  apply string_tail_inj, pad2_inj in H as [Hm H]; [|lia..].
  apply string_tail_inj, pad2_inj in H as [Hd _]; [|lia..].
  destruct a, b; simpl in *; congruence.
Qed.

Lemma load_after_persist (token : pyval) (st : State) (d : date) (ts : string)
    (env : option string) (self : pyval) :
  valid_date (today st.1) -> valid_date d ->
  _load_persisted_token (later d ts env (_persist_token token st).1, self)
  = Returns (if date_eqb d (today st.1) then token else VNone)
            (later d ts env (_persist_token token st).1, self).
Proof.
  intros Hv Hd. unfold _load_persisted_token, _persist_token, later. cbn [fst snd file today set_file].
  replace (dict_get _ "date") with (VStr (isoformat (today st.1))) by reflexivity.
  replace (dict_get _ "access_token") with token by reflexivity.
  cbn [eq_str]. destruct (String.eqb_spec (isoformat (today st.1)) (isoformat d)) as [Heq|Hne].
  - apply isoformat_inj in Heq as <-; [|done..].
    by rewrite (proj2 (date_eqb_eq _ _) eq_refl).
  - destruct (date_eqb d (today st.1)) eqn:He; [|done].
    apply date_eqb_eq in He as ->. done.
Qed.

(** X28.  A token written by [_persist_token] is read back by
    [_load_persisted_token] on the same calendar day, by any [KiteAuth]
    object, and is ignored on every other day: the date stored with the
    token decides, not the age of the file. *)
Theorem persisted_token_lasts_the_day (token : pyval) (st : State) (d : date) (ts : string)
    (env : option string) (self : pyval) :
  valid_date (today st.1) -> valid_date d ->
  let st' := (later d ts env (_persist_token token st).1, self) in
  (d = today st.1 -> _load_persisted_token st' = Returns token st') /\
  (d <> today st.1 -> _load_persisted_token st' = Returns VNone st').
Proof.
  intros Hv Hd st'. unfold st'. rewrite load_after_persist by done.
  split; intros H.
  - by rewrite (proj2 (date_eqb_eq _ _) H).
  - destruct (date_eqb d (today st.1)) eqn:He; [|done]. by apply date_eqb_eq in He.
Qed.

Lemma persisted_token_lasts_the_day_witness :
  valid_date (today (init first_run).1) /\ valid_date (mkDate 2024 1 16) /\
  _load_persisted_token
    (later (mkDate 2024 1 16) "2024-01-16T09:00:00" None
       (_persist_token (VStr "abc123") (init first_run)).1, VNone)
  = Returns VNone
      (later (mkDate 2024 1 16) "2024-01-16T09:00:00" None
         (_persist_token (VStr "abc123") (init first_run)).1, VNone).
Proof.
  assert (H1 : valid_date (today (init first_run).1)) by (unfold valid_date; simpl; lia).
  assert (H2 : valid_date (mkDate 2024 1 16)) by (unfold valid_date; simpl; lia).
  split; [exact H1|]. split; [exact H2|].
  apply (proj2 (persisted_token_lasts_the_day (VStr "abc123") (init first_run)
                  (mkDate 2024 1 16) "2024-01-16T09:00:00" None VNone H1 H2)).
  discriminate.
Defined.

(** X29.  [get_access_token] prefers the token in memory, then today's
    token of the file, then the environment variable.  Once it has
    returned a token, calling it again returns the same token and changes
    nothing.  A token taken from the environment is written to the file,
    so that a new [KiteAuth] object on the same day finds it there even
    when the variable is gone. *)
Theorem access_token_sources (st st' : State) (token : pyval) :
  get_access_token st = Returns token st' ->
  valid_date (today st.1) ->
  (truthy st.2 = true -> token = st.2 /\ st' = st) /\
  (forall loaded, truthy st.2 = false ->
     _load_persisted_token st = Returns loaded st -> truthy loaded = true ->
     token = loaded /\ file st'.1 = file st.1) /\
  (truthy token = true ->
     st'.2 = token /\ get_access_token st' = Returns token st') /\
  (truthy st.2 = false -> _load_persisted_token st = Returns VNone st ->
   truthy token = true ->
     env_token st.1 = Some (match token with VStr s => s | _ => "" end) /\
     forall ts env,
       get_access_token (init (later (today st.1) ts env st'.1))
       = Returns token (set_kite_token token (later (today st.1) ts env st'.1), token)).
Proof.
  intros Hrun Hv. split; [|split; [|split]].
  - intros Hmem. unfold get_access_token in Hrun. rewrite Hmem in Hrun.
    by injection Hrun as <- <-.
  - intros loaded Hmem Hload Hl. unfold get_access_token in Hrun.
    rewrite Hmem, Hload, Hl in Hrun. by injection Hrun as <- <-.
  - intros Htok.
    assert (Hself : st'.2 = token).
    { unfold get_access_token in Hrun. destruct (truthy st.2) eqn:Hmem.
      { by injection Hrun as <- <-. }
      destruct (_load_persisted_token st) as [loaded st1|st1]; [|done].
      destruct (truthy loaded) eqn:Hl; [by injection Hrun as <- <-|].
      destruct (env_token st1.1) as [env|]; [|injection Hrun as <- <-; discriminate Htok].
      destruct (negb (String.eqb env "")); [by injection Hrun as <- <-|].
      injection Hrun as <- <-. discriminate Htok. }
    split; [done|]. unfold get_access_token. by rewrite Hself, Htok.
  - intros Hmem Hload Htok. unfold get_access_token in Hrun.
    rewrite Hmem, Hload in Hrun. cbn [truthy] in Hrun.
    destruct (env_token st.1) as [env|] eqn:Henv; [|injection Hrun as <- <-; done].
    destruct (negb (String.eqb env "")) eqn:Hne; [|injection Hrun as <- <-; done].
    injection Hrun as <- <-. split; [done|].
    intros ts env'. unfold get_access_token, init. cbn [snd truthy].
    pose proof (load_after_persist (VStr env) (set_kite_token (VStr env) st.1, VStr env)
                  (today st.1) ts env' VNone) as Hl.
    cbn [fst snd today set_kite_token] in Hl.
    rewrite (proj2 (date_eqb_eq _ _) eq_refl) in Hl.
    cbn [fst snd]. rewrite Hl by done. cbn [truthy]. rewrite Hne. reflexivity.
Qed.

Lemma access_token_sources_witness :
  let st' := (set_file (JsonObject {[ "access_token" := VStr "abc123";
                                       "date" := VStr "2024-01-15";
                                       "timestamp" := VStr "2024-01-15T09:00:00" ]})
                (set_kite_token (VStr "abc123") first_run), VStr "abc123") in
  get_access_token (init first_run) = Returns (VStr "abc123") st' /\
  valid_date (today (init first_run).1) /\
  get_access_token st' = Returns (VStr "abc123") st'.
Proof.
  intros st'.
  assert (Hrun : get_access_token (init first_run) = Returns (VStr "abc123") st')
    by reflexivity.
  assert (Hv : valid_date (today (init first_run).1)) by (unfold valid_date; simpl; lia).
  split; [exact Hrun|]. split; [exact Hv|].
  destruct (access_token_sources (init first_run) st' (VStr "abc123") Hrun Hv)
    as (_ & _ & H & _).
  exact (proj2 (H eq_refl)).
Defined.

Lemma get_access_token_memory (st st1 : State) (token : pyval) :
  get_access_token st = Returns token st1 ->
  profile_answers st1.1 = profile_answers st.1 /\ truthy st1.2 = truthy token.
Proof.
  unfold get_access_token. destruct (truthy st.2) eqn:Hmem.
  { intros [= <- <-]. done. }
  assert (Hload : forall loaded st2, _load_persisted_token st = Returns loaded st2 -> st2 = st).
  { unfold _load_persisted_token. intros loaded st2.
    destruct (file st.1); [| |destruct (eq_str _ _)|]; congruence. }
  destruct (_load_persisted_token st) as [loaded st2|st2] eqn:Hl; [|done].
  rewrite (Hload _ _ eq_refl) in *. clear Hload Hl.
  destruct (truthy loaded) eqn:Ht; [by intros [= <- <-]|].
  destruct (env_token st.1) as [env|]; [|by intros [= <- <-]].
  destruct (negb (String.eqb env "")); by intros [= <- <-].
Qed.

(** X30.  [validate_session] answers [True] exactly when it leaves a token
    in memory, and only when the API call answered.  After [False] the
    token in memory is empty, whether no token was found or the API call
    failed, so that the next call starts again from the file and the
    environment. *)
Theorem validate_session_outcomes (st st' : State) (ok : bool) :
  validate_session st = Returns ok st' ->
  (ok = true <-> truthy st'.2 = true) /\
  (ok = true -> profile_answers st.1 = true).
Proof.
  unfold validate_session.
  destruct (get_access_token st) as [token st1|st1] eqn:Hget; [|done].
  apply get_access_token_memory in Hget as [Hp Hmem].
  destruct (truthy token) eqn:Htok; cbn [negb].
  - destruct (profile_answers st1.1) eqn:Hans; intros [= <- <-]; cbn [fst snd truthy].
    + by rewrite <- Hp.
    + done.
  - intros [= <- <-]. rewrite Hmem. done.
Qed.

Lemma validate_session_outcomes_witness :
  exists st', validate_session (init first_run) = Returns true st' /\
              truthy st'.2 = true.
Proof.
  eexists. split; [reflexivity|].
  eapply (proj1 (proj1 (validate_session_outcomes (init first_run) _ true eq_refl))).
  reflexivity.
Defined.

End KiteAuthFacts.
